(** * alpha_vest: the metric scoring engine of [prerender_stock_details.py]

    A shallow embedding of the evaluation core of the static page
    generator: cell coercion, peer medians, comparison indicators,
    section scores and the template merge, with the properties the
    specification states about them.

    Python's [float] is IEEE 754 binary64; it is embedded as Rocq's
    primitive [float], whose operations are the same machine operations.
    Python's [None] is [None] of [option]; a field identifier is the
    string the source uses. *)

From Stdlib Require Import ZArith List String Ascii Bool Lia DecimalString.
From Stdlib Require Import Floats Sorting.Sorted Sorting.Permutation.
Import ListNotations.

Set Warnings "-inexact-float,-register-all".
Local Open Scope string_scope.

(** ** Configuration tables *)

Module Config.

Definition DATA_FIELDS : list string :=
  [ "tang_equity_over_tot_liab"; "capital_intensity_reverse";
    "cagr_tangible_book_per_share"; "cagr_cash_and_equiv";
    "goodwill_to_assets"; "leverage_ratio"; "interest_coverage_ratio";
    "roe_tangible_equity"; "roic_over_wacc"; "rule_of_40";
    "cash_conversion_ratio"; "earnings_yield"; "price_to_earnings";
    "fcf_yield"; "peg"; "price_to_tangible_book"; "relative_PE_vs_history";
    "avg_5years_eps_growth"; "avg_5years_revenue_growth";
    "revenue_growth_acceleration"; "cagr_shares_diluted";
    "expected_growth_market_cap_10Y"; "final_earnings_for_10y_growth_10perc";
    "final_earnings_for_10y_growth_15perc"; "avg_5years_roe_growth";
    "implied_perpetual_growth_curr_market_cap"; "current_ratio";
    "negative_eps_count_5y"; "eps_growth_5y_total"; "pe_times_pb" ].

Definition SECTION_FIELDS : list (string * list string) :=
  [ ("balance-sheet-strength",
      [ "tang_equity_over_tot_liab"; "capital_intensity_reverse";
        "cagr_tangible_book_per_share"; "cagr_cash_and_equiv";
        "goodwill_to_assets" ]);
    ("debt-service", [ "leverage_ratio"; "interest_coverage_ratio" ]);
    ("profitability",
      [ "roe_tangible_equity"; "roic_over_wacc"; "rule_of_40";
        "cash_conversion_ratio"; "avg_5years_roe_growth" ]);
    ("valuation",
      [ "earnings_yield"; "price_to_earnings"; "fcf_yield"; "peg";
        "price_to_tangible_book"; "relative_PE_vs_history" ]);
    ("growth",
      [ "avg_5years_eps_growth"; "avg_5years_revenue_growth";
        "revenue_growth_acceleration"; "cagr_shares_diluted";
        "expected_growth_market_cap_10Y";
        "final_earnings_for_10y_growth_10perc";
        "final_earnings_for_10y_growth_15perc";
        "implied_perpetual_growth_curr_market_cap" ]);
    ("graham-value-investor-indicator",
      [ "current_ratio"; "negative_eps_count_5y"; "eps_growth_5y_total";
        "pe_times_pb" ]) ].

Definition HIGHER_IS_BETTER : list string :=
  [ "tang_equity_over_tot_liab"; "capital_intensity_reverse";
    "cagr_tangible_book_per_share"; "cagr_cash_and_equiv";
    "roe_tangible_equity"; "roic_over_wacc"; "rule_of_40";
    "cash_conversion_ratio"; "earnings_yield"; "fcf_yield";
    "avg_5years_eps_growth"; "avg_5years_revenue_growth";
    "revenue_growth_acceleration"; "expected_growth_market_cap_10Y";
    "avg_5years_roe_growth"; "interest_coverage_ratio"; "current_ratio" ].

Definition LOWER_IS_BETTER : list string :=
  [ "price_to_earnings"; "peg"; "price_to_tangible_book";
    "final_earnings_for_10y_growth_10perc";
    "final_earnings_for_10y_growth_15perc";
    "implied_perpetual_growth_curr_market_cap"; "leverage_ratio";
    "goodwill_to_assets"; "relative_PE_vs_history"; "cagr_shares_diluted";
    "negative_eps_count_5y" ].

Definition MEDIAN_MARGIN_OF_SAFETY : float := 0.15%float.

End Config.

(** [x in S] for a set or list of strings. *)
Definition str_in (x : string) (S : list string) : bool :=
  existsb (String.eqb x) S.

(** ** Python numbers *)

(** [math.isnan]. *)
Definition isnan (v : float) : bool := PrimFloat.is_nan v.

(** The comparisons of Python floats; each is false when an operand is
    a NaN. *)
Definition fge (x y : float) : bool := (y <=? x)%float.
Definition fgt (x y : float) : bool := (y <? x)%float.
Definition fle (x y : float) : bool := (x <=? y)%float.
Definition flt (x y : float) : bool := (x <? y)%float.
Definition feq (x y : float) : bool := (x =? y)%float.

(** ** Comparison engine *)

Record Indicator := mkIndicator { icon : string; css_class : string }.

Definition ind_better : Indicator := mkIndicator "▲" "better".
Definition ind_worse  : Indicator := mkIndicator "▼" "worse".
Definition ind_equal  : Indicator := mkIndicator "▬" "equal".

Definition _rule_current_ratio (v : option float) : option Indicator :=
  match v with
  | None => None
  | Some x =>
      if isnan x then None
      else Some (if fge x 1.5%float then ind_better else ind_worse)
  end.

Definition _rule_negative_eps (v : option float) : option Indicator :=
  match v with
  | None => None
  | Some x =>
      if isnan x then None
      else Some (if feq x 0%float then ind_better else ind_worse)
  end.

Definition _rule_eps_growth (v : option float) : option Indicator :=
  match v with
  | None => None
  | Some x =>
      if isnan x then None
      else Some (if fgt x 1%float then ind_better else ind_worse)
  end.

Definition _rule_pe_times_pb (v : option float) : option Indicator :=
  match v with
  | None => None
  | Some x =>
      if isnan x then None
      else Some (if flt x 30%float then ind_better else ind_worse)
  end.

(** [rules.get(field_id)]: the rule of a threshold field, [None] for
    every other identifier. *)
Definition threshold_indicator (field_id : string)
  : option (option float -> option Indicator) :=
  if String.eqb field_id "current_ratio" then Some _rule_current_ratio
  else if String.eqb field_id "negative_eps_count_5y" then Some _rule_negative_eps
  else if String.eqb field_id "eps_growth_5y_total" then Some _rule_eps_growth
  else if String.eqb field_id "pe_times_pb" then Some _rule_pe_times_pb
  else None.

Definition eps : float := 1e-12%float.

Definition get_comparison_indicator
  (value median_value : option float) (field_id : string) : Indicator :=
  match threshold_indicator field_id with
  | Some rule =>
      match rule value with
      | Some res => res
      | None => ind_equal
      end
  | None =>
      match value, median_value with
      | Some v, Some m =>
          if isnan v || isnan m then ind_equal
          else if flt (abs m) eps then
            if str_in field_id Config.HIGHER_IS_BETTER then
              if fgt v m then ind_better
              else if flt v m then ind_worse
              else ind_equal
            else if str_in field_id Config.LOWER_IS_BETTER then
              if flt v m then ind_better
              else if fgt v m then ind_worse
              else ind_equal
            else ind_equal
          else
            let upper := (m * (1 + Config.MEDIAN_MARGIN_OF_SAFETY))%float in
            let lower := (m * (1 - Config.MEDIAN_MARGIN_OF_SAFETY))%float in
            if str_in field_id Config.HIGHER_IS_BETTER then
              if fge v upper then ind_better
              else if fle v lower then ind_worse
              else ind_equal
            else if str_in field_id Config.LOWER_IS_BETTER then
              if fle v lower then ind_better
              else if fge v upper then ind_worse
              else ind_equal
            else ind_equal
      | _, _ => ind_equal
      end
  end.

(** The guard the source repeats before using a number:
    [v is None or math.isnan(float(v))]. *)
Definition is_missing (v : option float) : bool :=
  match v with
  | None => true
  | Some x => isnan x
  end.


(** ** Python integers and strings *)

(** An [int] is unbounded: [Z].  [float(n)] rounds to the nearest
    binary64, ties to even, and raises [OverflowError] when the rounded
    value does not fit; [None] stands for that error. *)
Definition Z2float (n : Z) : float :=
  SF2Prim (binary_normalize prec emax n 0 false).

Definition float_of_int (n : Z) : option float :=
  let x := Z2float n in
  if is_infinity x then None else Some x.

(** [a / b] on two [int]s, for [b <> 0] and operands below [2^53] in
    magnitude (the counts of a section are): the correctly rounded
    quotient, which is the binary64 division of the two conversions. *)
Definition int_truediv (a b : Z) : float := (Z2float a / Z2float b)%float.

(** [str(n)] for [n >= 0]. *)
Definition str_of_nat (n : Z) : string :=
  NilZero.string_of_uint (N.to_uint (Z.to_N n)).

(** [str(n)]. *)
Definition str_of_int (n : Z) : string :=
  if (n <? 0)%Z then "-" ++ str_of_nat (- n) else str_of_nat n.

(** A character of a cell's text is a code point below 256.
    [str.isspace] on these. *)
Definition py_isspace (c : ascii) : bool :=
  let n := nat_of_ascii c in
  ((9 <=? n) && (n <=? 13) || (28 <=? n) && (n <=? 32)
   || (n =? 133) || (n =? 160))%nat.

(** [str.lower] on one code point below 256. *)
Definition py_lower_char (c : ascii) : ascii :=
  let n := nat_of_ascii c in
  if ((65 <=? n) && (n <=? 90)
      || (192 <=? n) && (n <=? 222) && negb (n =? 215))%nat
  then ascii_of_nat (n + 32) else c.

Fixpoint lower (s : string) : string :=
  match s with
  | EmptyString => EmptyString
  | String c s' => String (py_lower_char c) (lower s')
  end.

Fixpoint lstrip (s : string) : string :=
  match s with
  | EmptyString => EmptyString
  | String c s' => if py_isspace c then lstrip s' else s
  end.

(** Drops trailing whitespace: a character is kept when something
    that is kept follows it or it is not whitespace. *)
Fixpoint rstrip (s : string) : string :=
  match s with
  | EmptyString => EmptyString
  | String c s' =>
      match rstrip s' with
      | EmptyString => if py_isspace c then EmptyString else String c EmptyString
      | r => String c r
      end
  end.

(** [s.strip()]. *)
Definition strip (s : string) : string := rstrip (lstrip s).

Definition is_empty (s : string) : bool :=
  match s with EmptyString => true | _ => false end.

(** [s.startswith(p)]. *)
Definition startswith (s p : string) : bool := String.prefix p s.

(** [sep.join(parts)]. *)
Fixpoint join (sep : string) (parts : list string) : string :=
  match parts with
  | [] => ""
  | [p] => p
  | p :: rest => p ++ sep ++ join sep rest
  end.

(** [s.split(c)] for a one-character separator: always at least one
    piece. *)
Fixpoint split_on (c : ascii) (s : string) : list string :=
  match s with
  | EmptyString => [""]
  | String d s' =>
      if Ascii.eqb d c then "" :: split_on c s'
      else match split_on c s' with
           | [] => [String d ""]
           | p :: ps => String d p :: ps
           end
  end.

(** ** Dataset loader: cell coercion *)

(** The values a worksheet cell can hold. *)
Inductive py_value :=
| PyNone
| PyBool (b : bool)
| PyInt (n : Z)
| PyFloat (x : float)
| PyStr (s : string)
| PyOther.

Inductive py_error := OverflowError | ValueError.

(** The outcome of a call: a value or an uncaught exception. *)
Inductive outcome (A : Type) :=
| Return (a : A)
| Raise (e : py_error).
Arguments Return {A} a.
Arguments Raise {A} e.

Section Loader.

(** The builtin [float(s)] on a string: the parsed number, or [None]
    for [ValueError]. *)
Variable float_of_str : string -> option float.

Definition _to_float (value : py_value) : outcome (option float) :=
  match value with
  | PyNone => Return None
  | PyBool b => Return (Some (if b then 1%float else 0%float))
  | PyInt n =>
      match float_of_int n with
      | Some x => Return (Some x)
      | None => Raise OverflowError
      end
  | PyFloat x => if isnan x then Return None else Return (Some x)
  | PyStr value =>
      let s := strip value in
      if is_empty s || str_in (lower s) ["na"; "n/a"; "nan"; "null"]
      then Return None
      else match float_of_str s with
           | Some x => Return (Some x)
           | None => Return None
           end
  | PyOther => Return None
  end.

End Loader.

(** ** Peer statistics *)

(** The comprehension of [calculate_median]: the numbers that are
    neither [None] nor NaN, in order. *)
Fixpoint clean_values (values : list (option float)) : list float :=
  match values with
  | [] => []
  | Some v :: rest => if isnan v then clean_values rest else v :: clean_values rest
  | None :: rest => clean_values rest
  end.

(** [list.sort] is a stable sort by [<]; insertion after the elements
    that are not greater is one. *)
Fixpoint insert_sorted (x : float) (l : list float) : list float :=
  match l with
  | [] => [x]
  | y :: l' => if flt x y then x :: l else y :: insert_sorted x l'
  end.

Definition sort (l : list float) : list float :=
  fold_left (fun acc x => insert_sorted x acc) l [].

Definition calculate_median (values : list (option float)) : option float :=
  let clean := sort (clean_values values) in
  match clean with
  | [] => None
  | _ =>
      let mid := (List.length clean / 2)%nat in
      if (List.length clean mod 2 =? 0)%nat
      then Some ((nth (mid - 1) clean 0 + nth mid clean 0) / 2)%float
      else Some (nth mid clean 0%float)
  end.

(** ** Section scorer *)

(** A [dict[str, float | None]] as the association list of its items. *)
Definition dict := list (string * option float).

(** [d.get(k)]: [None] for a missing key and for a stored [None]. *)
Fixpoint dict_get (d : dict) (k : string) : option float :=
  match d with
  | [] => None
  | (k', v) :: d' => if String.eqb k k' then v else dict_get d' k
  end.

Definition is_none {A} (o : option A) : bool :=
  match o with None => true | Some _ => false end.

(** One turn of the loop of [calculate_section_score]. *)
Definition score_step (stock_data medians : dict)
  (acc : Z * Z) (field_id : string) : Z * Z :=
  let '(above, total) := acc in
  let value := dict_get stock_data field_id in
  let median_value := dict_get medians field_id in
  if negb (is_none (threshold_indicator field_id)) then
    if is_none value then (above, total)
    else
      let total := (total + 1)%Z in
      let ind := get_comparison_indicator value median_value field_id in
      if String.eqb (css_class ind) "better" then ((above + 1)%Z, total)
      else (above, total)
  else if is_none value || is_none median_value then (above, total)
  else
    let total := (total + 1)%Z in
    let ind := get_comparison_indicator value median_value field_id in
    if String.eqb (css_class ind) "better" then ((above + 1)%Z, total)
    else (above, total).

Definition calculate_section_score
  (section_field_ids : list string) (stock_data medians : dict) : Z * Z :=
  fold_left (score_step stock_data medians) section_field_ids (0%Z, 0%Z).

Definition get_score_chip_class (above total : Z) : string :=
  if (total =? 0)%Z then "mixed"
  else
    let ratio := int_truediv above total in
    if fge ratio 0.7%float then "good"
    else if fge ratio 0.4%float then "mixed"
    else "poor".

(** ** Number formatting *)

(** The nearest integer to [num / den], [den > 0], ties to even. *)
Definition round_half_even (num den : Z) : Z :=
  let q := (num / den)%Z in
  let r := (num mod den)%Z in
  if (2 * r <? den)%Z then q
  else if (den <? 2 * r)%Z then (q + 1)%Z
  else if Z.even q then q else (q + 1)%Z.

(** [|x| * 10^p] rounded to an integer, for a number [m * 2^e]: what
    the builtin's correctly rounded decimal conversion prints. *)
Definition scaled_digits (p : Z) (m : positive) (e : Z) : Z :=
  let n := (Zpos m * 10 ^ p)%Z in
  if (0 <=? e)%Z then (n * 2 ^ e)%Z else round_half_even n (2 ^ (- e)).

Fixpoint zeros (n : nat) : string :=
  match n with
  | O => ""
  | S n' => String "0" (zeros n')
  end.

(** Commas between groups of three digits, counted from the right. *)
Fixpoint group_from (s : string) : string :=
  match s with
  | EmptyString => ""
  | String c s' =>
      let rest := group_from s' in
      if ((String.length s' mod 3 =? 0) && negb (String.length s' =? 0))%nat
      then String c ("," ++ rest) else String c rest
  end.

(** [format(x, ".<p>f")], and [format(x, ",.<p>f")] when [grouped]. *)
Definition format_fixed (grouped : bool) (p : nat) (x : float) : string :=
  let body (s : bool) (n : Z) :=
    let scale := (10 ^ Z.of_nat p)%Z in
    let int_part := str_of_nat (n / scale) in
    let frac := str_of_nat (n mod scale) in
    (if s then "-" else "")
    ++ (if grouped then group_from int_part else int_part)
    ++ (if (p =? 0)%nat then ""
        else "." ++ zeros (p - String.length frac) ++ frac) in
  match Prim2SF x with
  | S754_nan => "nan"
  | S754_infinity s => if s then "-inf" else "inf"
  | S754_zero s => body s 0%Z
  | S754_finite s m e => body s (scaled_digits (Z.of_nat p) m e)
  end.

Definition format_metric_value (value : option float) (field_id : string)
  : string :=
  match value with
  | None => "N/A"
  | Some value =>
      if isnan value then "N/A"
      else if str_in field_id
                [ "tang_equity_over_tot_liab"; "capital_intensity_reverse";
                  "roic_over_wacc"; "price_to_earnings"; "peg";
                  "price_to_tangible_book"; "leverage_ratio";
                  "interest_coverage_ratio"; "relative_PE_vs_history";
                  "current_ratio"; "pe_times_pb" ]
      then format_fixed false 2 value
      else if str_in field_id [ "negative_eps_count_5y" ]
      then format_fixed false 0 value
      else if str_in field_id
                [ "cagr_tangible_book_per_share"; "cagr_cash_and_equiv";
                  "roe_tangible_equity"; "cash_conversion_ratio";
                  "earnings_yield"; "fcf_yield"; "avg_5years_eps_growth";
                  "avg_5years_revenue_growth"; "revenue_growth_acceleration";
                  "expected_growth_market_cap_10Y"; "avg_5years_roe_growth";
                  "implied_perpetual_growth_curr_market_cap";
                  "goodwill_to_assets"; "cagr_shares_diluted";
                  "eps_growth_5y_total" ]
      then format_fixed false 2 (value * 100)%float ++ "%"
      else if str_in field_id
                [ "final_earnings_for_10y_growth_10perc";
                  "final_earnings_for_10y_growth_15perc" ]
      then format_fixed false 2 (value / 1000000000)%float ++ "B"
      else if str_in field_id [ "rule_of_40" ]
      then format_fixed false 2 (value * 100)%float
      else format_fixed true 2 value
  end.

(** ** Template renderer: the document tree *)

(** An attribute value as the HTML parser stores it: a string, or the
    list of tokens of a multi-valued attribute such as [class]. *)
Inductive attr_value :=
| AStr (s : string)
| AList (l : list string).

Definition attrs := list (string * attr_value).

(** A node of the parsed document: a run of text or an element. *)
Inductive node :=
| Text (s : string)
| Tag (name : string) (attributes : attrs) (children : list node).

(** The parsed document: the top-level nodes of the soup. *)
Definition soup := list node.

(** [tag.get(k)]. *)
Fixpoint attr_get (a : attrs) (k : string) : option attr_value :=
  match a with
  | [] => None
  | (k', v) :: a' => if String.eqb k k' then Some v else attr_get a' k
  end.

(** [tag[k] = v]: replaces the value in place, or adds the attribute
    last. *)
Fixpoint attr_set (a : attrs) (k : string) (v : attr_value) : attrs :=
  match a with
  | [] => [(k, v)]
  | (k', v') :: a' =>
      if String.eqb k k' then (k', v) :: a' else (k', v') :: attr_set a' k v
  end.

(** [(tag.get(k) or "")] and [tag.get(k, "")] for a single-valued
    attribute. *)
Definition attr_str (a : attrs) (k : string) : string :=
  match attr_get a k with
  | Some (AStr s) => s
  | _ => ""
  end.

(** [tag.get("class", [])]. *)
Definition attr_list (a : attrs) (k : string) : list string :=
  match attr_get a k with
  | Some (AList l) => l
  | _ => []
  end.

(** A test on an element: its name and attributes. *)
Definition selector := string -> attrs -> bool.

(** [find(name)]. *)
Definition named (t : string) : selector := fun name _ => String.eqb name t.

(** [find(id=x)]: the attribute equals [x]; a multi-valued attribute
    matches by one of its tokens or by their joined text. *)
Definition has_id (x : string) : selector :=
  fun _ a =>
    match attr_get a "id" with
    | Some (AStr s) => String.eqb s x
    | Some (AList l) => str_in x l || String.eqb (join " " l) x
    | None => false
    end.

(** The place of a node: child indices from the top of a forest. *)
Definition path := list nat.

(** The first element, in document order, that the selector accepts,
    searching a node and what is below it. *)
Fixpoint find_node (p : selector) (n : node) : option path :=
  match n with
  | Text _ => None
  | Tag name a kids =>
      if p name a then Some []
      else
        (fix go (l : list node) (i : nat) : option path :=
           match l with
           | [] => None
           | k :: l' =>
               match find_node p k with
               | Some q => Some (i :: q)
               | None => go l' (S i)
               end
           end) kids 0%nat
  end.

Fixpoint find_from (p : selector) (l : list node) (i : nat) : option path :=
  match l with
  | [] => None
  | k :: l' =>
      match find_node p k with
      | Some q => Some (i :: q)
      | None => find_from p l' (S i)
      end
  end.

(** [soup.find(...)], and [tag.find(...)] on the children of a tag:
    the search covers descendants only. *)
Definition find (p : selector) (l : list node) : option path :=
  find_from p l 0%nat.

Definition children_of (n : node) : list node :=
  match n with
  | Text _ => []
  | Tag _ _ kids => kids
  end.

(** The node at a place. *)
Fixpoint get_at (q : path) (l : list node) : option node :=
  match q with
  | [] => None
  | i :: q' =>
      match nth_error l i with
      | None => None
      | Some n =>
          match q' with
          | [] => Some n
          | _ => get_at q' (children_of n)
          end
      end
  end.

Fixpoint update_nth {A} (i : nat) (f : A -> A) (l : list A) : list A :=
  match l, i with
  | [], _ => []
  | x :: l', O => f x :: l'
  | x :: l', S i' => x :: update_nth i' f l'
  end.

(** The forest with the node at a place changed by [f]: a mutation of
    the element found there. *)
Fixpoint update_at (q : path) (f : node -> node) (l : list node) : list node :=
  match q with
  | [] => l
  | [i] => update_nth i f l
  | i :: q' =>
      update_nth i
        (fun n =>
           match n with
           | Text s => Text s
           | Tag name a kids => Tag name a (update_at q' f kids)
           end) l
  end.

(** [tag.string = s]: the children become a single run of text. *)
Definition set_string (s : string) (n : node) : node :=
  match n with
  | Text t => Text t
  | Tag name a _ => Tag name a [Text s]
  end.

(** [tag[k] = v]. *)
Definition set_attr (k : string) (v : attr_value) (n : node) : node :=
  match n with
  | Text t => Text t
  | Tag name a kids => Tag name (attr_set a k v) kids
  end.

(** [tag.append(child)]. *)
Definition append_child (c : node) (n : node) : node :=
  match n with
  | Text t => Text t
  | Tag name a kids => Tag name a (kids ++ [c])
  end.

(** A loop over [soup.find_all(t)] that rewrites attributes of each
    element found. *)
Fixpoint map_tags (f : string -> attrs -> attrs) (n : node) : node :=
  match n with
  | Text s => Text s
  | Tag name a kids => Tag name (f name a) (map (map_tags f) kids)
  end.

(** Whether [q] lies strictly below [p] in the tree. *)
Fixpoint strictly_below (p q : path) : bool :=
  match p, q with
  | [], [] => false
  | [], _ :: _ => true
  | _ :: _, [] => false
  | i :: p', j :: q' => (i =? j)%nat && strictly_below p' q'
  end.

(** ** Template renderer: the steps of [render_html] *)

Definition attrs_of (n : node) : attrs :=
  match n with
  | Text _ => []
  | Tag _ a _ => a
  end.

(** A found element mutated in place; nothing happens when the search
    gave [None]. *)
Definition mutate (found : option path) (f : node -> node) (doc : soup)
  : soup :=
  match found with
  | Some q => update_at q f doc
  | None => doc
  end.

Definition set_title (symbol : string) (doc : soup) : soup :=
  mutate (find (named "title") doc)
    (set_string ("Stock Details - " ++ symbol)) doc.

Definition set_header (symbol : string) (doc : soup) : soup :=
  mutate (find (has_id "stock-symbol-header") doc) (set_string symbol) doc.

(** The block "Title + header". *)
Definition set_title_and_header (symbol : string) (doc : soup) : soup :=
  set_header symbol (set_title symbol doc).

Definition mark_body (symbol : string) (doc : soup) : soup :=
  mutate (find (named "body") doc)
    (fun n =>
       set_attr "data-prerendered" (AStr "1")
         (set_attr "data-stock-symbol" (AStr symbol) n)) doc.

Definition fix_link (asset_prefix : string) (name : string) (a : attrs)
  : attrs :=
  if String.eqb name "link" then
    let href := strip (attr_str a "href") in
    if String.eqb href "styles.css"
    then attr_set a "href" (AStr (asset_prefix ++ "styles.css")) else a
  else a.

Definition fix_script (asset_prefix : string) (name : string) (a : attrs)
  : attrs :=
  if String.eqb name "script" then
    let src := strip (attr_str a "src") in
    if startswith src "js/"
    then attr_set a "src" (AStr (asset_prefix ++ src)) else a
  else a.

Definition fix_anchor (asset_prefix : string) (name : string) (a : attrs)
  : attrs :=
  if String.eqb name "a" then
    let href := strip (attr_str a "href") in
    if String.eqb href "index.html"
    then attr_set a "href" (AStr (asset_prefix ++ "index.html")) else a
  else a.

(** The three loops over links, scripts and anchors, one after the
    other. *)
Definition rewrite_assets (asset_prefix : string) (doc : soup) : soup :=
  let doc := map (map_tags (fix_link asset_prefix)) doc in
  let doc := map (map_tags (fix_script asset_prefix)) doc in
  map (map_tags (fix_anchor asset_prefix)) doc.

(** The text of the tier label, [label_text] in the source. *)
Definition score_label_text (chip_class : string) : string :=
  if String.eqb chip_class "good" then "Strong"
  else if String.eqb chip_class "mixed" then "Mixed"
  else if String.eqb chip_class "poor" then "Weak"
  else "Neutral".

(** The chip appended to the first [h2] of the section element. *)
Definition add_section_chip (section_id chip_class : string)
  (above total : Z) (doc : soup) : soup :=
  match find (has_id section_id) doc with
  | Some q =>
      match get_at q doc with
      | Some section =>
          match find (named "h2") (children_of section) with
          | Some r =>
              let chip :=
                Tag "span" [("class", AList ["section-score"; chip_class])]
                  [Text (str_of_int above ++ "/" ++ str_of_int total
                         ++ " above median")] in
              update_at (q ++ r)%list (append_child chip) doc
          | None => doc
          end
      | None => doc
      end
  | None => doc
  end.

(** The new [style] of the score bar: the old declarations without
    any width, then the width. *)
Definition bar_style (style : string) (pct : float) : string :=
  let parts :=
    filter (fun p => negb (is_empty p) && negb (startswith p "width:"))
      (map strip (split_on ";" style)) in
  let width := "width: " ++ format_fixed false 0 pct ++ "%" in
  join "; " (parts ++ [width])%list ++ ";".

Definition card_classes (existing : list string) (chip_class : string)
  : list string :=
  let status := "status-" ++ chip_class in
  (filter
     (fun c => negb (str_in c ["status-good"; "status-mixed"; "status-poor"]))
     existing
   ++ [status])%list.

(** The scorecard of a section.  The four elements are looked up
    first and mutated afterwards; an element that stood below the score
    value is no longer in the document once the value's text is set, so
    its mutation does not show. *)
Definition update_scorecard (section_id chip_class : string)
  (above total : Z) (doc : soup) : soup :=
  let score_val := find (has_id ("score-val-" ++ section_id)) doc in
  let score_bar := find (has_id ("score-bar-" ++ section_id)) doc in
  let score_label := find (has_id ("score-label-" ++ section_id)) doc in
  let card := find (has_id ("card-" ++ section_id)) doc in
  let still_there (found : option path) : option path :=
    match score_val, found with
    | Some p, Some q => if strictly_below p q then None else Some q
    | _, _ => found
    end in
  let doc :=
    mutate score_val
      (set_string (str_of_int above ++ "/" ++ str_of_int total)) doc in
  let pct :=
    if (0 <? total)%Z then (int_truediv above total * 100)%float
    else 0%float in
  let doc :=
    mutate (still_there score_bar)
      (fun n =>
         set_attr "style" (AStr (bar_style (attr_str (attrs_of n) "style") pct))
           n) doc in
  let doc :=
    mutate (still_there card)
      (fun n =>
         set_attr "class"
           (AList (card_classes (attr_list (attrs_of n) "class") chip_class))
           n) doc in
  mutate (still_there score_label)
    (set_string (score_label_text chip_class)) doc.

(** The composite that replaces a metric placeholder. *)
Definition metric_wrapper (indicator : Indicator) (text : string) : node :=
  let ind_span :=
    Tag "span"
      [("class", AList ["metric-indicator"; css_class indicator]);
       ("aria-label", AStr (css_class indicator))]
      [Text (icon indicator)] in
  let val_span :=
    Tag "span"
      [("class",
         AList (["metric-value"]
                ++ (if String.eqb (css_class indicator) "better"
                    then ["metric-better"]
                    else if String.eqb (css_class indicator) "worse"
                    then ["metric-worse"] else []))%list)]
      [Text text] in
  Tag "div" [("class", AList ["metric-value-wrapper"])] [ind_span; val_span].

Definition render_metric (field_id : string)
  (value median_value : option float) (doc : soup) : soup :=
  let indicator := get_comparison_indicator value median_value field_id in
  let doc :=
    mutate (find (has_id field_id) doc)
      (fun _ => metric_wrapper indicator (format_metric_value value field_id))
      doc in
  mutate (find (has_id (field_id ++ "_median")) doc)
    (set_string (format_metric_value median_value field_id)) doc.

(** ** Template renderer: the call and the objects it is handed *)

(** Python hands [render_html] its two dictionaries by reference.  The
    store holds the dictionary objects of the program; a reference is
    an index into it, and two references may be the same. *)
Definition ref := nat.
Definition Store := list dict.

Definition deref (st : Store) (r : ref) : dict := nth r st [].

(** A computation over the store. *)
Definition M (A : Type) : Type := Store -> A * Store.

Definition ret {A} (a : A) : M A := fun st => (a, st).

Definition bind {A B} (m : M A) (k : A -> M B) : M B :=
  fun st => let '(a, st') := m st in k a st'.

Notation "x <- m ;; k" := (bind m (fun x => k))
  (at level 61, m at next level, right associativity).

(** Passing a dictionary to a function that only reads it. *)
Definition load (r : ref) : M dict := fun st => (deref st r, st).

(** [d.get(k)] on the object behind a reference. *)
Definition get_item (r : ref) (k : string) : M (option float) :=
  fun st => (dict_get (deref st r) k, st).

(** A [for] loop that threads a value through its turns. *)
Fixpoint for_each {A B} (l : list A) (body : B -> A -> M B) (b : B) : M B :=
  match l with
  | [] => ret b
  | x :: l' => b' <- body b x ;; for_each l' body b'
  end.

(** [render_html] after parsing and before printing. *)
Definition render_soup (doc : soup) (symbol : string)
  (stock_data medians : ref) (asset_prefix : string) : M soup :=
  let doc := set_title_and_header symbol doc in
  let doc := mark_body symbol doc in
  let doc := rewrite_assets asset_prefix doc in
  doc <- for_each Config.SECTION_FIELDS
           (fun doc sec =>
              let '(section_id, field_ids) := sec in
              sd <- load stock_data ;;
              md <- load medians ;;
              let '(above, total) := calculate_section_score field_ids sd md in
              let chip_class := get_score_chip_class above total in
              let doc :=
                add_section_chip section_id chip_class above total doc in
              ret (update_scorecard section_id chip_class above total doc))
           doc ;;
  for_each Config.DATA_FIELDS
    (fun doc field_id =>
       value <- get_item stock_data field_id ;;
       median_value <- get_item medians field_id ;;
       ret (render_metric field_id value median_value doc))
    doc.

Section Renderer.

(** [BeautifulSoup(template_html, "html.parser")] and [str(soup)]. *)
Variable parse : string -> soup.
Variable to_str : soup -> string.

Definition render_html (template_html symbol : string)
  (stock_data medians : ref) (asset_prefix : string) : M string :=
  doc <- render_soup (parse template_html) symbol stock_data medians
           asset_prefix ;;
  ret (to_str doc).

End Renderer.

(** ** Tests the statements below refer to *)

(** The test under which the loop of [calculate_section_score] adds a
    field to [total]: the stored value is not [None], and for a field
    without a threshold rule the stored median is not [None] either. *)
Definition counted (stock_data medians : dict) (field_id : string) : bool :=
  if negb (is_none (threshold_indicator field_id))
  then negb (is_none (dict_get stock_data field_id))
  else negb (is_none (dict_get stock_data field_id)
             || is_none (dict_get medians field_id)).

(** The field's indicator is "better". *)
Definition rated_better (stock_data medians : dict) (field_id : string)
  : bool :=
  String.eqb
    (css_class
       (get_comparison_indicator (dict_get stock_data field_id)
          (dict_get medians field_id) field_id))
    "better".

(** The comparison of a field can be resolved: its value is present,
    and for a field without a threshold rule its median is present too,
    where None and NaN both count as absent. *)
Definition resolvable (stock_data medians : dict) (field_id : string)
  : bool :=
  if negb (is_none (threshold_indicator field_id))
  then negb (is_missing (dict_get stock_data field_id))
  else negb (is_missing (dict_get stock_data field_id))
       && negb (is_missing (dict_get medians field_id)).

(** The number of elements of a list that pass a test, as an [int]. *)
Definition count_of {A} (p : A -> bool) (l : list A) : Z :=
  Z.of_nat (List.length (filter p l)).

(** The format classes as the specification words them: a
    two-decimal ratio, a percentage (the value times 100 with two
    decimals, with or without the percent sign), an integer count, a
    currency amount in billions, and the grouped two-decimal default. *)
Inductive format_class :=
| Ratio
| Percentage (sign : bool)
| Count
| Billions
| Grouped.

(** The fixed class of each field. *)
Definition spec_format_class (field_id : string) : format_class :=
  if str_in field_id
       [ "tang_equity_over_tot_liab"; "capital_intensity_reverse";
         "roic_over_wacc"; "price_to_earnings"; "peg";
         "price_to_tangible_book"; "leverage_ratio";
         "interest_coverage_ratio"; "relative_PE_vs_history";
         "current_ratio"; "pe_times_pb" ] then Ratio
  else if String.eqb field_id "negative_eps_count_5y" then Count
  else if str_in field_id
            [ "cagr_tangible_book_per_share"; "cagr_cash_and_equiv";
              "roe_tangible_equity"; "cash_conversion_ratio";
              "earnings_yield"; "fcf_yield"; "avg_5years_eps_growth";
              "avg_5years_revenue_growth"; "revenue_growth_acceleration";
              "expected_growth_market_cap_10Y"; "avg_5years_roe_growth";
              "implied_perpetual_growth_curr_market_cap";
              "goodwill_to_assets"; "cagr_shares_diluted";
              "eps_growth_5y_total" ] then Percentage true
  else if str_in field_id
            [ "final_earnings_for_10y_growth_10perc";
              "final_earnings_for_10y_growth_15perc" ] then Billions
  else if String.eqb field_id "rule_of_40" then Percentage false
  else Grouped.

(** How a present number of a class is shown. *)
Definition spec_render (c : format_class) (v : float) : string :=
  match c with
  | Ratio => format_fixed false 2 v
  | Percentage sign =>
      format_fixed false 2 (v * 100)%float ++ (if sign then "%" else "")
  | Count => format_fixed false 0 v
  | Billions => format_fixed false 2 (v / 1000000000)%float ++ "B"
  | Grouped => format_fixed true 2 v
  end.

(** The children of the first element a selector accepts: what
    [soup.find(...).contents] shows. *)
Definition element_children (p : selector) (doc : soup) : option (list node) :=
  match find p doc with
  | Some q => option_map children_of (get_at q doc)
  | None => None
  end.

(** The node at a place below a node, the node itself at the empty
    place, and its mutation. *)
Definition get_in (q : path) (n : node) : option node :=
  match q with
  | [] => Some n
  | _ => get_at q (children_of n)
  end.

Definition update_in (q : path) (f : node -> node) (n : node) : node :=
  match q with
  | [] => f n
  | _ =>
      match n with
      | Text s => Text s
      | Tag name a kids => Tag name a (update_at q f kids)
      end
  end.

(** A small template with a title and a symbol header. *)
Definition sample_template : soup :=
  [Tag "html" []
     [Tag "head" [] [Tag "title" [] [Text "Stock Details"]];
      Tag "body" []
        [Tag "h1" []
           [Tag "span" [("id", AStr "stock-symbol-header")] [Text "-"]]]]].

(** Induction on a document node, with the property known of every
    child. *)
Section NodeInduction.

Variable P : node -> Prop.
Hypothesis P_text : forall s, P (Text s).
Hypothesis P_tag : forall name a kids, Forall P kids -> P (Tag name a kids).

Fixpoint node_induction (n : node) : P n :=
  match n with
  | Text s => P_text s
  | Tag name a kids =>
      P_tag name a kids
        ((fix all (l : list node) : Forall P l :=
            match l with
            | [] => Forall_nil P
            | k :: l' => Forall_cons k (node_induction k) (all l')
            end) kids)
  end.

End NodeInduction.

(** The tier as the specification words it, on the exact ratio
    [above / total]: at least 7/10 is good, at least 4/10 is mixed. *)
Definition spec_tier (above total : Z) : string :=
  if (total =? 0)%Z then "mixed"
  else if (7 * total <=? 10 * above)%Z then "good"
  else if (4 * total <=? 10 * above)%Z then "mixed"
  else "poor".

(** ** The rest of the pipeline: records and peer medians *)

(** A numeric row of [build_numeric_views]: one dictionary in the
    source, whose key "symbol" holds the ticker text (or [None]) and
    whose other keys hold the numbers of the data fields. *)
Record row := mkRow { row_symbol : option string; row_values : dict }.

(** [r.get(field_id)] for a key that holds a number, which is every
    key but "symbol"; the read of [compute_medians] and of the
    renderer, whose keys are data fields. *)
Definition row_get (r : row) (field_id : string) : option float :=
  dict_get (row_values r) field_id.

(** What a key of a numeric row holds when it is not [None]. *)
Inductive row_value :=
| RowText (s : string)
| RowNumber (x : float).

(** [r.get(k)] for any key: the ticker text under "symbol", a number
    under every other key. *)
Definition row_item (r : row) (k : string) : option row_value :=
  if String.eqb k "symbol" then option_map RowText (row_symbol r)
  else option_map RowNumber (row_get r k).

(** [d[k] = v]: the value is replaced where the key stands, a new key
    goes last. *)
Fixpoint dict_set (d : dict) (k : string) (v : option float) : dict :=
  match d with
  | [] => [(k, v)]
  | (k', v') :: d' =>
      if String.eqb k k' then (k', v) :: d' else (k', v') :: dict_set d' k v
  end.

Definition compute_medians (rows : list row) : dict :=
  fold_left
    (fun medians field_id =>
       dict_set medians field_id
         (calculate_median (map (fun r => row_get r field_id) rows)))
    Config.DATA_FIELDS [].

(** A node the renderer has nothing to do with: text, or an element
    that carries no [id], is none of [title], [body], [link], [script]
    and [a], and has only such nodes below it. *)
Fixpoint plain (n : node) : bool :=
  match n with
  | Text _ => true
  | Tag name a kids =>
      negb (str_in name ["title"; "body"; "link"; "script"; "a"])
      && is_none (attr_get a "id")
      && forallb plain kids
  end.

(** ** File names and symbols *)

(** [s.replace(c, rep)] for a one-character [c]. *)
Fixpoint replace_char (c : ascii) (rep : string) (s : string) : string :=
  match s with
  | EmptyString => EmptyString
  | String d s' =>
      if Ascii.eqb d c then rep ++ replace_char c rep s'
      else String d (replace_char c rep s')
  end.

(** [str.upper] on one code point below 256.  The sharp s (223)
    becomes "SS".  The capitals of the micro sign (181) and of y with
    diaeresis (255) lie beyond U+00FF; each is written here as the small
    character itself, which no other character maps to and which, like
    its capital, is neither whitespace nor a separator nor allowed in a
    file name. *)
Definition py_upper_char (c : ascii) : string :=
  let n := nat_of_ascii c in
  if (n =? 223)%nat then "SS"
  else if ((97 <=? n) && (n <=? 122)
           || (224 <=? n) && (n <=? 254) && negb (n =? 247))%nat
  then String (ascii_of_nat (n - 32)) ""
  else String c "".

Fixpoint upper (s : string) : string :=
  match s with
  | EmptyString => EmptyString
  | String c s' => py_upper_char c ++ upper s'
  end.

(** [s.split()]: the runs of characters between whitespace. *)
Fixpoint split_ws (s : string) : list string :=
  match s with
  | EmptyString => []
  | String c s' =>
      if py_isspace c then split_ws s'
      else
        match s' with
        | EmptyString => [String c ""]
        | String d _ =>
            if py_isspace d then String c "" :: split_ws s'
            else
              match split_ws s' with
              | w :: ws => String c w :: ws
              | [] => [String c ""]
              end
        end
  end.

(** [ch in allowed]: capital letters, digits, hyphen, dot, underscore. *)
Definition allowed (c : ascii) : bool :=
  let n := nat_of_ascii c in
  ((65 <=? n) && (n <=? 90) || (48 <=? n) && (n <=? 57)
   || (n =? 45) || (n =? 46) || (n =? 95))%nat.

(** ["".join(ch for ch in s if p(ch))]. *)
Fixpoint keep_chars (p : ascii -> bool) (s : string) : string :=
  match s with
  | EmptyString => EmptyString
  | String c s' =>
      if p c then String c (keep_chars p s') else keep_chars p s'
  end.

Definition sanitize_symbol_for_filename (symbol : string) : string :=
  let s := upper (strip symbol) in
  let s := replace_char ":" "-" s in
  let s := replace_char "/" "-" s in
  let s := replace_char "\" "-" s in
  let s := join "-" (split_ws s) in
  let s := keep_chars allowed s in
  if is_empty s then "SYMBOL" else s.

(** Every character of the string passes the test. *)
Fixpoint all_chars (p : ascii -> bool) (s : string) : bool :=
  match s with
  | EmptyString => true
  | String c s' => p c && all_chars p s'
  end.

(** ** Matching a symbol to a row *)

(** [c in s]. *)
Fixpoint contains_char (c : ascii) (s : string) : bool :=
  match s with
  | EmptyString => false
  | String d s' => Ascii.eqb d c || contains_char c s'
  end.

(** [s.split(c, 1)[0]]: what stands before the first [c]. *)
Fixpoint before_char (c : ascii) (s : string) : string :=
  match s with
  | EmptyString => EmptyString
  | String d s' =>
      if Ascii.eqb d c then EmptyString else String d (before_char c s')
  end.

(** The base ticker of a normalised symbol:
    [s.split(":", 1)[0].strip() if ":" in s else s]. *)
Definition base_ticker (s : string) : string :=
  if contains_char ":" s then strip (before_char ":" s) else s.

(** The loop of [find_stock_row]. *)
Fixpoint find_stock_row_loop (sym base_sym : string) (rows : list row)
  : option row :=
  match rows with
  | [] => None
  | r :: rest =>
      match row_symbol r with
      | None => find_stock_row_loop sym base_sym rest
      | Some rs =>
          let rs_u := upper (strip rs) in
          if String.eqb rs_u sym then Some r
          else
            let rs_base := base_ticker rs_u in
            if String.eqb rs_base base_sym then Some r
            else find_stock_row_loop sym base_sym rest
      end
  end.

Definition find_stock_row (rows : list row) (symbol : string) : option row :=
  let sym := upper (strip symbol) in
  let base_sym := base_ticker sym in
  find_stock_row_loop sym base_sym rows.

(** The row's symbol has the base ticker [b]. *)
Definition has_base (b : string) (r : row) : bool :=
  match row_symbol r with
  | Some rs => String.eqb (base_ticker (upper (strip rs))) b
  | None => false
  end.

(** A string that is empty or begins with a character that is not
    whitespace. *)
Definition clean_start (s : string) : Prop :=
  match s with
  | EmptyString => True
  | String c _ => py_isspace c = false
  end.


(** ** Batch mode: the list of symbols *)

(** The loop "Unique, stable order" of [main]: [seen] is the set of
    keys met so far, [unique_symbols] the list built so far. *)
Fixpoint unique_loop (symbols seen unique_symbols : list string)
  : list string :=
  match symbols with
  | [] => unique_symbols
  | s :: rest =>
      let key := upper (strip s) in
      if is_empty key || str_in key seen
      then unique_loop rest seen unique_symbols
      else unique_loop rest (key :: seen) (unique_symbols ++ [key])
  end.

Definition unique_symbols (symbols : list string) : list string :=
  unique_loop symbols [] [].

(** ** The sitemap generator *)

(** A call that returns, or leaves through [raise SystemExit(msg)]. *)
Inductive exit_or (A : Type) :=
| Done (a : A)
| SystemExit (msg : string).
Arguments Done {A} a.
Arguments SystemExit {A} msg.

(** [s.endswith(c)] for a one-character [c]. *)
Fixpoint ends_with_char (c : ascii) (s : string) : bool :=
  match s with
  | EmptyString => false
  | String d EmptyString => Ascii.eqb d c
  | String _ s' => ends_with_char c s'
  end.

Definition _normalize_base_url (base_url : option string) : exit_or string :=
  let base := strip (match base_url with Some s => s | None => "" end) in
  if is_empty base
  then SystemExit "--base-url is required (e.g. https://example.com)"
  else if negb (startswith base "http://" || startswith base "https://")
  then SystemExit "--base-url must start with http:// or https://"
  else if negb (ends_with_char "/" base) then Done (base ++ "/")
  else Done base.

(** The double quote and the apostrophe. *)
Definition dquote : ascii := ascii_of_nat 34.
Definition apos : ascii := ascii_of_nat 39.

Definition _xml_escape (s : string) : string :=
  replace_char apos "&apos;"
    (replace_char dquote "&quot;"
       (replace_char ">" "&gt;"
          (replace_char "<" "&lt;" (replace_char "&" "&amp;" s)))).

(** The entity of one character, or the character itself. *)
Definition escape_char (c : ascii) : string :=
  if Ascii.eqb c "&" then "&amp;"
  else if Ascii.eqb c "<" then "&lt;"
  else if Ascii.eqb c ">" then "&gt;"
  else if Ascii.eqb c dquote then "&quot;"
  else if Ascii.eqb c apos then "&apos;"
  else String c "".

Fixpoint escape_each (s : string) : string :=
  match s with
  | EmptyString => EmptyString
  | String c s' => escape_char c ++ escape_each s'
  end.

(** The reading of escaped text: each of the five entities stands for
    its character, any other character for itself. *)
Fixpoint xml_unescape (s : string) : string :=
  match s with
  | String "&" (String "a" (String "m" (String "p" (String ";" r)))) =>
      String "&" (xml_unescape r)
  | String "&" (String "l" (String "t" (String ";" r))) =>
      String "<" (xml_unescape r)
  | String "&" (String "g" (String "t" (String ";" r))) =>
      String ">" (xml_unescape r)
  | String "&"
      (String "q" (String "u" (String "o" (String "t" (String ";" r))))) =>
      String dquote (xml_unescape r)
  | String "&"
      (String "a" (String "p" (String "o" (String "s" (String ";" r))))) =>
      String apos (xml_unescape r)
  | String c r => String c (xml_unescape r)
  | EmptyString => EmptyString
  end.

(** ** Dataset loader: numeric rows *)

(** A raw row of [read_xlsx_rows]: the items of a dictionary from
    header name to cell. *)
Definition raw_row := list (string * py_value).

(** The number of decimal digits of an [int], its sign apart. *)
Definition decimal_digits (n : Z) : Z :=
  Z.of_nat (Decimal.nb_digits (N.to_uint (Z.abs_N n))).

(** The header names a ticker column may have, whatever their case
    and the whitespace around them. *)
Definition is_ticker_column (k : string) : bool :=
  str_in (lower (strip k)) ["symbol"; "ticker"; "tick"; "tic"].

Section NumericViews.

Variable float_of_str : string -> option float.

(** [sys.get_int_max_str_digits()]: the most decimal digits an [int]
    may have for [str] to convert it, 4300 unless set otherwise; 0
    stands for no limit, which is also how an interpreter older than the
    limit behaves. *)
Variable int_max_str_digits : Z.

(** The text the builtin [str(v)] returns for a cell, when it returns. *)
Variable py_str : py_value -> string.

(** The builtin [str(v)] on a cell: converting an [int] of more digits
    than the limit raises ValueError, every other cell has a text. *)
Definition str_of_cell (v : py_value) : outcome string :=
  match v with
  | PyInt n =>
      if (0 <? int_max_str_digits)%Z
         && (int_max_str_digits <? decimal_digits n)%Z
      then Raise ValueError
      else Return (py_str v)
  | _ => Return (py_str v)
  end.

(** One item of the inner loop of [build_numeric_views]. *)
Definition numeric_step (acc : outcome row) (item : string * py_value)
  : outcome row :=
  match acc with
  | Raise e => Raise e
  | Return nr =>
      let '(k, v) := item in
      if is_ticker_column k then
        match v with
        | PyNone => Return (mkRow None (row_values nr))
        | _ =>
            match str_of_cell v with
            | Return t => Return (mkRow (Some (strip t)) (row_values nr))
            | Raise e => Raise e
            end
        end
      else if str_in k Config.DATA_FIELDS then
        match _to_float float_of_str v with
        | Return x => Return (mkRow (row_symbol nr) (dict_set (row_values nr) k x))
        | Raise e => Raise e
        end
      else Return nr
  end.

Definition build_numeric_row (r : raw_row) : outcome row :=
  fold_left numeric_step r (Return (mkRow None [])).

Fixpoint build_numeric_views (rows : list raw_row) : outcome (list row) :=
  match rows with
  | [] => Return []
  | r :: rest =>
      match build_numeric_row r with
      | Raise e => Raise e
      | Return nr =>
          match build_numeric_views rest with
          | Raise e => Raise e
          | Return l => Return (nr :: l)
          end
      end
  end.

End NumericViews.

(** The last item of a raw row under a header the test accepts. *)
Definition last_cell (p : string -> bool) (r : raw_row) : option py_value :=
  option_map snd (List.find (fun kv => p (fst kv)) (rev r)).

(** ** Dataset loader: raw rows *)

(** [record[h] = v] on the items of a raw row. *)
Fixpoint raw_set (d : raw_row) (k : string) (v : py_value) : raw_row :=
  match d with
  | [] => [(k, v)]
  | (k', v') :: d' =>
      if String.eqb k k' then (k', v) :: d' else (k', v') :: raw_set d' k v
  end.

(** [v is None or (isinstance(v, str) and not v.strip())]. *)
Definition is_empty_cell (v : py_value) : bool :=
  match v with
  | PyNone => true
  | PyStr s => is_empty (strip s)
  | _ => false
  end.

(** The loop over the header names for one worksheet row: a header
    without a name is skipped, a cell beyond the end of the row is
    [None]. *)
Fixpoint record_loop (names : list string) (idx : nat) (cells : list py_value)
  (record : raw_row) (empty_count : nat) : raw_row * nat :=
  match names with
  | [] => (record, empty_count)
  | h :: rest =>
      if is_empty h then record_loop rest (S idx) cells record empty_count
      else
        let v := nth idx cells PyNone in
        record_loop rest (S idx) cells (raw_set record h v)
          (if is_empty_cell v then S empty_count else empty_count)
  end.

Section RawRows.

Variable py_str : py_value -> string.

Definition header_names (headers : list py_value) : list string :=
  map (fun h => match h with
                | PyNone => ""
                | _ => strip (py_str h)
                end) headers.

(** [read_xlsx_rows] from the header row and the rows below it, as
    the worksheet yields them. *)
Definition read_xlsx_rows (headers : list py_value)
  (rows : list (list py_value)) : list raw_row :=
  match headers with
  | [] => []
  | _ =>
      let names := header_names headers in
      flat_map
        (fun cells =>
           let '(record, empty_count) := record_loop names 0 cells [] 0 in
           if (List.length record <=? empty_count)%nat
              && negb (List.length record =? 0)%nat
           then [] else [record])
        rows
  end.

End RawRows.

(** The cells of a row under the headers that have a name, from
    position [idx] on. *)
Fixpoint named_cells (names : list string) (idx : nat) (cells : list py_value)
  : raw_row :=
  match names with
  | [] => []
  | h :: rest =>
      if is_empty h then named_cells rest (S idx) cells
      else (h, nth idx cells PyNone) :: named_cells rest (S idx) cells
  end.

(** ** Where the title and the header stand in a template *)

(** The ids of the elements whose content a step of [render_html]
    after the title and header block replaces: the score value and the
    tier label of a section, the placeholder of a field and its median
    display. *)
Definition rewritten_ids : list string :=
  List.app
    (flat_map
       (fun sec => ["score-val-" ++ fst sec; "score-label-" ++ fst sec])
       Config.SECTION_FIELDS)
    (flat_map (fun f => [f; f ++ "_median"]) Config.DATA_FIELDS).

Definition has_rewritten_id : selector :=
  fun name a => existsb (fun x => has_id x name a) rewritten_ids.

(** The elements on the way to a place, outermost first and the
    element at the place last, each by name and attributes. *)
Fixpoint spine (q : path) (l : list node) : list (string * attrs) :=
  match q with
  | [] => []
  | i :: q' =>
      match nth_error l i with
      | Some (Tag name a kids) => (name, a) :: spine q' kids
      | _ => []
      end
  end.

(** No element on the way to a place, the element there included, is
    one the test accepts. *)
Definition clear_of (bad : selector) (q : path) (doc : soup) : bool :=
  forallb (fun e => negb (bad (fst e) (snd e))) (spine q doc).

(** A template with the title and the header inside placeholders: the
    title is the element of a field, the header stands below the score
    value of a section. *)
Definition covered_template : soup :=
  [Tag "html" []
     [Tag "head" []
        [Tag "title" [("id", AStr "peg")] [Text "Stock Details"]];
      Tag "body" []
        [Tag "div" [("id", AStr "score-val-growth")]
           [Tag "span" [("id", AStr "stock-symbol-header")] [Text "-"]]]]].

(** A test that looks at the name and the [id] of an element only. *)
Definition id_only (s : selector) : Prop :=
  forall name a a',
    attr_get a "id" = attr_get a' "id" -> s name a = s name a'.

(** What a search for the first element of a kind comes to when the
    elements around it matter: there is no such element; or the first
    one stands clear, and these are its children; or the first one is,
    or lies inside, an element of the kind to keep away from. *)
Inductive view :=
| Missing
| Clear (kids : list node)
| Covered.

Section Views.

(** The elements looked for; the elements that must not be around the
    one found, nor be it; the elements that only must not be it. *)
Variables sel bad bad_here : selector.

Fixpoint view_node (n : node) : view :=
  match n with
  | Text _ => Missing
  | Tag name a kids =>
      if sel name a then
        if bad name a || bad_here name a then Covered else Clear kids
      else
        match
          (fix go (l : list node) : view :=
             match l with
             | [] => Missing
             | k :: l' =>
                 match view_node k with
                 | Missing => go l'
                 | v => v
                 end
             end) kids
        with
        | Clear ks => if bad name a then Covered else Clear ks
        | v => v
        end
  end.

Fixpoint view_of (l : list node) : view :=
  match l with
  | [] => Missing
  | k :: l' =>
      match view_node k with
      | Missing => view_of l'
      | v => v
      end
  end.

End Views.

Definition is_text (n : node) : bool :=
  match n with
  | Text _ => true
  | Tag _ _ _ => false
  end.

(** One view holds on in another: it was [Covered], or they are the
    same, or both are [Clear] and the children of the first were not
    text alone. *)
Definition holds_on (v w : view) : Prop :=
  v = Covered \/ v = w
  \/ exists ks ks', v = Clear ks /\ w = Clear ks' /\ forallb is_text ks = false.

(** What a mutation must do to the node it meets for the view of the
    document to hold on: leave the node as it is, or meet an element
    and let its view hold on. *)
Definition gentle (sel bad bad_here : selector) (f : node -> node) (m : node)
  : Prop :=
  f m = m
  \/ (is_text m = false
      /\ holds_on (view_node sel bad bad_here m)
           (view_node sel bad bad_here (f m))).

(** Name and [id] of the element at a place. *)
Definition tag_at (q : path) (l : list node)
  : option (string * option attr_value) :=
  match get_at q l with
  | Some (Tag name a _) => Some (name, attr_get a "id")
  | _ => None
  end.

(** A template with the title and the symbol header next to a section
    with its chip heading, a scorecard and a metric placeholder. *)
Definition scored_template : soup :=
  [Tag "html" []
     [Tag "head" [] [Tag "title" [] [Text "Stock Details"]];
      Tag "body" []
        [Tag "h1" []
           [Text "Stock ";
            Tag "span" [("id", AStr "stock-symbol-header")] [Text "-"]];
         Tag "div" [("id", AStr "card-valuation"); ("class", AList ["card"])]
           [Tag "span" [("id", AStr "score-val-valuation")] [];
            Tag "span" [("id", AStr "score-label-valuation")] []];
         Tag "section" [("id", AStr "valuation")]
           [Tag "h2" [] [Text "Valuation"];
            Tag "span" [("id", AStr "peg")] [];
            Tag "span" [("id", AStr "peg_median")] []]]]].
(** ** Facts about binary64 comparisons *)

Section FloatOrder.

Lemma SFcompare_antisym (x y : spec_float) :
  SFcompare y x = option_map CompOpp (SFcompare x y).
Proof.
  destruct x as [sx|sx| |sx mx ex], y as [sy|sy| |sy my ey]; simpl;
    try reflexivity;
    try (destruct sx; reflexivity); try (destruct sy; reflexivity);
    try (destruct sx, sy; reflexivity).
  destruct sx, sy; simpl; try reflexivity;
    rewrite (Z.compare_antisym ex ey);
    destruct (ex ?= ey)%Z; simpl; try reflexivity;
    rewrite (Pos.compare_cont_antisym mx my Eq); reflexivity.
Qed.

Lemma ltb_true_leb_false (x y : float) :
  (x <? y)%float = true -> (y <=? x)%float = false.
Proof.
  rewrite ltb_spec, leb_spec. unfold SFltb, SFleb.
  rewrite (SFcompare_antisym (Prim2SF x) (Prim2SF y)).
  destruct (SFcompare (Prim2SF x) (Prim2SF y)) as [[]|]; simpl; congruence.
Qed.

Lemma leb_true_ltb_false (x y : float) :
  (y <=? x)%float = true -> (x <? y)%float = false.
Proof.
  intros H. destruct (x <? y)%float eqn:E; [|reflexivity].
  apply ltb_true_leb_false in E. congruence.
Qed.

Lemma SFcompare_refl (x : spec_float) :
  x <> S754_nan -> SFcompare x x = Some Eq.
Proof.
  destruct x as [s|s| |s m e]; simpl; intros H; try congruence.
  - destruct s; reflexivity.
  - rewrite Z.compare_refl.
    assert (Hm : Pos.compare_cont Eq m m = Eq) by apply Pos.compare_refl.
    rewrite Hm. destruct s; reflexivity.
Qed.

Lemma isnan_false_spec (x : float) :
  isnan x = false <-> Prim2SF x <> S754_nan.
Proof.
  unfold isnan, is_nan. rewrite eqb_spec. unfold SFeqb. split.
  - intros H E. rewrite E in H. simpl in H. discriminate.
  - intros H. rewrite (SFcompare_refl _ H). reflexivity.
Qed.

Lemma SFcompare_some (x y : spec_float) :
  x <> S754_nan -> y <> S754_nan -> exists c, SFcompare x y = Some c.
Proof.
  destruct x, y; simpl; intros; try congruence; eauto.
Qed.

(** On numbers that are not NaN the order is total. *)
Lemma ltb_false_leb_true (x y : float) :
  isnan x = false -> isnan y = false ->
  (x <? y)%float = false -> (y <=? x)%float = true.
Proof.
  rewrite !isnan_false_spec. intros Hx Hy.
  rewrite ltb_spec, leb_spec. unfold SFltb, SFleb.
  rewrite (SFcompare_antisym (Prim2SF x) (Prim2SF y)).
  destruct (SFcompare_some _ _ Hx Hy) as [c ->].
  destruct c; simpl; congruence.
Qed.

Lemma ltb_asym (x y : float) :
  (x <? y)%float = true -> (y <? x)%float = false.
Proof.
  rewrite !ltb_spec. unfold SFltb.
  rewrite (SFcompare_antisym (Prim2SF x) (Prim2SF y)).
  destruct (SFcompare (Prim2SF x) (Prim2SF y)) as [[]|]; simpl; congruence.
Qed.

Lemma eqb_true_ltb_false (x y : float) :
  (x =? y)%float = true ->
  (x <? y)%float = false /\ (y <? x)%float = false.
Proof.
  rewrite eqb_spec, !ltb_spec. unfold SFeqb, SFltb.
  rewrite (SFcompare_antisym (Prim2SF x) (Prim2SF y)).
  destruct (SFcompare (Prim2SF x) (Prim2SF y)) as [[]|]; simpl;
    intros; split; congruence.
Qed.

Lemma SFleb_trans (x y z : spec_float) :
  SFleb x y = true -> SFleb y z = true -> SFleb x z = true.
Proof.
  unfold SFleb.
  destruct x as [sx|sx| |sx mx ex], y as [sy|sy| |sy my ey],
    z as [sz|sz| |sz mz ez]; simpl;
    try discriminate; try reflexivity;
    try (destruct sx; simpl; try discriminate; try reflexivity);
    try (destruct sy; simpl; try discriminate; try reflexivity);
    try (destruct sz; simpl; try discriminate; try reflexivity).
  all: change (Pos.compare_cont Eq mx my) with (Pos.compare mx my);
    change (Pos.compare_cont Eq my mz) with (Pos.compare my mz);
    change (Pos.compare_cont Eq mx mz) with (Pos.compare mx mz).
  all: destruct (Z.compare_spec ex ey), (Z.compare_spec ey ez),
         (Z.compare_spec ex ez); try lia; simpl;
       try discriminate; try reflexivity;
       destruct (Pos.compare_spec mx my), (Pos.compare_spec my mz),
         (Pos.compare_spec mx mz); try lia; simpl;
       try discriminate; try reflexivity.
Qed.

Lemma fle_trans (x y z : float) :
  fle x y = true -> fle y z = true -> fle x z = true.
Proof. unfold fle. rewrite !leb_spec. apply SFleb_trans. Qed.

Lemma flt_fle (x y : float) : flt x y = true -> fle x y = true.
Proof.
  unfold flt, fle. rewrite ltb_spec, leb_spec. unfold SFltb, SFleb.
  destruct (SFcompare (Prim2SF x) (Prim2SF y)) as [[]|]; congruence.
Qed.

End FloatOrder.

(** ** Band and threshold classification *)

(** The band branch of [get_comparison_indicator] as the chain of tests
    it runs, the first test that holds deciding. *)
Lemma band_cascade (f : string) (v m : float) :
  threshold_indicator f = None ->
  isnan v = false -> isnan m = false ->
  fge (abs m) 1e-12%float = true ->
  let upper := (m * (1 + 0.15))%float in
  let lower := (m * (1 - 0.15))%float in
  css_class (get_comparison_indicator (Some v) (Some m) f)
  = (if str_in f Config.HIGHER_IS_BETTER then
       if fge v upper then "better"
       else if fle v lower then "worse" else "equal"
     else if str_in f Config.LOWER_IS_BETTER then
       if fle v lower then "better"
       else if fge v upper then "worse" else "equal"
     else "equal").
Proof.
  intros Hband Hv Hm Hbig upper lower.
  apply leb_true_ltb_false in Hbig.
  unfold get_comparison_indicator. rewrite Hband.
  rewrite Hv, Hm. simpl orb. cbv iota.
  unfold flt at 1. unfold eps. rewrite Hbig.
  fold upper. fold lower.
  change (m * (1 + Config.MEDIAN_MARGIN_OF_SAFETY))%float with upper.
  change (m * (1 - Config.MEDIAN_MARGIN_OF_SAFETY))%float with lower.
  destruct (str_in f Config.HIGHER_IS_BETTER).
  - destruct (fge v upper); [reflexivity|].
    destruct (fle v lower); reflexivity.
  - destruct (str_in f Config.LOWER_IS_BETTER); [|reflexivity].
    destruct (fle v lower); [reflexivity|].
    destruct (fge v upper); reflexivity.
Qed.




(** The identifiers that carry a threshold rule. *)
Lemma threshold_indicator_fields (f : string) :
  threshold_indicator f <> None <->
  In f ["current_ratio"; "negative_eps_count_5y"; "eps_growth_5y_total";
        "pe_times_pb"].
Proof.
  unfold threshold_indicator. simpl.
  destruct (String.eqb_spec f "current_ratio") as [->|H1];
    [split; [auto | discriminate]|].
  destruct (String.eqb_spec f "negative_eps_count_5y") as [->|H2];
    [split; [auto | discriminate]|].
  destruct (String.eqb_spec f "eps_growth_5y_total") as [->|H3];
    [split; [auto | discriminate]|].
  destruct (String.eqb_spec f "pe_times_pb") as [->|H4];
    [split; [auto 6 | discriminate]|].
  split; [congruence|].
  intros [E|[E|[E|[E|[]]]]]; symmetry in E; contradiction.
Qed.

Lemma threshold_indicator_rules :
  threshold_indicator "current_ratio" = Some _rule_current_ratio
  /\ threshold_indicator "negative_eps_count_5y" = Some _rule_negative_eps
  /\ threshold_indicator "eps_growth_5y_total" = Some _rule_eps_growth
  /\ threshold_indicator "pe_times_pb" = Some _rule_pe_times_pb.
Proof. repeat split. Qed.

(** Unfolds the indicator of a threshold field to its rule. *)
Ltac threshold_rule :=
  unfold get_comparison_indicator;
  destruct threshold_indicator_rules as (Hr1 & Hr2 & Hr3 & Hr4);
  rewrite ?Hr1, ?Hr2, ?Hr3, ?Hr4; clear Hr1 Hr2 Hr3 Hr4;
  unfold _rule_current_ratio, _rule_negative_eps, _rule_eps_growth,
    _rule_pe_times_pb.

(** C2. For the four threshold fields the indicator is the threshold
    rule applied to the value alone: the result is the same for every
    median argument; [current_ratio] is better iff [v >= 1.5],
    [negative_eps_count_5y] iff [v == 0], [eps_growth_5y_total] iff
    [v > 1], [pe_times_pb] iff [v < 30], and worse otherwise; an absent
    value (None or NaN) is equal. *)
Theorem threshold_rules_ignore_median (f : string) (v m m' : option float) :
  In f ["current_ratio"; "negative_eps_count_5y"; "eps_growth_5y_total";
        "pe_times_pb"] ->
  let ind g := css_class (get_comparison_indicator v m g) in
  get_comparison_indicator v m f = get_comparison_indicator v m' f
  /\ (forall x, v = Some x -> isnan x = false ->
       ind "current_ratio" = (if fge x 1.5%float then "better" else "worse")
       /\ ind "negative_eps_count_5y"
          = (if feq x 0%float then "better" else "worse")
       /\ ind "eps_growth_5y_total"
          = (if fgt x 1%float then "better" else "worse")
       /\ ind "pe_times_pb" = (if flt x 30%float then "better" else "worse"))
  /\ (is_missing v = true -> ind f = "equal").
Proof.
  intros Hf ind. split; [|split].
  - simpl in Hf.
    destruct Hf as [<-|[<-|[<-|[<-|[]]]]]; reflexivity.
  - intros x -> Hx. subst ind. cbv beta.
    repeat split; threshold_rule; rewrite Hx.
    + destruct (fge x 1.5%float); reflexivity.
    + destruct (feq x 0%float); reflexivity.
    + destruct (fgt x 1%float); reflexivity.
    + destruct (flt x 30%float); reflexivity.
  - intros Hmiss. subst ind. cbv beta. simpl in Hf.
    destruct v as [x|]; simpl in Hmiss;
      destruct Hf as [<-|[<-|[<-|[<-|[]]]]];
      threshold_rule; try rewrite Hmiss; reflexivity.
Qed.

Lemma threshold_rules_ignore_median_witness :
  get_comparison_indicator (Some 1.5%float) (Some 100%float) "current_ratio"
  = get_comparison_indicator (Some 1.5%float) None "current_ratio"
  /\ css_class
       (get_comparison_indicator (Some 1.5%float) (Some 100%float)
          "current_ratio") = "better"
  /\ css_class
       (get_comparison_indicator (Some 1.49%float) (Some 0.5%float)
          "current_ratio") = "worse".
Proof.
  split; [|split].
  - apply (threshold_rules_ignore_median "current_ratio"
             (Some 1.5%float) (Some 100%float) None).
    simpl; auto.
  - apply (proj1 (proj1 (proj2 (threshold_rules_ignore_median "current_ratio"
             (Some 1.5%float) (Some 100%float) None
             (or_introl eq_refl))) 1.5%float eq_refl eq_refl)).
  - apply (proj1 (proj1 (proj2 (threshold_rules_ignore_median "current_ratio"
             (Some 1.49%float) (Some 0.5%float) None
             (or_introl eq_refl))) 1.49%float eq_refl eq_refl)).
Defined.

(** C5. A band-based field with a present value [v] and a present
    median [m], [|m| < 1e-12], is compared with [m] itself, strictly:
    for a higher-is-better field [v > m] is better, [v < m] is worse and
    [v == m] is equal; for a lower-is-better field [v < m] is better,
    [v > m] is worse and [v == m] is equal; any other field is equal. *)
Theorem near_zero_median_comparison (f : string) (v m : float) :
  threshold_indicator f = None ->
  is_missing (Some v) = false ->
  is_missing (Some m) = false ->
  flt (abs m) 1e-12%float = true ->
  let res := css_class (get_comparison_indicator (Some v) (Some m) f) in
  (str_in f Config.HIGHER_IS_BETTER = true ->
     (fgt v m = true -> res = "better")
     /\ (flt v m = true -> res = "worse")
     /\ (feq v m = true -> res = "equal"))
  /\ (str_in f Config.HIGHER_IS_BETTER = false ->
      str_in f Config.LOWER_IS_BETTER = true ->
     (flt v m = true -> res = "better")
     /\ (fgt v m = true -> res = "worse")
     /\ (feq v m = true -> res = "equal"))
  /\ (str_in f Config.HIGHER_IS_BETTER = false ->
      str_in f Config.LOWER_IS_BETTER = false -> res = "equal")
  /\ (fgt v m = true \/ flt v m = true \/ feq v m = true).
Proof.
  intros Hband Hv Hm Hsmall res. simpl in Hv, Hm. subst res.
  unfold get_comparison_indicator. rewrite Hband, Hv, Hm.
  simpl orb. cbv iota. unfold eps. rewrite Hsmall.
  unfold fgt, flt, feq.
  split; [|split; [|split]].
  - intros ->. repeat split.
    + intros ->. reflexivity.
    + intros H. rewrite (ltb_asym _ _ H), H. reflexivity.
    + intros H. destruct (eqb_true_ltb_false _ _ H) as [-> ->]. reflexivity.
  - intros -> ->. repeat split.
    + intros ->. reflexivity.
    + intros H. rewrite (ltb_asym _ _ H), H. reflexivity.
    + intros H. destruct (eqb_true_ltb_false _ _ H) as [-> ->]. reflexivity.
  - intros -> ->. reflexivity.
  - destruct (m <? v)%float eqn:E1; [auto|].
    destruct (v <? m)%float eqn:E2; [auto|].
    right; right.
    pose proof (ltb_false_leb_true _ _ Hm Hv E1) as L1.
    pose proof (ltb_false_leb_true _ _ Hv Hm E2) as L2.
    revert L1 L2. rewrite eqb_spec, !leb_spec. unfold SFleb, SFeqb.
    rewrite (SFcompare_antisym (Prim2SF v) (Prim2SF m)).
    destruct (SFcompare (Prim2SF v) (Prim2SF m)) as [[]|]; simpl; congruence.
Qed.

Lemma near_zero_median_comparison_witness :
  css_class
    (get_comparison_indicator (Some 0.5%float) (Some 0%float) "fcf_yield")
  = "better".
Proof.
  apply (proj1 (proj1 (near_zero_median_comparison "fcf_yield" 0.5%float
                         0%float eq_refl eq_refl eq_refl eq_refl) eq_refl)).
  reflexivity.
Defined.

(** ** Peer median *)

Section Median.

Let present (x : float) : Prop := isnan x = false.
Let le (x y : float) : Prop := fle x y = true.

Lemma clean_values_filter (values : list (option float)) :
  map Some (clean_values values)
  = filter (fun o => negb (is_missing o)) values.
Proof.
  induction values as [|[v|] rest IH]; simpl; [reflexivity| |exact IH].
  destruct (isnan v); simpl; [exact IH | now rewrite IH].
Qed.

Lemma clean_values_present (values : list (option float)) :
  Forall present (clean_values values).
Proof.
  induction values as [|[v|] rest IH]; simpl; auto.
  destruct (isnan v) eqn:E; auto.
Qed.

Lemma insert_sorted_perm (x : float) (l : list float) :
  Permutation (x :: l) (insert_sorted x l).
Proof.
  induction l as [|y l IH]; simpl; [reflexivity|].
  destruct (flt x y); [reflexivity|].
  rewrite perm_swap. now apply perm_skip.
Qed.

Lemma insert_sorted_Forall (P : float -> Prop) (x : float) (l : list float) :
  P x -> Forall P l -> Forall P (insert_sorted x l).
Proof.
  intros Hx Hl.
  apply (Permutation_Forall (insert_sorted_perm x l)). now constructor.
Qed.

Lemma insert_sorted_sorted (x : float) (l : list float) :
  present x -> Forall present l ->
  StronglySorted le l -> StronglySorted le (insert_sorted x l).
Proof.
  intros Hx Hl Hs. induction Hs as [|y l Hs IH Hy]; simpl.
  - repeat constructor.
  - inversion Hl as [|? ? Py Pl]; subst.
    destruct (flt x y) eqn:E.
    + constructor; [now constructor|].
      apply flt_fle in E. constructor; [exact E|].
      eapply Forall_impl; [|exact Hy].
      intros z Hz. exact (fle_trans _ _ _ E Hz).
    + constructor; [now apply IH|].
      apply insert_sorted_Forall; [|exact Hy].
      exact (ltb_false_leb_true _ _ Hx Py E).
Qed.

Lemma sort_from_perm (l acc : list float) :
  Permutation (acc ++ l)
    (fold_left (fun acc x => insert_sorted x acc) l acc).
Proof.
  revert acc. induction l as [|x l IH]; intros acc; simpl.
  - now rewrite app_nil_r.
  - rewrite <- IH, <- insert_sorted_perm. simpl.
    symmetry. apply Permutation_middle.
Qed.

Lemma sort_from_sorted (l acc : list float) :
  Forall present l -> Forall present acc -> StronglySorted le acc ->
  StronglySorted le (fold_left (fun acc x => insert_sorted x acc) l acc).
Proof.
  revert acc. induction l as [|x l IH]; intros acc Hl Ha Hs; simpl;
    [exact Hs|].
  inversion Hl; subst. apply IH; auto.
  - now apply insert_sorted_Forall.
  - now apply insert_sorted_sorted.
Qed.

Lemma sort_perm (l : list float) : Permutation l (sort l).
Proof. exact (sort_from_perm l []). Qed.

Lemma sort_sorted (l : list float) :
  Forall present l -> StronglySorted le (sort l).
Proof. intros H. apply sort_from_sorted; auto; constructor. Qed.

Lemma median_of_sorted (values : list (option float)) :
  calculate_median values
  = let s := sort (clean_values values) in
    match s with
    | [] => None
    | _ =>
        if Nat.even (List.length s)
        then Some ((nth (List.length s / 2 - 1) s 0
                    + nth (List.length s / 2) s 0) / 2)%float
        else Some (nth (List.length s / 2) s 0%float)
    end.
Proof.
  unfold calculate_median. cbv zeta.
  destruct (sort (clean_values values)) as [|a s]; [reflexivity|].
  set (n := List.length (a :: s)).
  replace (n mod 2 =? 0)%nat with (Nat.even n); [reflexivity|].
  destruct (Nat.even n) eqn:E; symmetry.
  - apply Nat.even_spec in E. destruct E as [k ->].
    apply Nat.eqb_eq. rewrite Nat.mul_comm. apply Nat.Div0.mod_mul.
  - apply Nat.eqb_neq.
    assert (O : Nat.odd n = true) by (now rewrite <- Nat.negb_even, E).
    apply Nat.odd_spec in O. destruct O as [k ->].
    rewrite Nat.add_comm, Nat.mul_comm, Nat.Div0.mod_add. discriminate.
Qed.

End Median.

(** C4. [calculate_median] drops the absent entries (None and NaN),
    sorts what remains in ascending order, and returns the middle
    element of an odd count, the mean of the two middle elements of an
    even count, and None when nothing remains. *)
Theorem calculate_median_spec (values : list (option float)) :
  let kept := clean_values values in
  let s := sort kept in
  map Some kept = filter (fun o => negb (is_missing o)) values
  /\ Permutation kept s
  /\ StronglySorted (fun x y => fle x y = true) s
  /\ (s = [] -> calculate_median values = None)
  /\ (forall k, List.length s = (2 * k + 1)%nat ->
       calculate_median values = Some (nth k s 0%float))
  /\ (forall k, List.length s = (2 * k + 2)%nat ->
       calculate_median values
       = Some ((nth k s 0 + nth (k + 1) s 0) / 2)%float).
Proof.
  intros kept s.
  split; [apply clean_values_filter|].
  split; [apply sort_perm|].
  split; [apply sort_sorted, clean_values_present|].
  pose proof (median_of_sorted values) as Hm. cbv zeta in Hm.
  fold kept in Hm. fold s in Hm. rewrite Hm. clear Hm. clearbody s.
  split; [intros ->; reflexivity|].
  split; intros k Hk; rewrite Hk.
  - destruct s as [|a s']; [simpl in Hk; lia|].
    replace (Nat.even (2 * k + 1)) with false
      by (symmetry; rewrite Nat.add_1_r, Nat.even_succ, <- Nat.negb_even;
          now rewrite Nat.even_mul).
    replace ((2 * k + 1) / 2)%nat with k; [reflexivity|].
    apply (Nat.div_unique _ 2 k 1); lia.
  - destruct s as [|a s']; [simpl in Hk; lia|].
    replace (Nat.even (2 * k + 2)) with true
      by (symmetry; apply Nat.even_spec; exists (k + 1)%nat; lia).
    replace ((2 * k + 2) / 2)%nat with (k + 1)%nat
      by (apply (Nat.div_unique _ 2 (k + 1) 0); lia).
    replace (k + 1 - 1)%nat with k by lia. reflexivity.
Qed.

Lemma calculate_median_spec_witness :
  calculate_median [Some 3%float; None; Some 1%float; Some nan; Some 2%float]
  = Some 2%float
  /\ calculate_median [Some 4%float; Some 1%float; None; Some 2%float;
                       Some 8%float] = Some 3%float
  /\ calculate_median [None; Some nan] = None.
Proof.
  split; [|split].
  - exact (proj1 (proj2 (proj2 (proj2 (proj2
             (calculate_median_spec
                [Some 3%float; None; Some 1%float; Some nan; Some 2%float])))))
             1%nat eq_refl).
  - exact (proj2 (proj2 (proj2 (proj2 (proj2
             (calculate_median_spec
                [Some 4%float; Some 1%float; None; Some 2%float;
                 Some 8%float])))))
             1%nat eq_refl).
  - exact (proj1 (proj2 (proj2 (proj2
             (calculate_median_spec [None; Some nan])))) eq_refl).
Defined.

(** ** Section scores *)

Lemma score_step_counts (sd md : dict) (above total : Z) (f : string) :
  score_step sd md (above, total) f
  = ((above + if counted sd md f && rated_better sd md f then 1 else 0)%Z,
     (total + if counted sd md f then 1 else 0)%Z).
Proof.
  unfold score_step, counted, rated_better.
  destruct (negb (is_none (threshold_indicator f))).
  - destruct (is_none (dict_get sd f)); simpl;
      [now rewrite !Z.add_0_r|].
    destruct (String.eqb _ "better"); [reflexivity | now rewrite Z.add_0_r].
  - destruct (is_none (dict_get sd f) || is_none (dict_get md f)); simpl;
      [now rewrite !Z.add_0_r|].
    destruct (String.eqb _ "better"); [reflexivity | now rewrite Z.add_0_r].
Qed.

Lemma score_loop_counts (sd md : dict) (ids : list string) (above total : Z) :
  fold_left (score_step sd md) ids (above, total)
  = ((above + count_of (fun f => counted sd md f && rated_better sd md f) ids)%Z,
     (total + count_of (counted sd md) ids)%Z).
Proof.
  unfold count_of. revert above total.
  induction ids as [|f ids IH]; intros above total; cbn [fold_left filter].
  - simpl. now rewrite !Z.add_0_r.
  - rewrite score_step_counts, IH.
    destruct (counted sd md f); destruct (rated_better sd md f);
      cbn [andb List.length]; f_equal; lia.
Qed.

(** The loop counts in [total] the fields whose stored value (and
    stored median, without a threshold rule) is not [None], and in
    [above] those of them rated better. *)
Lemma calculate_section_score_counts (ids : list string) (sd md : dict) :
  calculate_section_score ids sd md
  = (count_of (fun f => counted sd md f && rated_better sd md f) ids,
     count_of (counted sd md) ids).
Proof. unfold calculate_section_score. now rewrite score_loop_counts. Qed.

(** A field rated better has a value that is there and is a number. *)
Lemma rated_better_resolvable (sd md : dict) (f : string) :
  rated_better sd md f = true -> resolvable sd md f = true.
Proof.
  unfold rated_better, resolvable, get_comparison_indicator.
  destruct (threshold_indicator f) as [rule|] eqn:E; simpl.
  - assert (Hf : In f ["current_ratio"; "negative_eps_count_5y";
                       "eps_growth_5y_total"; "pe_times_pb"])
      by (apply threshold_indicator_fields; congruence).
    destruct threshold_indicator_rules as (H1 & H2 & H3 & H4).
    simpl in Hf.
    destruct Hf as [<-|[<-|[<-|[<-|[]]]]];
      rewrite ?H1, ?H2, ?H3, ?H4 in E; injection E as <-;
      unfold _rule_current_ratio, _rule_negative_eps, _rule_eps_growth,
        _rule_pe_times_pb;
      (destruct (dict_get sd _) as [x|]; simpl; [|discriminate]);
      destruct (isnan x); simpl; congruence.
  - destruct (dict_get sd f) as [v|]; [|discriminate].
    destruct (dict_get md f) as [m|]; [|discriminate]. simpl.
    destruct (isnan v); [discriminate|].
    destruct (isnan m); [discriminate|]. reflexivity.
Qed.

Lemma resolvable_counted (sd md : dict) (f : string) :
  resolvable sd md f = true -> counted sd md f = true.
Proof.
  unfold resolvable, counted.
  destruct (negb (is_none (threshold_indicator f)));
    destruct (dict_get sd f) as [v|]; simpl; try discriminate; auto.
  destruct (dict_get md f) as [m|]; simpl; auto.
  now rewrite andb_false_r.
Qed.

Lemma filter_same {A} (p q : A -> bool) (l : list A) :
  Forall (fun x => p x = q x) l -> filter p l = filter q l.
Proof.
  induction 1 as [|x l Hx _ IH]; simpl; [reflexivity|].
  now rewrite Hx, IH.
Qed.

(** On a record and medians that store no NaN for the fields of the
    section, the loop counts exactly the fields whose comparison can be
    resolved, and in [above] exactly the fields rated better. *)
Lemma calculate_section_score_resolvable (ids : list string) (sd md : dict) :
  Forall (fun f => counted sd md f = resolvable sd md f) ids ->
  calculate_section_score ids sd md
  = (count_of (rated_better sd md) ids, count_of (resolvable sd md) ids).
Proof.
  intros H. rewrite calculate_section_score_counts. unfold count_of.
  f_equal; f_equal; f_equal; apply filter_same.
  - apply Forall_forall. intros f _.
    destruct (rated_better sd md f) eqn:B; [|apply andb_false_r].
    now rewrite (resolvable_counted _ _ _ (rated_better_resolvable _ _ _ B)).
  - exact H.
Qed.

(** The tier of a pair of counts. *)
Lemma get_score_chip_class_tiers (above total : Z) :
  (total = 0%Z -> get_score_chip_class above total = "mixed")
  /\ (total <> 0%Z ->
      let ratio := int_truediv above total in
      (fge ratio 0.7%float = true -> get_score_chip_class above total = "good")
      /\ (fge ratio 0.7%float = false -> fge ratio 0.4%float = true ->
          get_score_chip_class above total = "mixed")
      /\ (fge ratio 0.7%float = false -> fge ratio 0.4%float = false ->
          get_score_chip_class above total = "poor")).
Proof.
  unfold get_score_chip_class. split.
  - intros ->. reflexivity.
  - intros H. apply Z.eqb_neq in H. rewrite H. cbv zeta.
    repeat split.
    + intros ->. reflexivity.
    + intros -> ->. reflexivity.
    + intros -> ->. reflexivity.
Qed.

Lemma get_score_chip_class_examples :
  get_score_chip_class 7 10 = "good"
  /\ get_score_chip_class 4 10 = "mixed"
  /\ get_score_chip_class 3 10 = "poor"
  /\ get_score_chip_class 0 0 = "mixed".
Proof. repeat split. Qed.

(** For the counts a section can have (up to a hundred fields), the
    binary64 ratio falls in the tier of the exact ratio. *)
Lemma tier_matches_exact_ratio (above total : Z) :
  (0 <= above <= total)%Z -> (total <= 100)%Z ->
  get_score_chip_class above total = spec_tier above total.
Proof.
  intros Ha Ht.
  assert (Hall :
    forallb (fun t =>
      forallb (fun a =>
        String.eqb (get_score_chip_class (Z.of_nat a) (Z.of_nat t))
                   (spec_tier (Z.of_nat a) (Z.of_nat t)))
        (seq 0 (S t)))
      (seq 0 101) = true) by (vm_compute; reflexivity).
  rewrite forallb_forall in Hall.
  specialize (Hall (Z.to_nat total)).
  rewrite forallb_forall in Hall.
  rewrite <- (Z2Nat.id above), <- (Z2Nat.id total) by lia.
  apply String.eqb_eq, Hall; apply in_seq; lia.
Qed.

(** C3. A record that stores a NaN for a field is counted in [total]:
    [calculate_section_score] tests the stored value (and the stored
    median) against [None] only, while the indicator of a NaN is the
    unknown "equal".  With NaN stored for [current_ratio] the section
    scores 0/1 and its tier is "poor"; with the value absent as [None]
    it scores 0/0 and its tier is "mixed".  A NaN median, which
    [calculate_median] returns for the values inf and -inf, does the
    same to a band-based field. *)
Theorem section_score_counts_nan_field :
  let sd := [("current_ratio", Some nan)] in
  is_missing (dict_get sd "current_ratio") = true
  /\ resolvable sd [] "current_ratio" = false
  /\ calculate_section_score ["current_ratio"] sd [] = (0, 1)%Z
  /\ get_score_chip_class 0 1 = "poor"
  /\ calculate_section_score ["current_ratio"] [("current_ratio", None)] []
     = (0, 0)%Z
  /\ get_score_chip_class 0 0 = "mixed"
  /\ (let m := calculate_median [Some infinity; Some neg_infinity] in
      is_missing m = true
      /\ calculate_section_score ["peg"] [("peg", Some 1%float)] [("peg", m)]
         = (0, 1)%Z).
Proof. cbv zeta. repeat split. Qed.

(** C10. For the counts [calculate_section_score] returns, the chip
    class is one of "good", "mixed" and "poor", so the tier label is
    one of "Strong", "Mixed" and "Weak" and never "Neutral". *)
Theorem chip_class_is_a_tier (ids : list string) (sd md : dict) :
  let '(above, total) := calculate_section_score ids sd md in
  let chip_class := get_score_chip_class above total in
  (chip_class = "good" \/ chip_class = "mixed" \/ chip_class = "poor")
  /\ (score_label_text chip_class = "Strong"
      \/ score_label_text chip_class = "Mixed"
      \/ score_label_text chip_class = "Weak")
  /\ score_label_text chip_class <> "Neutral".
Proof.
  destruct (calculate_section_score ids sd md) as [above total].
  unfold get_score_chip_class.
  destruct (total =? 0)%Z; [cbv; intuition discriminate|].
  cbv zeta.
  destruct (fge (int_truediv above total) 0.7%float);
    [cbv; intuition discriminate|].
  destruct (fge (int_truediv above total) 0.4%float);
    cbv; intuition discriminate.
Qed.

(** ** Value formatting *)

Lemma append_empty_r (s : string) : s ++ "" = s.
Proof. induction s as [|c s IH]; simpl; [reflexivity | now rewrite IH]. Qed.

Lemma str_in_single (x y : string) : str_in x [y] = String.eqb x y.
Proof. unfold str_in. simpl. apply orb_false_r. Qed.

(** C6. [format_metric_value] gives every field a fixed format class
    and shows a present value by that class: a two-decimal ratio, the
    value times 100 with two decimals, an integer count, the value
    divided by 10^9 with the suffix B, or the grouped two-decimal
    default; an absent value (None or NaN) is shown as N/A whatever the
    class. *)
Theorem format_metric_value_by_class (value : option float) (f : string) :
  (is_missing value = true -> format_metric_value value f = "N/A")
  /\ (forall v, value = Some v -> is_missing value = false ->
      format_metric_value value f = spec_render (spec_format_class f) v).
Proof.
  split.
  - destruct value as [v|]; simpl; [|reflexivity]. now intros ->.
  - intros v -> Hv. simpl in Hv. unfold format_metric_value. rewrite Hv.
    unfold spec_format_class. rewrite !str_in_single.
    repeat match goal with
           | |- context [str_in f ?l] => destruct (str_in f l); [reflexivity|]
           | |- context [String.eqb f ?x] =>
               destruct (String.eqb f x); [try reflexivity|]
           end.
    + simpl. now rewrite append_empty_r.
    + reflexivity.
Qed.

Lemma format_metric_value_by_class_witness :
  format_metric_value (Some 0.1234%float) "fcf_yield" = "12.34%"
  /\ format_metric_value (Some 0.41%float) "rule_of_40" = "41.00"
  /\ format_metric_value (Some 1234567.891%float) "market_cap"
     = "1,234,567.89"
  /\ format_metric_value (Some nan) "peg" = "N/A".
Proof.
  refine (conj _ (conj _ (conj _ _))).
  - exact (proj2 (format_metric_value_by_class (Some 0.1234%float) "fcf_yield")
             _ eq_refl eq_refl).
  - exact (proj2 (format_metric_value_by_class (Some 0.41%float) "rule_of_40")
             _ eq_refl eq_refl).
  - exact (proj2 (format_metric_value_by_class (Some 1234567.891%float)
                    "market_cap") _ eq_refl eq_refl).
  - exact (proj1 (format_metric_value_by_class (Some nan) "peg") eq_refl).
Defined.

Lemma format_metric_value_examples :
  format_metric_value (Some 2.675%float) "peg" = "2.67"
  /\ format_metric_value (Some 3%float) "negative_eps_count_5y" = "3"
  /\ format_metric_value (Some 2.5e9%float)
       "final_earnings_for_10y_growth_10perc" = "2.50B"
  /\ format_metric_value (Some (-0.001)%float) "roic_over_wacc" = "-0.00"
  /\ format_metric_value (Some infinity) "peg" = "inf"
  /\ format_metric_value None "fcf_yield" = "N/A".
Proof. repeat split. Qed.

(** ** Cell coercion *)

Section LoaderFacts.

Variable float_of_str : string -> option float.

(** What [_to_float] returns where it returns. *)
Lemma to_float_returns :
  _to_float float_of_str PyNone = Return None
  /\ _to_float float_of_str PyOther = Return None
  /\ (forall b, exists x,
        _to_float float_of_str (PyBool b) = Return (Some x))
  /\ (forall x, isnan x = true ->
        _to_float float_of_str (PyFloat x) = Return None)
  /\ (forall x, isnan x = false ->
        _to_float float_of_str (PyFloat x) = Return (Some x))
  /\ (forall n x, float_of_int n = Some x ->
        _to_float float_of_str (PyInt n) = Return (Some x))
  /\ (forall s, strip s = "" ->
        _to_float float_of_str (PyStr s) = Return None)
  /\ (forall s, In (lower (strip s)) ["na"; "n/a"; "nan"; "null"] ->
        _to_float float_of_str (PyStr s) = Return None)
  /\ (forall s, strip s <> "" ->
        ~ In (lower (strip s)) ["na"; "n/a"; "nan"; "null"] ->
        _to_float float_of_str (PyStr s)
        = Return (float_of_str (strip s))).
Proof.
  refine (conj eq_refl (conj eq_refl (conj _ (conj _ (conj _ (conj _
            (conj _ (conj _ _)))))))).
  - intros b. eexists. reflexivity.
  - intros x H. simpl. now rewrite H.
  - intros x H. simpl. now rewrite H.
  - intros n x H. simpl. now rewrite H.
  - intros s H. simpl. now rewrite H.
  - intros s H. unfold _to_float.
    replace (str_in (lower (strip s)) ["na"; "n/a"; "nan"; "null"])
      with true; [now rewrite orb_true_r|].
    symmetry. apply existsb_exists. exists (lower (strip s)).
    split; [exact H | apply String.eqb_refl].
  - intros s Hne Hs. unfold _to_float.
    destruct (strip s) as [|c r] eqn:E; [congruence|].
    cbn [is_empty orb].
    destruct (str_in (lower (String c r)) ["na"; "n/a"; "nan"; "null"]) eqn:M.
    + exfalso. apply Hs. apply existsb_exists in M.
      destruct M as [y [Hy Hyy]]. apply String.eqb_eq in Hyy. now subst.
    + now destruct (float_of_str (String c r)).
Qed.

(** The only exception [_to_float] lets through is the overflow of
    the conversion of an [int]. *)
Lemma to_float_raises (value : py_value) (e : py_error) :
  _to_float float_of_str value = Raise e <->
  exists n, value = PyInt n /\ float_of_int n = None /\ e = OverflowError.
Proof.
  split.
  - destruct value as [|b|n|x|s|]; unfold _to_float; try discriminate.
    + destruct (float_of_int n) eqn:E; [discriminate|].
      intros [= <-]. eauto.
    + destruct (isnan x); discriminate.
    + destruct (is_empty (strip s) || str_in (lower (strip s)) _);
        [discriminate|].
      destruct (float_of_str (strip s)); discriminate.
  - intros (n & -> & H & ->). simpl. now rewrite H.
Qed.

Lemma to_float_sentinels :
  _to_float float_of_str (PyStr "  N/A ") = Return None
  /\ _to_float float_of_str (PyStr "NaN") = Return None
  /\ _to_float float_of_str (PyStr "null") = Return None
  /\ _to_float float_of_str (PyStr " nA") = Return None
  /\ _to_float float_of_str (PyStr "   ") = Return None
  /\ _to_float float_of_str (PyInt 42) = Return (Some 42%float)
  /\ _to_float float_of_str (PyFloat 1.5) = Return (Some 1.5%float)
  /\ _to_float float_of_str (PyFloat nan) = Return None.
Proof. repeat split. Qed.

(** C8. [_to_float] does not return for every numeric cell: the
    conversion [float(value)] of an [int] too large for a binary64
    raises OverflowError, which the function does not catch.  The cell
    [2 ** 1024] is one; the largest [int] that converts is
    [2 ** 1024 - 2 ** 970 - 1]. *)
Theorem to_float_int_overflow :
  _to_float float_of_str (PyInt (2 ^ 1024)) = Raise OverflowError
  /\ _to_float float_of_str (PyInt (- 2 ^ 1024)) = Raise OverflowError
  /\ _to_float float_of_str (PyInt (2 ^ 1024 - 2 ^ 970)) = Raise OverflowError
  /\ _to_float float_of_str (PyInt (2 ^ 1024 - 2 ^ 970 - 1))
     = Return (Some 1.7976931348623157e308%float).
Proof. repeat split; vm_compute; reflexivity. Qed.

End LoaderFacts.

(** ** The renderer and the store *)

Lemma for_each_frame {A B} (body : B -> A -> M B) (l : list A) :
  (forall b x st, snd (body b x st) = st) ->
  forall b st, snd (for_each l body b st) = st.
Proof.
  intros Hbody. induction l as [|x l IH]; intros b st; simpl; [reflexivity|].
  unfold bind. specialize (Hbody b x st).
  destruct (body b x st) as [b' st']. simpl in Hbody. subst st'.
  apply IH.
Qed.

Lemma render_soup_frame (doc : soup) (symbol : string) (sd md : ref)
  (asset_prefix : string) (st : Store) :
  snd (render_soup doc symbol sd md asset_prefix st) = st.
Proof.
  unfold render_soup, bind.
  match goal with
  | |- context [for_each Config.SECTION_FIELDS ?body ?d st] =>
      pose proof (for_each_frame body Config.SECTION_FIELDS) as H1;
      specialize (H1 (fun b x st0 =>
        ltac:(destruct x as [sid fids]; cbv [bind load ret];
              destruct (calculate_section_score fids (deref st0 sd)
                          (deref st0 md));
              reflexivity)) d st);
      destruct (for_each Config.SECTION_FIELDS body d st) as [d1 st1]
  end.
  simpl in H1. subst st1.
  apply for_each_frame. intros b x st0. reflexivity.
Qed.

Lemma for_each_agree {A B} (body : B -> A -> M B) (l : list A)
  (st st' : Store) :
  (forall b x, snd (body b x st) = st) ->
  (forall b x, snd (body b x st') = st') ->
  (forall b x, fst (body b x st') = fst (body b x st)) ->
  forall b, fst (for_each l body b st') = fst (for_each l body b st).
Proof.
  intros Hst Hst' Hfst. induction l as [|x l IH]; intros b; [reflexivity|].
  cbn [for_each]. unfold bind.
  specialize (Hst b x). specialize (Hst' b x). specialize (Hfst b x).
  destruct (body b x st) as [b1 st1]. destruct (body b x st') as [b2 st2].
  simpl in Hst, Hst', Hfst. subst. apply IH.
Qed.

(** The result of the merge depends on the store only through what
    the two dictionaries hold. *)
Lemma render_soup_agree (doc : soup) (symbol : string) (sd md : ref)
  (asset_prefix : string) (st st' : Store) :
  deref st' sd = deref st sd -> deref st' md = deref st md ->
  fst (render_soup doc symbol sd md asset_prefix st')
  = fst (render_soup doc symbol sd md asset_prefix st).
Proof.
  intros Hsd Hmd. unfold render_soup, bind.
  match goal with
  | |- context [for_each Config.SECTION_FIELDS ?body ?d st] =>
      assert (Hframe : forall s0 b x, snd (body b x s0) = s0)
        by (intros s0 b [sid fids]; cbv [bind load ret];
            destruct (calculate_section_score fids (deref s0 sd)
                        (deref s0 md)); reflexivity);
      assert (Hsame : forall b x, fst (body b x st') = fst (body b x st))
        by (intros b [sid fids]; cbv [bind load ret];
            rewrite Hsd, Hmd;
            destruct (calculate_section_score fids (deref st sd)
                        (deref st md)); reflexivity);
      pose proof (for_each_agree body Config.SECTION_FIELDS st st'
                    (Hframe st) (Hframe st') Hsame d) as H1;
      pose proof (for_each_frame body Config.SECTION_FIELDS
                    (fun b x s0 => Hframe s0 b x) d st) as F1;
      pose proof (for_each_frame body Config.SECTION_FIELDS
                    (fun b x s0 => Hframe s0 b x) d st') as F1';
      destruct (for_each Config.SECTION_FIELDS body d st) as [d1 st1];
      destruct (for_each Config.SECTION_FIELDS body d st') as [d1' st1']
  end.
  simpl in H1, F1, F1'. subst.
  apply for_each_agree; intros b x; cbv [bind get_item ret]; simpl;
    [reflexivity | reflexivity | now rewrite Hsd, Hmd].
Qed.

(** ** Searching and mutating the document *)

Section FindUpdate.

Variable p : selector.

Lemma find_node_tag (name : string) (a : attrs) (kids : list node) :
  find_node p (Tag name a kids)
  = if p name a then Some [] else find_from p kids 0.
Proof.
  cbn [find_node]. destruct (p name a); [reflexivity|].
  generalize 0%nat. induction kids as [|k l IH]; intros i; [reflexivity|].
  cbn [find_from]. destruct (find_node p k); [reflexivity | apply IH].
Qed.

Lemma get_at_cons (i : nat) (q : path) (l : list node) :
  get_at (i :: q) l
  = match nth_error l i with
    | Some n => get_in q n
    | None => None
    end.
Proof. destruct q; reflexivity. Qed.

Lemma update_at_cons (i : nat) (q : path) (f : node -> node) (l : list node) :
  update_at (i :: q) f l = update_nth i (update_in q f) l.
Proof.
  destruct q as [|j q]; [reflexivity|].
  cbn [update_at]. f_equal.
Qed.

(** What a successful search below a node promises. *)
Let found_in_node (n : node) : Prop :=
  forall q, find_node p n = Some q ->
  exists name a kids,
    get_in q n = Some (Tag name a kids)
    /\ p name a = true
    /\ (forall f, get_in q (update_in q f n) = Some (f (Tag name a kids)))
    /\ (forall f kids', f (Tag name a kids) = Tag name a kids' ->
        find_node p (update_in q f n) = Some q).

(** What a successful search in a forest promises; [i] is the index
    the numbering starts from. *)
Let found_in_forest (l : list node) : Prop :=
  forall i q, find_from p l i = Some q ->
  exists j q' name a kids,
    q = (i + j)%nat :: q'
    /\ get_at (j :: q') l = Some (Tag name a kids)
    /\ p name a = true
    /\ (forall f,
          get_at (j :: q') (update_at (j :: q') f l)
          = Some (f (Tag name a kids)))
    /\ (forall f kids', f (Tag name a kids) = Tag name a kids' ->
        forall i', find_from p (update_at (j :: q') f l) i'
                   = Some ((i' + j)%nat :: q')).

Lemma found_forest_of_nodes (l : list node) :
  Forall found_in_node l -> found_in_forest l.
Proof.
  induction 1 as [|k l Hk _ IH]; intros i q; cbn [find_from];
    [discriminate|].
  destruct (find_node p k) as [q0|] eqn:E.
  - intros [= <-]. destruct (Hk q0 E) as (name & a & kids & G & Hp & U & F).
    exists 0%nat, q0, name, a, kids.
    rewrite Nat.add_0_r, get_at_cons. simpl nth_error.
    repeat split; auto.
    + intros f. rewrite update_at_cons, get_at_cons. simpl. apply U.
    + intros f kids' Hf i'. rewrite update_at_cons. simpl.
      rewrite (F f kids' Hf). now rewrite Nat.add_0_r.
  - intros H. destruct (IH _ _ H) as (j & q' & name & a & kids & -> & G & Hp & U & F).
    exists (S j), q', name, a, kids.
    rewrite get_at_cons in *. simpl nth_error.
    repeat split; auto.
    + f_equal. lia.
    + intros f. specialize (U f).
      rewrite update_at_cons, get_at_cons in *. exact U.
    + intros f kids' Hf i'. specialize (F f kids' Hf (S i')).
      rewrite update_at_cons in *. simpl. rewrite E, F.
      f_equal. f_equal. lia.
Qed.

Lemma found_node (n : node) : found_in_node n.
Proof.
  induction n as [s|name a kids IH] using node_induction; intros q.
  - discriminate.
  - rewrite find_node_tag. destruct (p name a) eqn:Hp.
    + intros [= <-]. exists name, a, kids. cbn [get_in update_in].
      repeat split; auto.
      intros f kids' ->. rewrite find_node_tag. now rewrite Hp.
    + intros H.
      destruct (found_forest_of_nodes kids IH 0%nat q H)
        as (j & q' & name' & a' & kids' & -> & G & Hp' & U & F).
      exists name', a', kids'.
      cbn [get_in update_in children_of Nat.add]. repeat split; auto.
      intros f kids'' Hf. rewrite find_node_tag, Hp.
      apply (F f kids'' Hf 0%nat).
Qed.

(** A search that succeeds names an element the selector accepts;
    after a mutation of that element the place holds the mutated
    element, and when the mutation keeps name and attributes the same
    search finds the same place. *)
Lemma find_then_mutate (doc : soup) (q : path) :
  find p doc = Some q ->
  exists name a kids,
    get_at q doc = Some (Tag name a kids)
    /\ p name a = true
    /\ (forall f, get_at q (update_at q f doc) = Some (f (Tag name a kids)))
    /\ (forall f kids', f (Tag name a kids) = Tag name a kids' ->
        find p (update_at q f doc) = Some q).
Proof.
  intros H.
  assert (Hdoc : found_in_forest doc).
  { apply found_forest_of_nodes, Forall_forall. intros n _. apply found_node. }
  destruct (Hdoc 0%nat q H) as (j & q' & name & a & kids & -> & G & Hp & U & F).
  exists name, a, kids. cbn [Nat.add]. repeat split; auto.
  intros f kids' Hf. apply (F f kids' Hf 0%nat).
Qed.

End FindUpdate.

(** ** The title and the header through the render *)

Lemma holds_on_refl (v : view) : holds_on v v.
Proof. right. now left. Qed.

Lemma holds_on_trans (u v w : view) :
  holds_on u v -> holds_on v w -> holds_on u w.
Proof.
  intros [->|[->|(ks & ks' & -> & -> & T)]]; [now left | exact (fun H => H) |].
  intros [H|[<-|(ks1 & ks2 & [= <-] & -> & _)]]; [discriminate| |];
    right; right; eauto.
Qed.

(** A view of children that are text alone stays as it is. *)
Lemma holds_on_text (ks : list node) (w : view) :
  forallb is_text ks = true -> holds_on (Clear ks) w -> w = Clear ks.
Proof.
  intros T [H|[H|(ks1 & ks2 & [= <-] & _ & F)]];
    [discriminate | now symmetry | congruence].
Qed.

Lemma holds_on_clear (ks : list node) (w : view) :
  holds_on (Clear ks) w -> exists ks', w = Clear ks'.
Proof.
  intros [H|[H|(ks1 & ks2 & _ & -> & _)]]; [discriminate | eauto | eauto].
Qed.

Lemma attr_get_set_other (a : attrs) (k k' : string) (v : attr_value) :
  k <> k' -> attr_get (attr_set a k v) k' = attr_get a k'.
Proof.
  intros Hk. induction a as [|[k0 v0] a IH]; cbn [attr_set attr_get].
  - destruct (String.eqb_spec k' k); [congruence | reflexivity].
  - destruct (String.eqb_spec k k0) as [->|Hk0]; cbn [attr_get].
    + destruct (String.eqb_spec k' k0); [congruence | reflexivity].
    + now rewrite IH.
Qed.

Lemma id_only_named (t : string) : id_only (named t).
Proof. intros name a a' _. reflexivity. Qed.

Lemma id_only_has_id (x : string) : id_only (has_id x).
Proof. intros name a a' H. unfold has_id. now rewrite H. Qed.

Lemma id_only_rewritten : id_only has_rewritten_id.
Proof.
  intros name a a' H. unfold has_rewritten_id.
  induction rewritten_ids as [|x l IH]; [reflexivity|].
  cbn [existsb]. now rewrite IH, (id_only_has_id x name a a' H).
Qed.

Lemma id_only_or (s t : selector) :
  id_only s -> id_only t -> id_only (fun name a => s name a || t name a).
Proof. intros Hs Ht name a a' H. now rewrite (Hs _ _ _ H), (Ht _ _ _ H). Qed.

Lemma nth_error_update_nth {A} (g : A -> A) (l : list A) (i j : nat) :
  nth_error (update_nth i g l) j
  = if (i =? j)%nat then option_map g (nth_error l j) else nth_error l j.
Proof.
  revert i j. induction l as [|x l IH]; intros i j.
  - cbn [update_nth]. destruct i, j; cbn; try reflexivity;
      now destruct (i =? j)%nat.
  - destruct i as [|i], j as [|j]; cbn [update_nth nth_error Nat.eqb option_map];
      try reflexivity. apply IH.
Qed.

Lemma update_nth_same {A} (g : A -> A) (l : list A) (i : nat) :
  (forall x, nth_error l i = Some x -> g x = x) -> update_nth i g l = l.
Proof.
  revert i. induction l as [|x l IH]; intros i H; [now destruct i|].
  destruct i as [|i]; cbn [update_nth].
  - now rewrite (H x eq_refl).
  - f_equal. apply IH. exact H.
Qed.

(** A mutation that leaves the node at the place as it is leaves the
    document as it is, and so does one at a place that holds nothing. *)
Lemma update_at_same (f : node -> node) (q : path) (l : list node) :
  (forall m, get_at q l = Some m -> f m = m) -> update_at q f l = l.
Proof.
  revert l. induction q as [|i q IH]; intros l H; [reflexivity|].
  rewrite update_at_cons. apply update_nth_same. intros n Hn.
  rewrite get_at_cons, Hn in H.
  destruct q as [|j q]; [exact (H n eq_refl)|].
  cbn [update_in]. destruct n as [s|name a kids]; [reflexivity|].
  f_equal. apply IH. exact H.
Qed.

Section ViewFacts.

Variables sel bad bad_here : selector.


Lemma view_node_tag (name : string) (a : attrs) (kids : list node) :
  view_node sel bad bad_here (Tag name a kids)
  = if sel name a then
      if bad name a || bad_here name a then Covered else Clear kids
    else
      match view_of sel bad bad_here kids with
      | Clear ks => if bad name a then Covered else Clear ks
      | v => v
      end.
Proof.
  cbn [view_node]. destruct (sel name a); [reflexivity|].
  match goal with
  | |- match ?g kids with _ => _ end = _ =>
      assert (E : g kids = view_of sel bad bad_here kids);
      [|now rewrite E]
  end.
  induction kids as [|k l IH]; [reflexivity|].
  cbn [view_of]. now rewrite IH.
Qed.

Lemma view_of_cons (k : node) (l : list node) :
  view_of sel bad bad_here (k :: l)
  = match view_node sel bad bad_here k with
    | Missing => view_of sel bad bad_here l
    | v => v
    end.
Proof. reflexivity. Qed.

Lemma view_of_app (l1 l2 : list node) :
  view_of sel bad bad_here (l1 ++ l2)%list
  = match view_of sel bad bad_here l1 with
    | Missing => view_of sel bad bad_here l2
    | v => v
    end.
Proof.
  induction l1 as [|k l1 IH]; [reflexivity|].
  cbn [app]. rewrite !view_of_cons.
  destruct (view_node sel bad bad_here k); auto.
Qed.

Lemma view_text (ks : list node) : forallb is_text ks
  = true -> view_of sel bad bad_here ks = Missing.
Proof.
  induction ks as [|[s|name a kids] ks IH]; cbn [forallb is_text andb];
    [reflexivity | exact IH | discriminate].
Qed.

(** A change of one node of a forest shows in the view of the forest
    through the view of that node. *)
Lemma view_update_nth (g : node -> node) (i : nat) (l : list node) :
  (forall n, nth_error l i = Some n -> holds_on (view_node sel bad bad_here n)
    (view_node sel bad bad_here (g n))) ->
  holds_on (view_of sel bad bad_here l) (view_of sel bad bad_here
    (update_nth i g l)).
Proof.
  revert i. induction l as [|k l IH]; intros i H.
  - destruct i; apply holds_on_refl.
  - destruct i as [|i]; cbn [update_nth]; rewrite !view_of_cons.
    + destruct (H k eq_refl) as [E|[E|(ks & ks' & E & E' & T)]].
      * rewrite E. now left.
      * rewrite <- E. apply holds_on_refl.
      * rewrite E, E'. right. right. eauto.
    + destruct (view_node sel bad bad_here k);
      [apply IH; exact H | apply holds_on_refl..].
Qed.

Lemma view_tag_kids (name : string) (a : attrs) (kids kids' : list node) :
  sel name a = false ->
  holds_on (view_of sel bad bad_here kids) (view_of sel bad bad_here kids') ->
  holds_on (view_node sel bad bad_here (Tag name a kids))
    (view_node sel bad bad_here (Tag name a kids')).
Proof.
  intros S H. rewrite !view_node_tag, S.
  destruct H as [E|[E|(ks & ks' & E & E' & T)]].
  - rewrite E. now left.
  - rewrite E. apply holds_on_refl.
  - rewrite E, E'. destruct (bad name a); [now left|]. right. right. eauto.
Qed.


Lemma forallb_text_get (ks : list node) (q : path) (m : node) :
  forallb is_text ks = true -> get_at q ks = Some m -> is_text m = true.
Proof.
  intros T. destruct q as [|i q]; [discriminate|].
  rewrite get_at_cons. destruct (nth_error ks i) as [n|] eqn:E; [|discriminate].
  apply nth_error_In in E. rewrite forallb_forall in T. specialize (T n E).
  destruct n as [s|]; [|discriminate].
  destruct q as [|j q]; cbn [get_in children_of].
  - now intros [= <-].
  - rewrite get_at_cons. now destruct j.
Qed.

Lemma view_update (f : node -> node) (q : path) (l : list node) :
  (forall m, get_at q l = Some m -> gentle sel bad bad_here f m) ->
  holds_on (view_of sel bad bad_here l) (view_of sel bad bad_here
    (update_at q f l)).
Proof.
  revert l. induction q as [|i q IH]; intros l H; [apply holds_on_refl|].
  rewrite update_at_cons. apply view_update_nth. intros n Hn.
  rewrite get_at_cons, Hn in H.
  destruct q as [|j q].
  - cbn [update_in get_in] in *. destruct (H n eq_refl) as [->|[_ G]];
      [apply holds_on_refl | exact G].
  - cbn [update_in]. destruct n as [s|name a kids]; [apply holds_on_refl|].
    cbn [get_in children_of] in H.
    destruct (sel name a) eqn:S.
    + (* the element is one looked for: its children are what is seen *)
      rewrite !view_node_tag, S.
      destruct (bad name a || bad_here name a); [now left|].
      destruct (forallb is_text kids) eqn:T.
      * rewrite (update_at_same f (j :: q) kids); [apply holds_on_refl|].
        intros m Hm. destruct (H m Hm) as [E|[N _]]; [exact E|].
        rewrite (forallb_text_get kids (j :: q) m T Hm) in N. discriminate.
      * right. right. eauto.
    + apply view_tag_kids; [exact S|]. apply IH. exact H.
Qed.


(** *** Mutations that keep the view *)

Hypothesis sel_id : id_only sel.
Hypothesis bad_id : id_only bad.
Hypothesis bad_here_id : id_only bad_here.

Lemma view_attrs (name : string) (a a' : attrs) (kids : list node) :
  attr_get a' "id" = attr_get a "id" ->
  view_node sel bad bad_here (Tag name a' kids) = view_node sel bad bad_here
    (Tag name a kids).
Proof.
  intros H. rewrite !view_node_tag.
  now rewrite (sel_id name a' a H), (bad_id name a' a H),
    (bad_here_id name a' a H).
Qed.

(** Setting an attribute other than [id]. *)
Lemma gentle_set_attr (k : string) (v : node -> attr_value) (m : node) :
  k <> "id" -> gentle sel bad bad_here (fun n => set_attr k (v n) n) m.
Proof.
  intros Hk. destruct m as [s|name a kids]; [now left|]. right.
  split; [reflexivity|]. cbn [set_attr].
  rewrite (view_attrs name a _ kids (attr_get_set_other a k "id" _ Hk)).
  apply holds_on_refl.
Qed.

Lemma view_map_tags (g : string -> attrs -> attrs) (l : list node) :
  (forall name a, attr_get (g name a) "id" = attr_get a "id") ->
  view_of sel bad bad_here (map (map_tags g) l)
  = match view_of sel bad bad_here l with
    | Clear ks => Clear (map (map_tags g) ks)
    | v => v
    end.
Proof.
  intros Hg.
  assert (L : forall ks,
    Forall (fun n => view_node sel bad bad_here (map_tags g n)
                     = match view_node sel bad bad_here n with
                       | Clear ks => Clear (map (map_tags g) ks)
                       | v => v
                       end) ks ->
    view_of sel bad bad_here (map (map_tags g) ks)
    = match view_of sel bad bad_here ks with
      | Clear ks' => Clear (map (map_tags g) ks')
      | v => v
      end).
  { induction 1 as [|k ks Hk _ IHks]; [reflexivity|].
    cbn [map]. rewrite !view_of_cons, Hk, IHks.
    now destruct (view_node sel bad bad_here k). }
  apply L, Forall_forall. intros n _.
  induction n as [s|name a kids IH] using node_induction; [reflexivity|].
  cbn [map_tags]. rewrite (view_attrs name a _ _ (Hg name a)).
  rewrite !view_node_tag, (L kids IH).
  destruct (sel name a).
  - now destruct (bad name a || bad_here name a).
  - destruct
    (view_of sel bad bad_here kids); try reflexivity. now destruct (bad name a).
Qed.

(** Replacing the content of an element to keep away from. *)
Lemma gentle_set_string (s : string) (m : node) :
  (forall name a kids, m = Tag name a kids -> bad name a = true) ->
  gentle sel bad bad_here (set_string s) m.
Proof.
  intros Hm. destruct m as [t|name a kids]; [now left|]. right.
  split; [reflexivity|]. specialize (Hm name a kids eq_refl).
  cbn [set_string]. rewrite !view_node_tag, Hm. cbn [orb].
  destruct (sel name a); [now left|].
  cbn [view_of view_node].
  destruct (view_of sel bad bad_here kids);
    [apply holds_on_refl | now left | now left].
Qed.

(** Replacing an element to keep away from by one that is not looked
    for and holds none. *)
Lemma gentle_replace (new : node) (m : node) :
  (forall name a kids, m = Tag name a kids -> bad name a = true) ->
  view_node sel bad bad_here new = Missing ->
  is_text m = false ->
  gentle sel bad bad_here (fun _ => new) m.
Proof.
  intros Hm Hnew T. right. split; [exact T|].
  destruct m as [t|name a kids]; [discriminate|].
  specialize (Hm name a kids eq_refl). rewrite Hnew.
  rewrite view_node_tag, Hm. cbn [orb].
  destruct (sel name a); [now left|].
  destruct (view_of sel bad bad_here kids);
    [apply holds_on_refl | now left | now left].
Qed.

(** A child added last to an element that is not itself the one seen. *)
Lemma gentle_append (c m : node) :
  view_node sel bad bad_here c = Missing ->
  (forall name a kids, m = Tag name a kids ->
     sel name a = true -> bad name a || bad_here name a = true) ->
  gentle sel bad bad_here (append_child c) m.
Proof.
  intros Hc Hm. destruct m as [t|name a kids]; [now left|]. right.
  split; [reflexivity|]. cbn [append_child]. rewrite !view_node_tag.
  destruct (sel name a) eqn:S.
  - rewrite (Hm name a kids eq_refl S). apply holds_on_refl.
  - rewrite view_of_app, (view_of_cons c []), Hc.
    destruct (view_of sel bad bad_here kids); apply holds_on_refl.
Qed.

(** *** The view and the search *)

Lemma view_missing_node (n : node) :
  view_node sel bad bad_here n = Missing <-> find_node sel n = None.
Proof.
  induction n as [s|name a kids IH] using node_induction; [now split|].
  rewrite view_node_tag, find_node_tag.
  destruct (sel name a).
  { split; [|discriminate]. now destruct (bad name a || bad_here name a). }
  assert (E : forall i, view_of sel bad bad_here kids = Missing
    <-> find_from sel kids i = None).
  { induction IH as [|k ks Hk _ IHks]; intros i; [now split|].
    rewrite view_of_cons. cbn [find_from].
    destruct (find_node sel k) as [q|] eqn:F.
    - split; [|discriminate]. intros H.
      assert (V : view_node sel bad bad_here k <> Missing)
        by (intros V; apply Hk in V; discriminate).
      destruct (view_node sel bad bad_here k); [contradiction | discriminate..].
    - rewrite (proj2 Hk eq_refl). apply IHks. }
  specialize (E 0%nat).
  destruct (view_of sel bad bad_here kids) as [|ks|]; [exact E | |].
  - split.
    + now destruct (bad name a).
    + intros H. apply E in H. discriminate.
  - split; [discriminate|]. intros H. apply E in H. discriminate.
Qed.

End ViewFacts.

Section ViewSearch.

Variables sel bad bad_here : selector.


(** What a clear view promises of a node: the search finds the
    element, these are its children, and setting its text shows. *)
Let clear_in_node (n : node) : Prop :=
  forall ks, view_node sel bad bad_here n = Clear ks ->
  exists q name a,
    find_node sel n = Some q
    /\ get_in q n = Some (Tag name a ks)
    /\ forall s, view_node sel bad bad_here (update_in q (set_string s) n)
      = Clear [Text s].

Let clear_in_forest (l : list node) : Prop :=
  forall ks, view_of sel bad bad_here l = Clear ks ->
  exists j q name a,
    (forall i, find_from sel l i = Some ((i + j)%nat :: q))
    /\ get_at (j :: q) l = Some (Tag name a ks)
    /\ forall s, view_of sel bad bad_here (update_at (j :: q) (set_string s) l)
      = Clear [Text s].

Lemma clear_forest_of_nodes (l : list node) :
  Forall clear_in_node l -> clear_in_forest l.
Proof.
  induction 1 as [|k l Hk _ IH]; intros ks; [discriminate|].
  rewrite view_of_cons.
  destruct (view_node sel bad bad_here k) as [|ks0|] eqn:V; [|intros
    [= <-]|discriminate].
  - intros H. destruct (IH ks H) as (j & q & name & a & F & G & U).
    exists (S j), q, name, a. repeat split.
    + intros i. cbn [find_from].
      rewrite (proj1 (view_missing_node sel bad bad_here k) V), F.
      do 2 f_equal. lia.
    + rewrite get_at_cons in *. exact G.
    + intros s. specialize (U s). rewrite update_at_cons in *.
      cbn [update_nth]. rewrite view_of_cons.
      now rewrite V.
  - destruct (Hk ks0 V) as (q & name & a & F & G & U).
    exists 0%nat, q, name, a. repeat split.
    + intros i. cbn [find_from]. rewrite F. now rewrite Nat.add_0_r.
    + rewrite get_at_cons. exact G.
    + intros s. rewrite update_at_cons. cbn [update_nth].
      rewrite view_of_cons. now rewrite U.
Qed.

Lemma clear_node (n : node) : clear_in_node n.
Proof.
  induction n as [s|name a kids IH] using node_induction; intros ks;
    [discriminate|].
  rewrite view_node_tag, find_node_tag.
  destruct (sel name a) eqn:S.
  - destruct (bad name a || bad_here name a) eqn:B; [discriminate|].
    intros [= <-]. exists [], name, a. repeat split.
    intros s. cbn [update_in set_string].
    now rewrite view_node_tag, S, B.
  - destruct (view_of sel bad bad_here kids) as [|ks0|] eqn:V; try discriminate.
    destruct (bad name a) eqn:B; [discriminate|]. intros [= <-].
    destruct (clear_forest_of_nodes kids IH ks0 V)
      as (j & q & name' & a' & F & G & U).
    exists (j :: q), name', a'. repeat split.
    + exact (F 0%nat).
    + exact G.
    + intros s. cbn [update_in].
      rewrite view_node_tag, S. now rewrite U, B.
Qed.

(** A clear view is the view of the element the search finds. *)
Lemma view_clear_found (doc : soup) (ks : list node) :
  view_of sel bad bad_here doc = Clear ks ->
  element_children sel doc = Some ks
  /\ forall s,
       view_of sel bad bad_here (mutate (find sel doc) (set_string s) doc)
         = Clear [Text s].
Proof.
  intros H.
  assert (Hdoc : clear_in_forest doc).
  { apply clear_forest_of_nodes, Forall_forall. intros n _. apply clear_node. }
  destruct (Hdoc ks H) as (j & q & name & a & F & G & U).
  unfold element_children, find. rewrite (F 0%nat). cbn [Nat.add mutate].
  rewrite G. split; [reflexivity | exact U].
Qed.

(** The elements on the way to a place below a node, the node first. *)
Let spine_in (q : path) (n : node) : list (string * attrs) :=
  match n with
  | Text _ => []
  | Tag name a kids => (name, a) :: spine q kids
  end.

Let ok (e : string * attrs) : bool := negb (bad (fst e) (snd e)).

Let stands_node (n : node) : Prop :=
  forall q, find_node sel n = Some q ->
  forallb ok (spine_in q n) = true ->
  (forall name a ks, get_in q n = Some (Tag name a ks) ->
     bad_here name a = false) ->
  exists ks, view_node sel bad bad_here n = Clear ks.

Let stands_forest (l : list node) : Prop :=
  forall i q, find_from sel l i = Some q ->
  exists j q',
    q = (i + j)%nat :: q'
    /\ (forallb ok (spine (j :: q') l) = true ->
        (forall name a ks, get_at (j :: q') l = Some (Tag name a ks) ->
           bad_here name a = false) ->
        exists ks, view_of sel bad bad_here l = Clear ks).

Lemma stands_forest_of_nodes (l : list node) :
  Forall stands_node l -> stands_forest l.
Proof.
  induction 1 as [|k l Hk _ IH]; intros i q; cbn [find_from];
    [discriminate|].
  destruct (find_node sel k) as [q0|] eqn:E.
  - intros [= <-]. exists 0%nat, q0. split; [now rewrite Nat.add_0_r|].
    intros Hs Hh. rewrite view_of_cons.
    destruct (Hk q0 E) as [ks V].
    + cbn [spine nth_error] in Hs. destruct k as [s|name a kids];
        [discriminate | exact Hs].
    + intros name a ks G. apply (Hh name a ks).
      rewrite get_at_cons. exact G.
    + rewrite V. eauto.
  - intros H. destruct (IH _ _ H) as (j & q' & -> & K).
    exists (S j), q'. split; [f_equal; lia|].
    intros Hs Hh. rewrite view_of_cons.
   
    rewrite (proj2 (view_missing_node sel bad bad_here k) E).
    apply K.
    + exact Hs.
    + intros name a ks G. apply (Hh name a ks).
      rewrite get_at_cons in *. exact G.
Qed.

Lemma stands_in_node (n : node) : stands_node n.
Proof.
  induction n as [s|name a kids IH] using node_induction; intros q;
    [discriminate|].
  rewrite find_node_tag. rewrite view_node_tag.
  cbn [spine_in forallb]. unfold ok at 1. cbn [fst snd].
  destruct (sel name a) eqn:S.
  - intros [= <-] Hs Hh. cbn [get_in] in Hh.
    rewrite (Hh name a kids eq_refl).
    apply andb_prop in Hs. destruct Hs as [Hb _].
    apply negb_true_iff in Hb. rewrite Hb. cbn [orb]. eauto.
  - intros F Hs Hh. apply andb_prop in Hs. destruct Hs as [Hb Hs].
    apply negb_true_iff in Hb.
    destruct (stands_forest_of_nodes kids IH 0%nat q F) as (j & q' & -> & K).
    cbn [Nat.add] in *. destruct (K Hs) as [ks V].
    + intros name' a' ks G. exact (Hh name' a' ks G).
    + rewrite V, Hb. eauto.
Qed.

(** An element the search finds that stands clear gives a clear
    view. *)
Lemma view_of_clear_place (doc : soup) (q : path) :
  find sel doc = Some q ->
  clear_of bad q doc = true ->
  (forall name a ks, get_at q doc = Some (Tag name a ks) ->
     bad_here name a = false) ->
  exists ks, view_of sel bad bad_here doc = Clear ks.
Proof.
  intros F Hs Hh.
  assert (Hdoc : stands_forest doc).
  { apply stands_forest_of_nodes, Forall_forall. intros n _.
    apply stands_in_node. }
  destruct (Hdoc 0%nat q F) as (j & q' & -> & K). cbn [Nat.add] in *.
  apply K; assumption.
Qed.

End ViewSearch.

(** *** The places the scorecard looks up before it mutates *)

Section TagsKept.

Variable f : node -> node.
Hypothesis f_text : forall s, f (Text s) = Text s.
Hypothesis f_tag :
  forall name a kids, exists a' kids',
    f (Tag name a kids) = Tag name a' kids'
    /\ attr_get a' "id" = attr_get a "id".

Let tag_of (n : option node) : option (string * option attr_value) :=
  match n with
  | Some (Tag name a _) => Some (name, attr_get a "id")
  | _ => None
  end.

Lemma tag_of_f (n : node) : tag_of (Some (f n)) = tag_of (Some n).
Proof.
  destruct n as [s|name a kids]; [now rewrite f_text|].
  destruct (f_tag name a kids) as (a' & kids' & -> & E).
  cbn [tag_of]. now rewrite E.
Qed.

(** A mutation that keeps name and [id] keeps them at every place
    that does not lie strictly below the mutated one. *)
Lemma tag_at_update (p q : path) (l : list node) :
  strictly_below p q = false ->
  tag_at q (update_at p f l) = tag_at q l.
Proof.
  assert (E : forall q' l', tag_at q' l' = tag_of (get_at q' l'))
    by reflexivity.
  rewrite !E. clear E. intros B. revert B.
  revert q l. induction p as [|i p IH]; intros q l B; [reflexivity|].
  destruct q as [|j q]; [reflexivity|].
  rewrite update_at_cons, !get_at_cons, nth_error_update_nth.
  cbn [strictly_below] in B.
  destruct (Nat.eqb_spec i j) as [->|Hij]; [|reflexivity].
  cbn [andb] in B.
  destruct (nth_error l j) as [n|]; [|reflexivity]. cbn [option_map].
  destruct p as [|i' p].
  - destruct q as [|j' q]; [|discriminate].
    cbn [update_in get_in]. apply tag_of_f.
  - cbn [update_in]. destruct n as [s|name a kids]; [reflexivity|].
    destruct q as [|j' q]; [reflexivity|].
    cbn [get_in children_of]. apply IH. exact B.
Qed.

End TagsKept.

Section TagsKeptInside.

Variable f : node -> node.
Hypothesis f_text : forall s, f (Text s) = Text s.
Hypothesis f_tag :
  forall name a kids, exists a',
    f (Tag name a kids) = Tag name a' kids
    /\ attr_get a' "id" = attr_get a "id".

(** A mutation of attributes other than [id] keeps name and [id] at
    every place. *)
Lemma tag_at_update_attrs (p q : path) (l : list node) :
  tag_at q (update_at p f l) = tag_at q l.
Proof.
  unfold tag_at.
  revert q l. induction p as [|i p IH]; intros q l; [reflexivity|].
  destruct q as [|j q]; [reflexivity|].
  rewrite update_at_cons, !get_at_cons, nth_error_update_nth.
  destruct (Nat.eqb_spec i j) as [->|Hij]; [|reflexivity].
  destruct (nth_error l j) as [n|]; [|reflexivity]. cbn [option_map].
  destruct p as [|i' p].
  - cbn [update_in]. destruct n as [s|name a kids]; [now rewrite f_text|].
    destruct (f_tag name a kids) as (a' & -> & E).
    destruct q as [|j' q]; cbn [get_in children_of];
      [now rewrite E | reflexivity].
  - cbn [update_in]. destruct n as [s|name a kids]; [reflexivity|].
    destruct q as [|j' q]; [reflexivity|].
    cbn [get_in children_of]. apply IH.
Qed.

End TagsKeptInside.

Lemma get_at_app (q r : path) (l : list node) (n : node) :
  get_at q l = Some n -> r <> [] ->
  get_at (q ++ r)%list l = get_at r (children_of n).
Proof.
  revert l n. induction q as [|i q IH]; intros l n; [discriminate|].
  intros G Hr. cbn [app]. rewrite get_at_cons in *.
  destruct (nth_error l i) as [m|]; [|discriminate].
  destruct q as [|j q].
  - cbn [get_in app] in *. injection G as ->.
    destruct r; [contradiction | reflexivity].
  - cbn [get_in] in G. cbn [app get_in]. cbn [app] in IH.
    now apply IH.
Qed.

Lemma for_each_holds {A} (P : soup -> soup -> Prop) (body : soup -> A -> M soup)
  (l : list A) :
  (forall b, P b b) ->
  (forall a b c, P a b -> P b c -> P a c) ->
  (forall x b st, In x l -> P b (fst (body b x st))) ->
  forall b st, P b (fst (for_each l body b st)).
Proof.
  intros Prefl Ptrans. induction l as [|x l IH]; intros H b st;
    [apply Prefl|].
  cbn [for_each]. unfold bind.
  pose proof (H x b st (or_introl eq_refl)) as H1.
  destruct (body b x st) as [b1 st1]. cbn [fst] in H1.
  apply (Ptrans _ _ _ H1). apply IH. intros y c s Hy. apply H. now right.
Qed.

Section LaterSteps.

Variables sel bad bad_here : selector.


Hypothesis sel_id : id_only sel.
Hypothesis bad_id : id_only bad.
Hypothesis bad_here_id : id_only bad_here.

(** The elements looked for are none of those the render creates. *)
Hypothesis sel_new :
  forall name a, attr_get a "id" = None ->
    name = "span" \/ name = "div" -> sel name a = false.

(** The element looked for is not an [h2], or is one to keep away from. *)
Hypothesis sel_h2 :
  forall a, sel "h2" a = true -> bad "h2" a || bad_here "h2" a = true.

Lemma view_mutate_set_string (p : selector) (s : string) (doc : soup) :
  (forall name a, p name a = true -> bad name a = true) ->
  holds_on (view_of sel bad bad_here doc) (view_of sel bad bad_here
    (mutate (find p doc) (set_string s) doc)).
Proof.
  intros Hx. destruct (find p doc) as [q|] eqn:F; cbn [mutate];
    [|apply holds_on_refl].
  destruct (find_then_mutate p doc q F) as (name & a & kids & G & P & _).
  apply view_update. intros m Hm. rewrite G in Hm. injection Hm as <-.
  apply gentle_set_string. intros name' a' kids' [= <- <- <-]. now apply Hx.
Qed.

Lemma view_mutate_attr (found : option path) (k : string)
  (v : node -> attr_value) (doc : soup) :
  k <> "id" ->
  holds_on (view_of sel bad bad_here doc) (view_of sel bad bad_here
    (mutate found (fun n => set_attr k (v n) n) doc)).
Proof.
  intros Hk. destruct found as [q|]; cbn [mutate]; [|apply holds_on_refl].
  apply view_update. intros m _. now apply gentle_set_attr.
Qed.

Lemma view_mark_body (symbol : string) (doc : soup) :
  holds_on (view_of sel bad bad_here doc)
    (view_of sel bad bad_here (mark_body symbol doc)).
Proof.
  unfold mark_body.
  destruct (find (named "body") doc) as [q|]; cbn [mutate];
    [|apply holds_on_refl].
  apply view_update. intros m _.
  destruct m as [s|name a kids]; [now left|]. right. split; [reflexivity|].
  cbn [set_attr].
  assert (E : attr_get
                (attr_set (attr_set a "data-stock-symbol" (AStr symbol))
                   "data-prerendered" (AStr "1")) "id"
              = attr_get a "id")
    by (rewrite !attr_get_set_other by discriminate; reflexivity).
  rewrite (view_attrs sel bad bad_here sel_id bad_id bad_here_id name a _
             kids E).
  apply holds_on_refl.
Qed.

Lemma fix_keeps_id (asset_prefix name : string) (a : attrs) :
  attr_get (fix_link asset_prefix name a) "id" = attr_get a "id"
  /\ attr_get (fix_script asset_prefix name a) "id" = attr_get a "id"
  /\ attr_get (fix_anchor asset_prefix name a) "id" = attr_get a "id".
Proof.
  unfold fix_link, fix_script, fix_anchor.
  repeat split;
    repeat match goal with
           | |- context [if ?c then _ else _] => destruct c
           end;
    try reflexivity; apply attr_get_set_other; discriminate.
Qed.

Lemma view_rewrite_assets (asset_prefix : string) (doc : soup) (ks : list node)
  :
  forallb is_text ks = true ->
  view_of sel bad bad_here doc = Clear ks -> view_of sel bad bad_here
    (rewrite_assets asset_prefix doc) = Clear ks.
Proof.
  intros T H. unfold rewrite_assets.
  assert (K : map (map_tags (fix_link asset_prefix)) ks = ks
              /\ map (map_tags (fix_script asset_prefix)) ks = ks
              /\ map (map_tags (fix_anchor asset_prefix)) ks = ks).
  { clear H. induction ks as [|[s|name a kids] ks IH];
      cbn [forallb is_text andb] in T; [auto | | discriminate].
    destruct (IH T) as (A & B & C). cbn [map map_tags].
    now rewrite A, B, C. }
  destruct K as (K1 & K2 & K3).
  rewrite !(view_map_tags sel bad bad_here sel_id bad_id bad_here_id)
    by (intros name a; apply (fix_keeps_id asset_prefix name a)).
  rewrite H. now rewrite K1, K2, K3.
Qed.

Lemma chip_missing (chip_class text : string) :
  view_node sel bad bad_here (Tag "span" [("class", AList
    ["section-score"; chip_class])]
              [Text text]) = Missing.
Proof.
  rewrite view_node_tag, sel_new; [reflexivity | reflexivity | now left].
Qed.

Lemma view_add_section_chip (section_id chip_class : string) (above total : Z)
  (doc : soup) :
  holds_on (view_of sel bad bad_here doc)
    (view_of sel bad bad_here
      (add_section_chip section_id chip_class above total doc)).
Proof.
  unfold add_section_chip.
  destruct (find (has_id section_id) doc) as [q|]; [|apply holds_on_refl].
  destruct (get_at q doc) as [section|] eqn:G; [|apply holds_on_refl].
  destruct (find (named "h2") (children_of section)) as [r|] eqn:F;
    [|apply holds_on_refl].
  destruct (find_then_mutate (named "h2") _ r F)
    as (name & a & kids & Gr & P & _).
  apply view_update. intros m Hm.
  rewrite (get_at_app q r doc section G) in Hm
    by (intros ->; discriminate).
  rewrite Gr in Hm. injection Hm as <-.
  apply gentle_append; [apply chip_missing|].
  intros name' a' kids' [= <- <- <-] S.
  unfold named in P. apply String.eqb_eq in P. subst name.
  now apply sel_h2.
Qed.


(** The elements the later steps rewrite are elements to keep away
    from. *)
Hypothesis bad_rewritten :
  forall name a, has_rewritten_id name a = true -> bad name a = true.

Lemma bad_of_id (x name : string) (a : attrs) :
  In x rewritten_ids -> has_id x name a = true -> bad name a = true.
Proof.
  intros Hin H. apply bad_rewritten. unfold has_rewritten_id.
  apply existsb_exists. eauto.
Qed.

Lemma tag_at_mutate_attr (found : option path) (k : string)
  (v : node -> attr_value) (doc : soup) (q : path) :
  k <> "id" ->
  tag_at q (mutate found (fun n => set_attr k (v n) n) doc) = tag_at q doc.
Proof.
  intros Hk. destruct found as [p|]; [|reflexivity]. cbn [mutate].
  apply tag_at_update_attrs; [reflexivity|].
  intros name a kids. exists (attr_set a k (v (Tag name a kids))).
  split; [reflexivity | now apply attr_get_set_other].
Qed.

Lemma tag_at_mutate_set_string (p q : path) (s : string) (doc : soup) :
  strictly_below p q = false ->
  tag_at q (update_at p (set_string s) doc) = tag_at q doc.
Proof.
  apply tag_at_update; [reflexivity|].
  intros name a kids. now exists a, [Text s].
Qed.

Lemma view_update_scorecard (section_id chip_class : string) (above total : Z)
  (doc : soup) :
  In ("score-val-" ++ section_id) rewritten_ids ->
  In ("score-label-" ++ section_id) rewritten_ids ->
  holds_on (view_of sel bad bad_here doc)
    (view_of sel bad bad_here
      (update_scorecard section_id chip_class above total doc)).
Proof.
  intros Hval Hlabel. unfold update_scorecard. cbv zeta beta.
  set (score_val := find (has_id ("score-val-" ++ section_id)) doc).
  set (score_label := find (has_id ("score-label-" ++ section_id)) doc).
  match goal with
  | |- holds_on _ (view_of _ _ _
                     (mutate ?l _ (mutate ?c ?fc (mutate ?b ?fb ?d1)))) =>
      set (doc1 := d1); set (doc2 := mutate b fb doc1);
      set (doc3 := mutate c fc doc2); set (still_label := l)
  end.
  assert (H1 : holds_on (view_of sel bad bad_here doc)
    (view_of sel bad bad_here doc1)).
  { apply view_mutate_set_string. intros name a. now apply bad_of_id. }
  assert (H2 : holds_on (view_of sel bad bad_here doc1)
    (view_of sel bad bad_here doc2))
    by (apply view_mutate_attr; discriminate).
  assert (H3 : holds_on (view_of sel bad bad_here doc2)
    (view_of sel bad bad_here doc3))
    by (apply view_mutate_attr; discriminate).
  apply (holds_on_trans _ _ _ H1), (holds_on_trans _ _ _ H2),
    (holds_on_trans _ _ _ H3).
  destruct still_label as [q|] eqn:S; cbn [mutate];
    [|apply holds_on_refl].
  (* the place of the label still holds the element found *)
  assert (F : score_label = Some q
              /\ (forall p, score_val = Some p -> strictly_below p q = false)).
  { unfold still_label in S. destruct score_val as [p|].
    - destruct score_label as [q0|]; [|discriminate].
      destruct (strictly_below p q0) eqn:B; [discriminate|].
      injection S as ->. split; [reflexivity|]. now intros p' [= <-].
    - split; [exact S | discriminate]. }
  destruct F as [F B].
  destruct (find_then_mutate _ doc q F) as (name & a & kids & G & P & _).
  assert (T : tag_at q doc3 = Some (name, attr_get a "id")).
  { unfold doc3, doc2. rewrite !tag_at_mutate_attr by discriminate.
    unfold doc1. destruct score_val as [p|]; cbn [mutate].
    - rewrite tag_at_mutate_set_string by (now apply B).
      unfold tag_at. now rewrite G.
    - unfold tag_at. now rewrite G. }
  apply view_update. intros m Hm. apply gentle_set_string.
  intros name' a' kids' ->. unfold tag_at in T. rewrite Hm in T.
  injection T as -> E.
  rewrite (bad_id name a' a E). now apply (bad_of_id _ _ _ Hlabel).
Qed.

Lemma wrapper_missing (indicator : Indicator) (text : string) :
  view_node sel bad bad_here (metric_wrapper indicator text) = Missing.
Proof.
  unfold metric_wrapper.
  rewrite view_node_tag, sel_new; [|reflexivity | now right].
  cbn [view_of].
  rewrite !view_node_tag, !sel_new; try reflexivity; now left.
Qed.

Lemma view_render_metric (field_id : string) (value median_value : option float)
  (doc : soup) :
  In field_id rewritten_ids ->
  In (field_id ++ "_median") rewritten_ids ->
  holds_on (view_of sel bad bad_here doc) (view_of sel bad bad_here
    (render_metric field_id value median_value doc)).
Proof.
  intros Hf Hm. unfold render_metric.
  set (doc1 := mutate (find (has_id field_id) doc) _ doc).
  assert (H1 : holds_on (view_of sel bad bad_here doc)
    (view_of sel bad bad_here doc1)).
  { unfold doc1. destruct (find (has_id field_id) doc) as [q|] eqn:F;
      cbn [mutate]; [|apply holds_on_refl].
    destruct (find_then_mutate _ doc q F) as (name & a & kids & G & P & _).
    apply view_update. intros m Hg. rewrite G in Hg. injection Hg as <-.
    apply gentle_replace; [|apply wrapper_missing | reflexivity].
    intros name' a' kids' [= <- <- <-]. now apply (bad_of_id _ _ _ Hf). }
  apply (holds_on_trans _ _ _ H1).
  apply view_mutate_set_string. intros name a. now apply bad_of_id.
Qed.

(** The render after the title and header block leaves a clear view
    of text as it is. *)
Lemma view_render_soup (doc : soup) (symbol : string) (stock_data medians : ref)
  (asset_prefix : string) (st : Store) (ks : list node) :
  forallb is_text ks = true ->
  view_of sel bad bad_here (set_title_and_header symbol doc) = Clear ks ->
  view_of sel bad bad_here (fst
    (render_soup doc symbol stock_data medians asset_prefix st))
  = Clear ks.
Proof.
  intros T H. unfold render_soup.
  set (doc0 := set_title_and_header symbol doc) in *.
  assert (H1 : view_of sel bad bad_here
    (rewrite_assets asset_prefix (mark_body symbol doc0))
               = Clear ks).
  { apply view_rewrite_assets; [exact T|].
    apply (holds_on_text ks _ T). rewrite <- H. apply view_mark_body. }
  set (doc1 := rewrite_assets asset_prefix (mark_body symbol doc0)) in *.
  unfold bind.
  set (sections := fun (d : soup) (sec : string * list string) => _).
  set (metrics := fun (d : soup) (field_id : string) => _).
  pose (P := fun b c : soup => holds_on (view_of sel bad bad_here b)
    (view_of sel bad bad_here c)).
  assert (S : forall b s0, P b
    (fst (for_each Config.SECTION_FIELDS sections b s0))).
  { apply for_each_holds.
    - intros b. apply holds_on_refl.
    - intros a b c. apply holds_on_trans.
    - intros [section_id field_ids] b s0 Hin. unfold sections.
      cbv [bind load ret].
      destruct (calculate_section_score field_ids (deref s0 stock_data)
                  (deref s0 medians)) as [above total].
      cbn [fst]. unfold P.
      eapply holds_on_trans; [apply view_add_section_chip|].
      apply view_update_scorecard; unfold rewritten_ids; apply in_or_app;
        left; apply in_flat_map; exists (section_id, field_ids);
        (split; [exact Hin|]); cbn [fst In]; auto. }
  assert (D : forall b s0, P b
    (fst (for_each Config.DATA_FIELDS metrics b s0))).
  { apply for_each_holds.
    - intros b. apply holds_on_refl.
    - intros a b c. apply holds_on_trans.
    - intros field_id b s0 Hin. unfold metrics. cbv [bind get_item ret].
      cbn [fst]. unfold P.
      apply view_render_metric; unfold rewritten_ids; apply in_or_app;
        right; apply in_flat_map; exists field_id;
        (split; [exact Hin|]); cbn [In]; auto. }
  specialize (S doc1 st).
  destruct (for_each Config.SECTION_FIELDS sections doc1 st) as [doc2 st2].
  specialize (D doc2 st2). cbn [fst] in S. unfold P in S, D.
  apply (holds_on_text ks _ T). rewrite <- H1.
  exact (holds_on_trans _ _ _ S D).
Qed.

End LaterSteps.

(** C7, as stated, fails.  After [render_html] the text of the page
    title is "Stock Details - " followed by the symbol, not the symbol;
    only the header element holds the bare symbol.  And not every
    template keeps the two elements: where the title is the
    placeholder of a field and the header stands below the score value
    of a section, the rendered document has neither. *)
Lemma title_is_not_the_bare_symbol :
  (element_children (named "title")
     (fst (render_soup sample_template "AAPL:US" 0 1 "" []))
   = Some [Text "Stock Details - AAPL:US"]
   /\ element_children (named "title")
        (fst (render_soup sample_template "AAPL:US" 0 1 "" []))
      <> Some [Text "AAPL:US"]
   /\ element_children (has_id "stock-symbol-header")
        (fst (render_soup sample_template "AAPL:US" 0 1 "" []))
      = Some [Text "AAPL:US"])
  /\ (find (named "title")
        (fst (render_soup covered_template "AAPL:US" 0 1 "" [])) = None
      /\ find (has_id "stock-symbol-header")
           (fst (render_soup covered_template "AAPL:US" 0 1 "" [])) = None).
Proof.
  split.
  - split; [vm_compute; reflexivity|].
    split; [vm_compute; discriminate | vm_compute; reflexivity].
  - split; vm_compute; reflexivity.
Qed.

(** C7, amended.  [render_html] prints the document [render_soup]
    makes of the parsed template.  In that document the page title,
    the first [title] element, has the text "Stock Details - " followed
    by the symbol, when the title of the template stands clear of what
    the later steps rewrite: neither it nor an element around it has a
    rewritten id (a field id, a field id with "_median", "score-val-"
    or "score-label-" with a section id) or the id
    "stock-symbol-header".  And the header, the first element with id
    "stock-symbol-header", has the symbol as its text, when the header
    of the template stands clear: neither it nor an element around it
    has a rewritten id or is a [title], and it is not an [h2]. *)
Theorem title_and_header_text (parse : string -> soup) (to_str : soup -> string)
  (template_html symbol : string) (stock_data medians : ref)
  (asset_prefix : string) (st : Store) :
  let doc := parse template_html in
  let out :=
    fst (render_soup doc symbol stock_data medians asset_prefix st) in
  fst (render_html parse to_str template_html symbol stock_data medians
         asset_prefix st) = to_str out
  /\ (forall q,
        find (named "title") doc = Some q ->
        clear_of
          (fun name a =>
             has_rewritten_id name a || has_id "stock-symbol-header" name a)
          q doc = true ->
        element_children (named "title") out
        = Some [Text ("Stock Details - " ++ symbol)])
  /\ (forall q,
        find (has_id "stock-symbol-header") doc = Some q ->
        clear_of
          (fun name a => has_rewritten_id name a || named "title" name a)
          q doc = true ->
        (forall a kids, get_at q doc <> Some (Tag "h2" a kids)) ->
        element_children (has_id "stock-symbol-header") out
        = Some [Text symbol]).
Proof.
  intros doc out. split; [|split].
  - unfold render_html, bind, ret. subst out doc.
    now destruct (render_soup (parse template_html) symbol stock_data medians
                    asset_prefix st).
  - intros q F C.
    pose (bad := fun name a =>
            has_rewritten_id name a || has_id "stock-symbol-header" name a).
    pose (here := fun (_ : string) (_ : attrs) => false).
    destruct (view_of_clear_place (named "title") bad here doc q F C)
      as [ks0 V0]; [reflexivity|].
    pose proof (proj2 (view_clear_found (named "title") bad here doc ks0 V0)
                  ("Stock Details - " ++ symbol)) as V1.
    assert (V2 : view_of (named "title") bad here
                   (set_title_and_header symbol doc)
                 = Clear [Text ("Stock Details - " ++ symbol)]).
    { apply holds_on_text; [reflexivity|]. rewrite <- V1.
      apply (view_mutate_set_string (named "title") bad here).
      intros name a H. unfold bad. rewrite H. apply orb_true_r. }
    assert (V3 : view_of (named "title") bad here out
                 = Clear [Text ("Stock Details - " ++ symbol)]).
    { apply (view_render_soup (named "title") bad here);
        try reflexivity; try exact V2.
      - apply id_only_named.
      - apply (id_only_or _ _ id_only_rewritten (id_only_has_id _)).
      - intros name a a' _. reflexivity.
      - intros name a _ [->| ->]; reflexivity.
      - intros a. discriminate.
      - intros name a H. unfold bad. now rewrite H. }
    exact (proj1 (view_clear_found (named "title") bad here out _ V3)).
  - intros q F C Hh2.
    pose (sel := has_id "stock-symbol-header").
    pose (bad := fun name a => has_rewritten_id name a || named "title" name a).
    destruct (view_of_clear_place sel bad (named "h2") doc q F C)
      as [ks0 V0].
    { intros name a ks G. unfold named.
      destruct (String.eqb_spec name "h2") as [->|]; [|reflexivity].
      now destruct (Hh2 a ks). }
    assert (V1 : exists ks1,
               view_of sel bad (named "h2") (set_title symbol doc) = Clear ks1).
    { apply (holds_on_clear ks0). rewrite <- V0.
      apply (view_mutate_set_string sel bad (named "h2")).
      intros name a H. unfold bad. rewrite H. apply orb_true_r. }
    destruct V1 as [ks1 V1].
    pose proof (proj2 (view_clear_found sel bad (named "h2") _ ks1 V1) symbol)
      as V2.
    assert (V3 : view_of sel bad (named "h2") out = Clear [Text symbol]).
    { apply (view_render_soup sel bad (named "h2"));
        try reflexivity; try exact V2.
      - apply id_only_has_id.
      - apply (id_only_or _ _ id_only_rewritten (id_only_named _)).
      - apply id_only_named.
      - intros name a H _. unfold sel, has_id. now rewrite H.
      - intros a _. apply orb_true_r.
      - intros name a H. unfold bad. now rewrite H. }
    exact (proj1 (view_clear_found sel bad (named "h2") out _ V3)).
Qed.

Lemma title_and_header_text_witness :
  element_children (named "title")
    (fst (render_soup scored_template "AAPL:US" 0 1 "../"
            [[("peg", Some 1.2%float)]; [("peg", Some 2%float)]]))
  = Some [Text "Stock Details - AAPL:US"]
  /\ element_children (has_id "stock-symbol-header")
       (fst (render_soup scored_template "AAPL:US" 0 1 "../"
               [[("peg", Some 1.2%float)]; [("peg", Some 2%float)]]))
     = Some [Text "AAPL:US"].
Proof.
  destruct (title_and_header_text (fun _ => scored_template) (fun _ => "")
              "" "AAPL:US" 0%nat 1%nat "../"
              [[("peg", Some 1.2%float)]; [("peg", Some 2%float)]])
    as (_ & Ht & Hh).
  split.
  - apply (Ht [0; 0; 0]%nat); vm_compute; reflexivity.
  - apply (Hh [0; 1; 0; 1]%nat); [vm_compute; reflexivity.. |].
    intros a kids H. vm_compute in H. discriminate H.
Defined.

(** * Further properties of the code *)

(** ** Indicators *)

(** X1. Whatever the value, the median and the field, the indicator
    is one of the three pairs of glyph and class: the glyph and the
    class never disagree. *)
Theorem indicator_is_one_of_three (v m : option float) (f : string) :
  get_comparison_indicator v m f = ind_better
  \/ get_comparison_indicator v m f = ind_worse
  \/ get_comparison_indicator v m f = ind_equal.
Proof.
  unfold get_comparison_indicator, threshold_indicator.
  repeat match goal with
         | |- context [String.eqb f ?x] => destruct (String.eqb f x)
         end;
    unfold _rule_current_ratio, _rule_negative_eps, _rule_eps_growth,
      _rule_pe_times_pb;
    try (destruct v as [x|]; [destruct (isnan x)|]; auto;
         match goal with
         | |- context [if ?c then ind_better else ind_worse] =>
             destruct c; auto
         end).
  destruct v as [x|]; auto. destruct m as [y|]; auto.
  destruct (isnan x || isnan y); auto.
  destruct (flt (abs y) eps);
    destruct (str_in f Config.HIGHER_IS_BETTER);
    destruct (str_in f Config.LOWER_IS_BETTER);
    repeat match goal with
           | |- context [if ?c then _ else _] => destruct c
           end; auto.
Qed.

(** X2. An absent value (None or NaN) gives the neutral indicator for
    every field, and so does an absent median for every field without
    a threshold rule. *)
Theorem unknown_comparison_is_equal (v m : option float) (f : string) :
  (is_missing v = true -> get_comparison_indicator v m f = ind_equal)
  /\ (threshold_indicator f = None -> is_missing m = true ->
      get_comparison_indicator v m f = ind_equal).
Proof.
  split.
  - intros Hv. unfold get_comparison_indicator, threshold_indicator.
    repeat match goal with
           | |- context [String.eqb f ?x] => destruct (String.eqb f x)
           end;
      unfold _rule_current_ratio, _rule_negative_eps, _rule_eps_growth,
        _rule_pe_times_pb;
      destruct v as [x|]; simpl in Hv; try rewrite Hv; try reflexivity.
    now destruct m.
  - intros Hf Hm. unfold get_comparison_indicator. rewrite Hf.
    destruct v as [x|]; [|reflexivity].
    destruct m as [y|]; [|reflexivity].
    simpl in Hm. rewrite Hm. now rewrite orb_true_r.
Qed.

Lemma unknown_comparison_is_equal_witness :
  get_comparison_indicator (Some nan) (Some 2%float) "current_ratio"
  = ind_equal
  /\ get_comparison_indicator (Some 1%float) None "peg" = ind_equal.
Proof.
  split.
  - exact (proj1 (unknown_comparison_is_equal (Some nan) (Some 2%float)
                    "current_ratio") eq_refl).
  - exact (proj2 (unknown_comparison_is_equal (Some 1%float) None "peg")
             eq_refl eq_refl).
Defined.

(** ** Section scores: bounds *)

Lemma count_of_le_length {A} (p : A -> bool) (l : list A) :
  (0 <= count_of p l <= Z.of_nat (List.length l))%Z.
Proof.
  unfold count_of. pose proof (filter_length_le p l). lia.
Qed.

Lemma count_of_mono {A} (p q : A -> bool) (l : list A) :
  (forall x, p x = true -> q x = true) ->
  (count_of p l <= count_of q l)%Z.
Proof.
  intros H. unfold count_of. apply inj_le.
  induction l as [|x l IH]; simpl; [lia|].
  destruct (p x) eqn:P.
  - rewrite (H x P). simpl. lia.
  - destruct (q x); simpl; lia.
Qed.

(** X3. The score of a section is a pair of counts with
    [0 <= above <= total <= len(section_field_ids)], whatever the
    record and the medians hold. *)
Theorem section_score_bounds (ids : list string) (sd md : dict) :
  let '(above, total) := calculate_section_score ids sd md in
  (0 <= above)%Z /\ (above <= total)%Z
  /\ (total <= Z.of_nat (List.length ids))%Z.
Proof.
  rewrite calculate_section_score_counts.
  split; [apply count_of_le_length|].
  split; [|apply count_of_le_length].
  apply count_of_mono. intros f H. now apply andb_true_iff in H.
Qed.

Lemma dict_get_nil (f : string) : dict_get [] f = None.
Proof. reflexivity. Qed.

(** X4. A record that holds no value for any field of the section,
    a missing key or a stored None, scores 0/0, and its tier is
    "mixed", whatever the medians are. *)
Theorem empty_record_scores_nothing (ids : list string) (sd md : dict) :
  Forall (fun f => dict_get sd f = None) ids ->
  calculate_section_score ids sd md = (0, 0)%Z
  /\ (let '(above, total) := calculate_section_score ids sd md in
      get_score_chip_class above total = "mixed").
Proof.
  intros H.
  assert (E : calculate_section_score ids sd md = (0, 0)%Z).
  { rewrite calculate_section_score_counts. unfold count_of.
    assert (N : forall p, filter (fun f => counted sd md f && p f) ids = []).
    { intros p. induction H as [|f ids Hf _ IH]; simpl; [reflexivity|].
      unfold counted at 1. rewrite Hf. simpl.
      destruct (negb (is_none (threshold_indicator f))); simpl; exact IH. }
    rewrite N.
    replace (filter (counted sd md) ids)
      with (filter (fun f => counted sd md f && true) ids)
      by (apply filter_ext; intros f; apply andb_true_r).
    now rewrite N. }
  rewrite E. split; reflexivity.
Qed.

Lemma empty_record_scores_nothing_witness :
  calculate_section_score ["leverage_ratio"; "current_ratio"]
    [("leverage_ratio", None)] [("leverage_ratio", Some 2%float)]
  = (0, 0)%Z.
Proof.
  refine (proj1 (empty_record_scores_nothing
                   ["leverage_ratio"; "current_ratio"]
                   [("leverage_ratio", None)]
                   [("leverage_ratio", Some 2%float)] _)).
  repeat constructor.
Defined.

(** ** Peer medians: further properties *)

Lemma sort_length (l : list float) : List.length (sort l) = List.length l.
Proof. symmetry. apply Permutation_length, sort_perm. Qed.

Lemma clean_values_nil (values : list (option float)) :
  clean_values values = [] <-> Forall (fun o => is_missing o = true) values.
Proof.
  induction values as [|[v|] rest IH]; simpl.
  - split; auto.
  - destruct (isnan v) eqn:E.
    + rewrite IH. split; [intros H; constructor; auto|].
      intros H. now inversion H.
    + split; [discriminate|]. intros H. inversion H as [|? ? Hv _]; subst.
      simpl in Hv. congruence.
  - rewrite IH. split; [intros H; constructor; auto|].
    intros H. now inversion H.
Qed.

(** X5. [calculate_median] returns None exactly when every entry is
    absent (None or NaN); with at least one present number it returns
    a number. *)
Theorem median_none_iff_all_absent (values : list (option float)) :
  calculate_median values = None
  <-> Forall (fun o => is_missing o = true) values.
Proof.
  rewrite <- clean_values_nil, median_of_sorted. cbv zeta.
  pose proof (sort_length (clean_values values)) as L.
  destruct (sort (clean_values values)) as [|a s];
    destruct (clean_values values) as [|b c]; simpl in L; try discriminate.
  - tauto.
  - split; [|discriminate].
    destruct (Nat.even (List.length (a :: s))); discriminate.
Qed.

Lemma clean_values_in (values : list (option float)) (x : float) :
  In x (clean_values values) <-> In (Some x) values /\ isnan x = false.
Proof.
  induction values as [|[v|] rest IH]; simpl.
  - tauto.
  - destruct (isnan v) eqn:E; simpl; rewrite IH; split.
    + tauto.
    + intros [[[= ->]|H] Hx]; [congruence | tauto].
    + intros [->|[H Hx]]; auto.
    + intros [[[= ->]|H] Hx]; auto.
  - rewrite IH. split; [tauto|]. intros [[H|H] Hx]; [discriminate | tauto].
Qed.

(** X6. With an odd number of present entries the median is one of
    the entries of the input, and it is not NaN. *)
Theorem odd_median_is_an_entry (values : list (option float)) (x : float) :
  Nat.odd (List.length (clean_values values)) = true ->
  calculate_median values = Some x ->
  In (Some x) values /\ isnan x = false.
Proof.
  intros Hodd. rewrite median_of_sorted. cbv zeta.
  rewrite <- (sort_length (clean_values values)) in Hodd.
  set (s := sort (clean_values values)) in *.
  destruct s as [|a s'] eqn:Es; [discriminate|].
  rewrite <- Nat.negb_odd, Hodd. cbn [negb]. intros H.
  assert (Hx : x = nth (List.length (a :: s') / 2) (a :: s') 0%float)
    by congruence.
  clear H. apply clean_values_in.
  apply (Permutation_in _ (Permutation_sym (sort_perm (clean_values values)))).
  fold s. rewrite Es, Hx. apply nth_In.
  apply Nat.div_lt; cbn [List.length]; lia.
Qed.

Lemma odd_median_is_an_entry_witness :
  In (Some 2%float) [Some 3%float; None; Some 1%float; Some nan; Some 2%float]
  /\ isnan 2%float = false.
Proof.
  exact (odd_median_is_an_entry
           [Some 3%float; None; Some 1%float; Some nan; Some 2%float]
           2%float eq_refl eq_refl).
Defined.

(** X7. Only the present entries and their order matter to the
    median: two lists that agree once their None and NaN entries are
    dropped have the same median. *)
Theorem median_ignores_absent (l1 l2 : list (option float)) :
  filter (fun o => negb (is_missing o)) l1
  = filter (fun o => negb (is_missing o)) l2 ->
  calculate_median l1 = calculate_median l2.
Proof.
  rewrite <- !clean_values_filter. intros H.
  assert (E : clean_values l1 = clean_values l2).
  { revert H. generalize (clean_values l1) (clean_values l2).
    induction l as [|a l IH]; intros [|b l']; simpl; try discriminate; auto.
    intros [= -> H]. f_equal. auto. }
  unfold calculate_median. now rewrite E.
Qed.

Lemma median_ignores_absent_witness :
  calculate_median [None; Some 4%float; Some nan; Some 1%float]
  = calculate_median [Some 4%float; Some 1%float; None].
Proof.
  exact (median_ignores_absent [None; Some 4%float; Some nan; Some 1%float]
           [Some 4%float; Some 1%float; None] eq_refl).
Defined.

(** ** Peer medians of a dataset *)

Lemma dict_get_set (d : dict) (k k' : string) (v : option float) :
  dict_get (dict_set d k v) k'
  = if String.eqb k' k then v else dict_get d k'.
Proof.
  induction d as [|[k0 v0] d IH]; simpl.
  - reflexivity.
  - destruct (String.eqb_spec k k0) as [->|Hk]; simpl.
    + destruct (String.eqb k' k0); reflexivity.
    + rewrite IH. destruct (String.eqb_spec k' k0) as [->|Hk0].
      * destruct (String.eqb_spec k0 k); [congruence | reflexivity].
      * reflexivity.
Qed.

Lemma medians_loop_get (rows : list row) (fields : list string)
  (acc : dict) (f : string) :
  dict_get
    (fold_left
       (fun medians field_id =>
          dict_set medians field_id
            (calculate_median (map (fun r => row_get r field_id) rows)))
       fields acc) f
  = if str_in f fields
    then calculate_median (map (fun r => row_get r f) rows)
    else dict_get acc f.
Proof.
  revert acc. induction fields as [|g fields IH]; intros acc; simpl;
    [reflexivity|].
  rewrite IH, dict_get_set. unfold str_in.
  destruct (existsb (String.eqb f) fields); simpl.
  - now rewrite orb_true_r.
  - rewrite orb_false_r.
    destruct (String.eqb_spec f g) as [->|]; reflexivity.
Qed.

(** X8. Looking a field up in the result of [compute_medians] gives
    the median of that field's column over all rows when the field is
    one of the data fields, and None for any other key. *)
Theorem compute_medians_lookup (rows : list row) (f : string) :
  dict_get (compute_medians rows) f
  = if str_in f Config.DATA_FIELDS
    then calculate_median (map (fun r => row_get r f) rows)
    else None.
Proof. unfold compute_medians. now rewrite medians_loop_get. Qed.

(** ** The renderer on what it has nothing to fill in *)

Lemma filter_idem {A} (p : A -> bool) (l : list A) :
  filter p (filter p l) = filter p l.
Proof.
  induction l as [|x l IH]; simpl; [reflexivity|].
  destruct (p x) eqn:E; simpl; [rewrite E|]; now rewrite ?IH.
Qed.

Lemma card_classes_filter (l : list string) (c : string) :
  In c ["good"; "mixed"; "poor"] ->
  filter
    (fun x => negb (str_in x ["status-good"; "status-mixed"; "status-poor"]))
    (card_classes l c)
  = filter
      (fun x => negb (str_in x ["status-good"; "status-mixed"; "status-poor"]))
      l.
Proof.
  intros Hc. unfold card_classes. cbv zeta.
  rewrite filter_app, filter_idem.
  simpl in Hc. destruct Hc as [<-|[<-|[<-|[]]]]; apply app_nil_r.
Qed.

(** X9. Rendering a card again replaces its status class: the class
    list after a render with tier [c1] and then a render with tier [c2]
    is the class list after the render with [c2] alone, so a card never
    collects two status classes; its other classes keep their order. *)
Theorem card_status_is_replaced (l : list string) (c1 c2 : string) :
  In c1 ["good"; "mixed"; "poor"] ->
  card_classes (card_classes l c1) c2 = card_classes l c2.
Proof.
  intros H. unfold card_classes at 1 3. cbv zeta.
  now rewrite (card_classes_filter l c1 H).
Qed.

Lemma card_status_is_replaced_witness :
  card_classes (card_classes ["card"; "status-poor"; "wide"] "good") "mixed"
  = ["card"; "wide"; "status-mixed"].
Proof.
  refine (eq_trans (card_status_is_replaced ["card"; "status-poor"; "wide"]
                      "good" "mixed" _) _).
  - simpl. auto.
  - reflexivity.
Defined.

Section PlainDocuments.

Variable p : selector.

(** The selector accepts no element a plain document can hold. *)
Hypothesis p_misses :
  forall name a,
    str_in name ["title"; "body"; "link"; "script"; "a"] = false ->
    attr_get a "id" = None -> p name a = false.

Lemma find_plain_node (n : node) : plain n = true -> find_node p n = None.
Proof.
  induction n as [s|name a kids IH] using node_induction; [reflexivity|].
  intros H. cbn [plain] in H.
  apply andb_true_iff in H. destruct H as [H Hk].
  apply andb_true_iff in H. destruct H as [Hn Ha].
  apply negb_true_iff in Hn.
  rewrite find_node_tag, (p_misses name a Hn)
    by (destruct (attr_get a "id"); [discriminate | reflexivity]).
  generalize 0%nat. induction IH as [|k l Hk' _ IHl]; intros i;
    [reflexivity|].
  cbn [forallb] in Hk. apply andb_true_iff in Hk. destruct Hk as [Hk1 Hk2].
  cbn [find_from]. rewrite (Hk' Hk1). now apply IHl.
Qed.

Lemma find_plain (doc : soup) : forallb plain doc = true -> find p doc = None.
Proof.
  unfold find. generalize 0%nat. induction doc as [|k l IH]; intros i H;
    [reflexivity|].
  cbn [forallb] in H. apply andb_true_iff in H. destruct H as [H1 H2].
  cbn [find_from]. rewrite (find_plain_node k H1). now apply IH.
Qed.

End PlainDocuments.

Lemma named_misses (t : string) :
  In t ["title"; "body"] ->
  forall name (a : attrs),
    str_in name ["title"; "body"; "link"; "script"; "a"] = false ->
    attr_get a "id" = None -> named t name a = false.
Proof.
  intros Ht name a Hn _. unfold named.
  destruct (String.eqb_spec name t) as [->|]; [|reflexivity].
  simpl in Ht. destruct Ht as [<-|[<-|[]]]; discriminate.
Qed.

Lemma has_id_misses (x : string) :
  forall name (a : attrs),
    str_in name ["title"; "body"; "link"; "script"; "a"] = false ->
    attr_get a "id" = None -> has_id x name a = false.
Proof. intros name a _ Ha. unfold has_id. now rewrite Ha. Qed.

Lemma map_tags_plain (f : string -> attrs -> attrs) (n : node) :
  (forall name a,
     str_in name ["title"; "body"; "link"; "script"; "a"] = false ->
     f name a = a) ->
  plain n = true -> map_tags f n = n.
Proof.
  intros Hf. induction n as [s|name a kids IH] using node_induction;
    [reflexivity|].
  intros H. cbn [plain] in H.
  apply andb_true_iff in H. destruct H as [H Hk].
  apply andb_true_iff in H. destruct H as [Hn _].
  apply negb_true_iff in Hn. cbn [map_tags]. rewrite (Hf name a Hn).
  f_equal. induction IH as [|k l Hk' _ IHl]; [reflexivity|].
  cbn [forallb] in Hk. apply andb_true_iff in Hk. destruct Hk as [Hk1 Hk2].
  cbn [map]. now rewrite (Hk' Hk1), IHl.
Qed.

Lemma map_tags_plain_doc (f : string -> attrs -> attrs) (doc : soup) :
  (forall name a,
     str_in name ["title"; "body"; "link"; "script"; "a"] = false ->
     f name a = a) ->
  forallb plain doc = true -> map (map_tags f) doc = doc.
Proof.
  intros Hf. induction doc as [|k l IH]; intros H; [reflexivity|].
  cbn [forallb] in H. apply andb_true_iff in H. destruct H as [H1 H2].
  cbn [map]. now rewrite (map_tags_plain f k Hf H1), IH.
Qed.

Lemma fix_tags_skip (asset_prefix name : string) (a : attrs) :
  str_in name ["title"; "body"; "link"; "script"; "a"] = false ->
  fix_link asset_prefix name a = a
  /\ fix_script asset_prefix name a = a
  /\ fix_anchor asset_prefix name a = a.
Proof.
  intros H. unfold fix_link, fix_script, fix_anchor.
  cbn [str_in existsb] in H.
  repeat (apply orb_false_iff in H; destruct H as [? H]).
  repeat match goal with E : String.eqb name _ = false |- _ =>
    rewrite E; clear E end.
  auto.
Qed.

Lemma for_each_unchanged {A B} (body : B -> A -> M B) (l : list A) (b : B)
  (st : Store) :
  (forall x, body b x st = (b, st)) -> for_each l body b st = (b, st).
Proof.
  intros H. induction l as [|x l IH]; [reflexivity|].
  cbn [for_each]. unfold bind. now rewrite H.
Qed.

(** X10. A template with no placeholder at all comes back unchanged:
    when no element of the document carries an [id] or is a [title],
    [body], [link], [script] or [a] element, [render_html] hands the
    parsed document to the printer as it is, for every symbol, record,
    medians and prefix. *)
Theorem render_leaves_plain_document (doc : soup) (symbol : string)
  (stock_data medians : ref) (asset_prefix : string) (st : Store) :
  forallb plain doc = true ->
  render_soup doc symbol stock_data medians asset_prefix st = (doc, st).
Proof.
  intros H.
  assert (Ht : find (named "title") doc = None)
    by (apply find_plain; [apply named_misses; simpl; auto | exact H]).
  assert (Hb : find (named "body") doc = None)
    by (apply find_plain; [apply named_misses; simpl; auto | exact H]).
  assert (Hid : forall x, find (has_id x) doc = None)
    by (intros x; apply find_plain; [apply has_id_misses | exact H]).
  unfold render_soup, set_title_and_header, set_title, set_header, mark_body.
  rewrite Ht. cbn [mutate]. rewrite Hid. cbn [mutate]. rewrite Hb.
  cbn [mutate].
  assert (Hl : map (map_tags (fix_link asset_prefix)) doc = doc)
    by (apply map_tags_plain_doc;
        [intros name a Hn; apply (fix_tags_skip _ _ a Hn) | exact H]).
  assert (Hs : map (map_tags (fix_script asset_prefix)) doc = doc)
    by (apply map_tags_plain_doc;
        [intros name a Hn; apply (fix_tags_skip _ _ a Hn) | exact H]).
  assert (Ha : map (map_tags (fix_anchor asset_prefix)) doc = doc)
    by (apply map_tags_plain_doc;
        [intros name a Hn; apply (fix_tags_skip _ _ a Hn) | exact H]).
  unfold rewrite_assets. cbv zeta. rewrite Hl, Hs, Ha.
  unfold bind.
  rewrite for_each_unchanged.
  - apply for_each_unchanged. intros f.
    cbv [bind get_item ret]. unfold render_metric.
    rewrite Hid. cbn [mutate]. now rewrite Hid.
  - intros [sid fids]. cbv [bind load ret].
    destruct (calculate_section_score fids _ _) as [above total].
    unfold add_section_chip. rewrite Hid.
    unfold update_scorecard. now rewrite !Hid.
Qed.

Lemma render_leaves_plain_document_witness :
  render_soup [Tag "div" [("class", AList ["note"])] [Text "closed"]]
    "AAPL" 0 0 "../" [[("peg", Some 1%float)]]
  = ([Tag "div" [("class", AList ["note"])] [Text "closed"]],
     [[("peg", Some 1%float)]]).
Proof.
  exact (render_leaves_plain_document
           [Tag "div" [("class", AList ["note"])] [Text "closed"]]
           "AAPL" 0%nat 0%nat "../" [[("peg", Some 1%float)]] eq_refl).
Defined.

(** X11. The width of a score bar stays between 0% and 100%: for a
    section of at most a hundred fields (the six sections of the module
    have at most eight), the percentage [above / total * 100.0], or
    [0.0] when [total] is 0, computed from the section's score lies in
    [0, 100]. *)
Theorem score_bar_within_bounds (ids : list string) (sd md : dict) :
  (List.length ids <= 100)%nat ->
  let '(above, total) := calculate_section_score ids sd md in
  let pct :=
    if (0 <? total)%Z then (int_truediv above total * 100)%float
    else 0%float in
  fle 0 pct = true /\ fle pct 100 = true.
Proof.
  intros Hlen. pose proof (section_score_bounds ids sd md) as B.
  destruct (calculate_section_score ids sd md) as [above total].
  destruct B as (B1 & B2 & B3). cbv zeta.
  assert (Hall :
    forallb (fun t =>
      forallb (fun a =>
        let pct :=
          if (0 <? Z.of_nat t)%Z
          then (int_truediv (Z.of_nat a) (Z.of_nat t) * 100)%float
          else 0%float in
        fle 0 pct && fle pct 100)
        (seq 0 (S t)))
      (seq 0 101) = true) by (vm_compute; reflexivity).
  rewrite forallb_forall in Hall.
  specialize (Hall (Z.to_nat total)).
  rewrite forallb_forall in Hall.
  specialize (Hall ltac:(apply in_seq; lia) (Z.to_nat above)
                ltac:(apply in_seq; lia)).
  cbv zeta in Hall. rewrite !Z2Nat.id in Hall by lia.
  now apply andb_true_iff in Hall.
Qed.

Lemma score_bar_within_bounds_witness :
  fle 0 (int_truediv 1 2 * 100)%float = true
  /\ fle (int_truediv 1 2 * 100)%float 100 = true.
Proof.
  exact (score_bar_within_bounds ["leverage_ratio"; "interest_coverage_ratio"]
           [("leverage_ratio", Some 1%float);
            ("interest_coverage_ratio", Some 5%float)]
           [("leverage_ratio", Some 2%float);
            ("interest_coverage_ratio", Some 5%float)]
           ltac:(cbn; lia)).
Defined.

(** ** File names *)

Lemma allowed_char_facts (c : ascii) :
  allowed c = true ->
  py_isspace c = false
  /\ py_upper_char c = String c ""
  /\ Ascii.eqb c ":" = false
  /\ Ascii.eqb c "/" = false
  /\ Ascii.eqb c "\" = false.
Proof.
  destruct c as [[] [] [] [] [] [] [] []]; intros H;
    try discriminate H; repeat split.
Qed.

Lemma keep_chars_all (p : ascii -> bool) (s : string) :
  all_chars p (keep_chars p s) = true.
Proof.
  induction s as [|c s IH]; simpl; [reflexivity|].
  destruct (p c) eqn:E; simpl; [now rewrite E|exact IH].
Qed.

Lemma keep_chars_id (p : ascii -> bool) (s : string) :
  all_chars p s = true -> keep_chars p s = s.
Proof.
  induction s as [|c s IH]; simpl; [reflexivity|].
  intros H. apply andb_true_iff in H. destruct H as [-> H].
  now rewrite IH.
Qed.

(** X12. The file name of a symbol is never empty and holds only
    capital letters, digits, hyphens, dots and underscores, whatever
    the symbol is. *)
Theorem sanitized_name_is_safe (symbol : string) :
  sanitize_symbol_for_filename symbol <> ""
  /\ all_chars allowed (sanitize_symbol_for_filename symbol) = true.
Proof.
  unfold sanitize_symbol_for_filename. cbv zeta.
  match goal with
  | |- context [keep_chars allowed ?t] =>
      pose proof (keep_chars_all allowed t) as H;
      destruct (keep_chars allowed t) as [|c r]
  end; simpl is_empty; cbv iota.
  - split; [discriminate | reflexivity].
  - split; [discriminate | exact H].
Qed.

Section SafeNames.

Variable s : string.
Hypothesis s_allowed : all_chars allowed s = true.

Lemma safe_no_space : all_chars (fun c => negb (py_isspace c)) s = true.
Proof.
  revert s_allowed. induction s as [|c r IH]; simpl; [reflexivity|].
  intros H. apply andb_true_iff in H. destruct H as [Hc H].
  destruct (allowed_char_facts c Hc) as (-> & _). simpl. auto.
Qed.

Lemma safe_upper : upper s = s.
Proof.
  revert s_allowed. induction s as [|c r IH]; simpl; [reflexivity|].
  intros H. apply andb_true_iff in H. destruct H as [Hc H].
  destruct (allowed_char_facts c Hc) as (_ & -> & _). simpl. now rewrite IH.
Qed.

Lemma safe_replace :
  replace_char ":" "-" s = s /\ replace_char "/" "-" s = s
  /\ replace_char "\" "-" s = s.
Proof.
  revert s_allowed. induction s as [|c r IH]; simpl; [auto|].
  intros H. apply andb_true_iff in H. destruct H as [Hc H].
  destruct (allowed_char_facts c Hc) as (_ & _ & -> & -> & ->).
  destruct (IH H) as (-> & -> & ->). auto.
Qed.

End SafeNames.

Lemma lstrip_no_space (s : string) :
  all_chars (fun c => negb (py_isspace c)) s = true -> lstrip s = s.
Proof.
  destruct s as [|c r]; simpl; [reflexivity|].
  intros H. apply andb_true_iff in H. destruct H as [Hc _].
  apply negb_true_iff in Hc. now rewrite Hc.
Qed.

Lemma rstrip_no_space (s : string) :
  all_chars (fun c => negb (py_isspace c)) s = true -> rstrip s = s.
Proof.
  induction s as [|c r IH]; simpl; [reflexivity|].
  intros H. apply andb_true_iff in H. destruct H as [Hc H].
  apply negb_true_iff in Hc. rewrite (IH H), Hc. now destruct r.
Qed.

Lemma split_ws_no_space (s : string) :
  s <> "" -> all_chars (fun c => negb (py_isspace c)) s = true ->
  split_ws s = [s].
Proof.
  induction s as [|c r IH]; [congruence|]. intros _ H.
  cbn [all_chars] in H. apply andb_true_iff in H. destruct H as [Hc H].
  apply negb_true_iff in Hc. cbn [split_ws]. rewrite Hc.
  destruct r as [|d r']; [reflexivity|].
  assert (Hd : py_isspace d = false).
  { cbn [all_chars] in H. apply andb_true_iff in H.
    now apply negb_true_iff. }
  rewrite Hd, (IH ltac:(discriminate) H). reflexivity.
Qed.

(** A safe name is its own file name. *)
Lemma sanitize_safe_name (s : string) :
  s <> "" -> all_chars allowed s = true ->
  sanitize_symbol_for_filename s = s.
Proof.
  intros Hne Hs. unfold sanitize_symbol_for_filename, strip. cbv zeta.
  pose proof (safe_no_space s Hs) as Hn.
  rewrite (lstrip_no_space s Hn), (rstrip_no_space s Hn), (safe_upper s Hs).
  destruct (safe_replace s Hs) as (-> & -> & ->).
  rewrite (split_ws_no_space s Hne Hn). cbn [join].
  rewrite (keep_chars_id allowed s Hs).
  destruct s; [congruence | reflexivity].
Qed.

(** X13. The names [sanitize_symbol_for_filename] leaves as they are
    are exactly the safe ones, non-empty and made of allowed characters
    only; so sanitising a file name again changes nothing. *)
Theorem sanitize_fixed_points (s : string) :
  (sanitize_symbol_for_filename s = s
   <-> s <> "" /\ all_chars allowed s = true)
  /\ sanitize_symbol_for_filename (sanitize_symbol_for_filename s)
     = sanitize_symbol_for_filename s.
Proof.
  split; [split|].
  - intros E. rewrite <- E. apply sanitized_name_is_safe.
  - intros [Hne Hs]. now apply sanitize_safe_name.
  - destruct (sanitized_name_is_safe s) as [Hne Hs].
    now apply sanitize_safe_name.
Qed.

Lemma sanitize_fixed_points_witness :
  sanitize_symbol_for_filename "BRK.B-US" = "BRK.B-US".
Proof.
  apply (proj2 (proj1 (sanitize_fixed_points "BRK.B-US"))).
  split; [discriminate | vm_compute; reflexivity].
Defined.

(** ** Matching a symbol to a row *)

(** X14. [find_stock_row] returns the first row whose symbol has the
    base ticker of the query (the part before the first colon of the
    stripped, upper-cased text): the exact comparison it makes first
    never changes the outcome, so a row with the same base wins over a
    later row that equals the query. *)
Theorem find_stock_row_is_first_same_base (rows : list row) (symbol : string) :
  find_stock_row rows symbol
  = List.find (has_base (base_ticker (upper (strip symbol)))) rows.
Proof.
  unfold find_stock_row. cbv zeta.
  induction rows as [|r rows IH]; [reflexivity|].
  cbn [find_stock_row_loop List.find]. unfold has_base at 1.
  destruct (row_symbol r) as [rs|]; [|exact IH]. cbv zeta.
  destruct (String.eqb_spec (upper (strip rs)) (upper (strip symbol)))
    as [->|_].
  - now rewrite String.eqb_refl.
  - destruct (String.eqb _ _); [reflexivity | exact IH].
Qed.

(** X15. What [find_stock_row] returns is a row of the dataset with
    the base ticker of the query, and it returns None exactly when no
    row with a text symbol has that base ticker. *)
Theorem find_stock_row_sound_complete (rows : list row) (symbol : string) :
  let b := base_ticker (upper (strip symbol)) in
  (forall r, find_stock_row rows symbol = Some r ->
     In r rows /\ has_base b r = true)
  /\ (find_stock_row rows symbol = None
      <-> forall r, In r rows -> has_base b r = false).
Proof.
  cbv zeta. rewrite find_stock_row_is_first_same_base. split.
  - intros r H. now apply find_some in H.
  - split.
    + intros H r Hr. exact (find_none _ _ H r Hr).
    + intros H. destruct (List.find _ rows) as [r|] eqn:E; [|reflexivity].
      apply find_some in E. destruct E as [Hr Hb].
      rewrite (H r Hr) in Hb. discriminate.
Qed.

Lemma find_stock_row_sound_complete_witness :
  In (mkRow (Some "aapl:us") []) [mkRow None []; mkRow (Some "aapl:us") []]
  /\ has_base (base_ticker (upper (strip " AAPL ")))
       (mkRow (Some "aapl:us") []) = true.
Proof.
  apply (proj1 (find_stock_row_sound_complete
                  [mkRow None []; mkRow (Some "aapl:us") []] " AAPL ")).
  vm_compute. reflexivity.
Defined.

(** X16. Two queries with the same base ticker get the same answer:
    a record stored as AAPL:US is what both AAPL and AAPL:US find. *)
Theorem same_base_same_row (rows : list row) (q1 q2 : string) :
  base_ticker (upper (strip q1)) = base_ticker (upper (strip q2)) ->
  find_stock_row rows q1 = find_stock_row rows q2.
Proof.
  intros H. rewrite !find_stock_row_is_first_same_base. now rewrite H.
Qed.

Lemma same_base_same_row_witness :
  find_stock_row [mkRow (Some "MSFT") []; mkRow (Some "AAPL:US") []] "aapl"
  = find_stock_row [mkRow (Some "MSFT") []; mkRow (Some "AAPL:US") []]
      "AAPL:US".
Proof.
  apply same_base_same_row. vm_compute. reflexivity.
Defined.

(** ** Normalising a symbol: [strip] and [upper] *)

Lemma upper_char_facts (c : ascii) :
  upper (py_upper_char c) = py_upper_char c
  /\ (py_isspace c = true -> py_upper_char c = String c "")
  /\ (py_isspace c = false ->
      all_chars (fun d => negb (py_isspace d)) (py_upper_char c) = true
      /\ py_upper_char c <> "").
Proof.
  destruct c as [[] [] [] [] [] [] [] []];
    (split; [reflexivity|]); split; intros H;
    try discriminate H; try reflexivity;
    (split; [reflexivity | discriminate]).
Qed.

Lemma upper_app (a b : string) : upper (a ++ b) = upper a ++ upper b.
Proof.
  induction a as [|c a IH]; simpl; [reflexivity|].
  rewrite IH. induction (py_upper_char c) as [|d u IHu]; simpl;
    [reflexivity | now rewrite IHu].
Qed.

Lemma upper_idem (s : string) : upper (upper s) = upper s.
Proof.
  induction s as [|c s IH]; simpl; [reflexivity|].
  rewrite upper_app, IH. now destruct (upper_char_facts c) as [-> _].
Qed.

Lemma upper_empty (s : string) : upper s = "" -> s = "".
Proof.
  destruct s as [|c s]; [reflexivity|]. simpl. intros H.
  destruct (py_isspace c) eqn:E.
  - destruct (upper_char_facts c) as (_ & Hs & _).
    rewrite (Hs E) in H. discriminate.
  - destruct (upper_char_facts c) as (_ & _ & Hn).
    destruct (Hn E) as [_ Hne]. destruct (py_upper_char c); [congruence|].
    discriminate.
Qed.

Lemma lstrip_app_clean (u t : string) :
  u <> "" -> all_chars (fun d => negb (py_isspace d)) u = true ->
  lstrip (u ++ t) = u ++ t.
Proof.
  destruct u as [|d u]; [congruence|]. intros _ H. simpl in *.
  apply andb_true_iff in H. destruct H as [Hd _].
  apply negb_true_iff in Hd. now rewrite Hd.
Qed.

Lemma rstrip_app_clean (u t : string) :
  all_chars (fun d => negb (py_isspace d)) u = true ->
  rstrip (u ++ t) = u ++ rstrip t.
Proof.
  induction u as [|d u IH]; intros H; [reflexivity|].
  simpl in *. apply andb_true_iff in H. destruct H as [Hd H].
  apply negb_true_iff in Hd. rewrite (IH H), Hd.
  destruct (u ++ rstrip t); reflexivity.
Qed.

Lemma lstrip_upper (s : string) : lstrip (upper s) = upper (lstrip s).
Proof.
  induction s as [|c s IH]; [reflexivity|].
  cbn [upper lstrip]. destruct (py_isspace c) eqn:E.
  - destruct (upper_char_facts c) as (_ & Hs & _). rewrite (Hs E).
    simpl. now rewrite E.
  - destruct (upper_char_facts c) as (_ & _ & Hn).
    destruct (Hn E) as [Hall Hne]. cbn [upper].
    now apply lstrip_app_clean.
Qed.

Lemma rstrip_upper (s : string) : rstrip (upper s) = upper (rstrip s).
Proof.
  induction s as [|c s IH]; [reflexivity|].
  cbn [upper rstrip]. destruct (py_isspace c) eqn:E.
  - destruct (upper_char_facts c) as (_ & Hs & _). rewrite (Hs E).
    cbn [append rstrip]. rewrite IH, E.
    destruct (rstrip s) as [|d r] eqn:R; [reflexivity|].
    change (upper (String c (String d r)))
      with (py_upper_char c ++ upper (String d r)).
    rewrite (Hs E).
    destruct (upper (String d r)) eqn:U; [|reflexivity].
    apply upper_empty in U. discriminate.
  - destruct (upper_char_facts c) as (_ & _ & Hn).
    destruct (Hn E) as [Hall Hne].
    rewrite (rstrip_app_clean _ _ Hall), IH.
    destruct (rstrip s) as [|d r]; reflexivity.
Qed.

Lemma strip_upper (s : string) : strip (upper s) = upper (strip s).
Proof. unfold strip. now rewrite lstrip_upper, rstrip_upper. Qed.

Lemma lstrip_clean_start (s : string) : clean_start (lstrip s).
Proof.
  induction s as [|c s IH]; simpl; [exact I|].
  destruct (py_isspace c) eqn:E; [exact IH | exact E].
Qed.

Lemma lstrip_of_clean_start (s : string) : clean_start s -> lstrip s = s.
Proof. destruct s as [|c s]; simpl; [reflexivity|]. now intros ->. Qed.

Lemma rstrip_clean_start (s : string) :
  clean_start s -> clean_start (rstrip s).
Proof.
  destruct s as [|c s]; simpl; [auto|]. intros E. rewrite E.
  destruct (rstrip s); exact E.
Qed.

Lemma rstrip_idem (s : string) : rstrip (rstrip s) = rstrip s.
Proof.
  induction s as [|c s IH]; [reflexivity|]. cbn [rstrip].
  destruct (rstrip s) as [|d r] eqn:R.
  - destruct (py_isspace c) eqn:E; [reflexivity|]. simpl. now rewrite E.
  - cbn [rstrip]. cbn [rstrip] in IH.
    destruct (match rstrip r with
              | "" => if py_isspace d then "" else String d ""
              | String a s0 => String d (String a s0)
              end) eqn:Q; [discriminate IH|].
    now rewrite IH.
Qed.

Lemma strip_idem (s : string) : strip (strip s) = strip s.
Proof.
  unfold strip.
  rewrite (lstrip_of_clean_start _
             (rstrip_clean_start _ (lstrip_clean_start s))).
  apply rstrip_idem.
Qed.

(** The normal form of a symbol, [s.strip().upper()], is its own
    normal form. *)
Lemma normalise_idem (s : string) :
  upper (strip (upper (strip s))) = upper (strip s).
Proof. now rewrite strip_upper, strip_idem, upper_idem. Qed.

(** X17. Normalising a symbol first changes nothing downstream: the
    row found for [symbol.strip().upper()] is the row found for the
    symbol, and its file name is the file name of the symbol.  The batch
    loop, which normalises each symbol before it hands it on, therefore
    looks up and names a page as a direct call would. *)
Theorem normalised_symbol_is_equivalent (rows : list row) (symbol : string) :
  find_stock_row rows (upper (strip symbol)) = find_stock_row rows symbol
  /\ sanitize_symbol_for_filename (upper (strip symbol))
     = sanitize_symbol_for_filename symbol.
Proof.
  split.
  - apply same_base_same_row. now rewrite normalise_idem.
  - unfold sanitize_symbol_for_filename. now rewrite normalise_idem.
Qed.

(** ** Batch mode: the list of symbols *)

Lemma str_in_In (x : string) (l : list string) :
  str_in x l = true <-> In x l.
Proof.
  unfold str_in. rewrite existsb_exists. split.
  - intros [y [Hy E]]. apply String.eqb_eq in E. now subst.
  - intros H. exists x. split; [exact H | apply String.eqb_refl].
Qed.

Lemma is_empty_true (s : string) : is_empty s = true <-> s = "".
Proof. destruct s; simpl; split; congruence. Qed.

Lemma unique_loop_acc (l seen u : list string) :
  unique_loop l seen u = (u ++ unique_loop l seen [])%list.
Proof.
  revert seen u. induction l as [|s l IH]; intros seen u; simpl.
  - now rewrite app_nil_r.
  - destruct (is_empty _ || str_in _ seen); [apply IH|].
    rewrite (IH _ (u ++ _)%list), (IH _ [_]). now rewrite <- app_assoc.
Qed.

Lemma unique_loop_in (l seen : list string) (k : string) :
  In k (unique_loop l seen [])
  <-> k <> "" /\ ~ In k seen /\ exists s, In s l /\ k = upper (strip s).
Proof.
  revert seen. induction l as [|s l IH]; intros seen; simpl.
  - split; [tauto|]. intros (_ & _ & s & [] & _).
  - destruct (is_empty (upper (strip s)) || str_in (upper (strip s)) seen)
      eqn:E.
    + rewrite IH. apply orb_true_iff in E.
      split; intros (Hk & Hs & s' & Hin & ->); repeat split; auto.
      * eauto.
      * destruct Hin as [<-|Hin]; [|eauto]. exfalso.
        destruct E as [E|E];
          [apply is_empty_true in E | apply str_in_In in E]; auto.
    + apply orb_false_iff in E. destruct E as [E1 E2].
      assert (Hne : upper (strip s) <> "")
        by (intros H; apply is_empty_true in H; congruence).
      assert (Hns : ~ In (upper (strip s)) seen)
        by (intros H; apply str_in_In in H; congruence).
      rewrite unique_loop_acc. cbn [app In]. rewrite IH. cbn [In]. split.
      * intros [<-|(Hk & Hs & s' & Hin & ->)]; repeat split; eauto.
      * intros (Hk & Hs & s' & [<-|Hin] & ->); [now left|].
        destruct (String.eqb_spec (upper (strip s)) (upper (strip s')))
          as [Heq|Hneq]; [now left|].
        right. repeat split; eauto. intros [H|H]; auto.
Qed.

Lemma unique_loop_nodup (l seen : list string) :
  NoDup (unique_loop l seen []).
Proof.
  revert seen. induction l as [|s l IH]; intros seen; simpl;
    [constructor|].
  destruct (is_empty _ || str_in _ seen); [apply IH|].
  rewrite unique_loop_acc. cbn [app]. constructor; [|apply IH].
  rewrite unique_loop_in. cbn [In]. tauto.
Qed.

Lemma unique_loop_prefix (l1 l2 seen : list string) :
  exists more,
    unique_loop (l1 ++ l2) seen [] = (unique_loop l1 seen [] ++ more)%list.
Proof.
  revert seen. induction l1 as [|s l1 IH]; intros seen; simpl.
  - eexists. reflexivity.
  - destruct (is_empty _ || str_in _ seen); [apply IH|].
    rewrite (unique_loop_acc (l1 ++ l2)), (unique_loop_acc l1).
    destruct (IH (upper (strip s) :: seen)) as [more ->].
    exists more. now rewrite app_assoc.
Qed.

(** X18. The list of symbols a batch run works through holds each
    normalised symbol once: it has no duplicates, it holds exactly the
    non-empty normal forms [s.strip().upper()] of the symbols given, and
    it keeps the order of first appearance, so that symbols added at the
    end of the ranking only add to the end of the list. *)
Theorem unique_symbols_spec (symbols : list string) :
  NoDup (unique_symbols symbols)
  /\ (forall k, In k (unique_symbols symbols)
      <-> k <> "" /\ exists s, In s symbols /\ k = upper (strip s))
  /\ (forall later, exists more,
        unique_symbols (symbols ++ later)
        = (unique_symbols symbols ++ more)%list).
Proof.
  unfold unique_symbols. split; [apply unique_loop_nodup|]. split.
  - intros k. rewrite unique_loop_in. cbn [In]. tauto.
  - intros later. apply unique_loop_prefix.
Qed.

(** ** The sitemap generator: the base URL *)

Lemma prefix_app (p b x : string) :
  String.prefix p b = true -> String.prefix p (b ++ x) = true.
Proof.
  revert b. induction p as [|c p IH]; intros b;
    [now destruct (b ++ x) |].
  destruct b as [|d b]; simpl; [discriminate|].
  destruct (ascii_dec c d); [apply IH | discriminate].
Qed.

Lemma ends_with_char_app (c : ascii) (b : string) :
  ends_with_char c (b ++ String c "") = true.
Proof.
  induction b as [|d b IH]; simpl; [apply Ascii.eqb_refl|].
  destruct (b ++ String c "") eqn:E; [destruct b; discriminate | exact IH].
Qed.

Lemma rstrip_end_clean (t : string) (c : ascii) :
  py_isspace c = false -> rstrip (t ++ String c "") = t ++ String c "".
Proof.
  intros Hc. induction t as [|d t IH]; simpl; [now rewrite Hc|].
  rewrite IH. destruct (t ++ String c "") eqn:E;
    [destruct t; discriminate | reflexivity].
Qed.

Lemma strip_app_end (x : string) (c : ascii) :
  py_isspace c = false ->
  strip (strip x ++ String c "") = strip x ++ String c "".
Proof.
  intros Hc. unfold strip at 1.
  assert (Hs : clean_start (strip x ++ String c "")).
  { pose proof (rstrip_clean_start _ (lstrip_clean_start x)) as H.
    fold (strip x) in H. destruct (strip x); simpl; auto. }
  rewrite (lstrip_of_clean_start _ Hs). now apply rstrip_end_clean.
Qed.

Lemma normalize_of_stripped (b : string) :
  strip b = b -> is_empty b = false ->
  startswith b "http://" || startswith b "https://" = true ->
  ends_with_char "/" b = true ->
  _normalize_base_url (Some b) = Done b.
Proof.
  intros Hb He Hs Hend. unfold _normalize_base_url.
  now rewrite Hb, He, Hs, Hend.
Qed.

(** X19. When [_normalize_base_url] returns, the URL it returns
    begins with http:// or https://, ends with a slash, and is the
    stripped argument with at most one slash added; normalising it again
    returns it unchanged.  It exits exactly when the stripped argument
    is empty or has neither scheme. *)
Theorem normalize_base_url_spec (base_url : option string) :
  let base := strip (match base_url with Some s => s | None => "" end) in
  let has_scheme :=
    startswith base "http://" || startswith base "https://" in
  (forall u, _normalize_base_url base_url = Done u ->
     (startswith u "http://" || startswith u "https://") = true
     /\ ends_with_char "/" u = true
     /\ (u = base \/ u = base ++ "/")
     /\ _normalize_base_url (Some u) = Done u)
  /\ ((exists msg, _normalize_base_url base_url = SystemExit msg)
      <-> base = "" \/ has_scheme = false).
Proof.
  cbv zeta.
  remember (strip match base_url with Some s => s | None => "" end)
    as base eqn:Hb.
  assert (Hunf :
    _normalize_base_url base_url
    = if is_empty base
      then SystemExit "--base-url is required (e.g. https://example.com)"
      else if negb (startswith base "http://" || startswith base "https://")
      then SystemExit "--base-url must start with http:// or https://"
      else if negb (ends_with_char "/" base) then Done (base ++ "/")
      else Done base) by (subst base; reflexivity).
  rewrite Hunf. clear Hunf.
  assert (Hstrip : strip base = base) by (subst base; apply strip_idem).
  destruct (is_empty base) eqn:He.
  { split; [discriminate|]. apply is_empty_true in He.
    split; [auto | eauto]. }
  destruct (startswith base "http://" || startswith base "https://") eqn:Hs;
    cbn [negb].
  2:{ split; [discriminate|]. split; [auto | eauto]. }
  assert (Hne : base <> "") by (intros H; apply is_empty_true in H; congruence).
  split.
  2:{ split.
      - intros [msg H]. destruct (negb (ends_with_char "/" base)); discriminate.
      - intros [H|H]; congruence. }
  intros u. destruct (ends_with_char "/" base) eqn:Hend; cbn [negb];
    intros [= <-].
  - repeat split; auto. now apply normalize_of_stripped.
  - assert (Hs' : startswith (base ++ "/") "http://"
                  || startswith (base ++ "/") "https://" = true).
    { apply orb_true_iff in Hs. apply orb_true_iff. unfold startswith in *.
      destruct Hs as [H|H]; [left | right]; now apply prefix_app. }
    repeat split; auto.
    + apply ends_with_char_app.
    + apply normalize_of_stripped; auto.
      * subst base. now apply strip_app_end.
      * destruct base; [congruence | reflexivity].
      * apply ends_with_char_app.
Qed.

Lemma normalize_base_url_spec_witness :
  _normalize_base_url (Some "https://bayesdemon.com/")
  = Done "https://bayesdemon.com/".
Proof.
  apply (proj1 (normalize_base_url_spec (Some " https://bayesdemon.com "))
           "https://bayesdemon.com/").
  vm_compute. reflexivity.
Defined.

(** ** The sitemap generator: escaping *)

Lemma str_app_assoc (a b c : string) : (a ++ b) ++ c = a ++ (b ++ c).
Proof. induction a as [|d a IH]; simpl; [reflexivity | now rewrite IH]. Qed.

Lemma replace_char_app (c : ascii) (rep a b : string) :
  replace_char c rep (a ++ b) = replace_char c rep a ++ replace_char c rep b.
Proof.
  induction a as [|d a IH]; simpl; [reflexivity|].
  destruct (Ascii.eqb d c); rewrite IH; [|reflexivity].
  symmetry. apply str_app_assoc.
Qed.

Lemma escape_one (c : ascii) :
  _xml_escape (String c "") = escape_char c.
Proof. destruct c as [[] [] [] [] [] [] [] []]; reflexivity. Qed.

Lemma xml_escape_app (a b : string) :
  _xml_escape (a ++ b) = _xml_escape a ++ _xml_escape b.
Proof. unfold _xml_escape. now rewrite !replace_char_app. Qed.

(** X20. The five replacements of [_xml_escape], made one after the
    other, amount to escaping each character of the text on its own:
    an ampersand the function writes for [<], [>] or a quote is never
    escaped a second time. *)
Theorem xml_escape_is_per_character (s : string) :
  _xml_escape s = escape_each s.
Proof.
  induction s as [|c s IH]; [reflexivity|].
  change (String c s) with (String c "" ++ s).
  rewrite xml_escape_app, escape_one, IH. reflexivity.
Qed.

Lemma unescape_one (c : ascii) (r : string) :
  xml_unescape (escape_char c ++ r) = String c (xml_unescape r).
Proof.
  destruct c as [[] [] [] [] [] [] [] []]; try reflexivity.
Qed.

Lemma escape_char_safe (c : ascii) :
  all_chars
    (fun d => negb (Ascii.eqb d "<" || Ascii.eqb d ">" || Ascii.eqb d dquote
                    || Ascii.eqb d apos))
    (escape_char c) = true.
Proof. destruct c as [[] [] [] [] [] [] [] []]; reflexivity. Qed.

Lemma all_chars_app (p : ascii -> bool) (a b : string) :
  all_chars p (a ++ b) = all_chars p a && all_chars p b.
Proof.
  induction a as [|c a IH]; simpl; [reflexivity|].
  now rewrite IH, andb_assoc.
Qed.

(** X21. Escaping loses nothing and leaves nothing raw: reading the
    five entities back gives the text that was escaped, so two different
    texts never have the same escaped form, and the escaped text holds
    no [<], [>], double quote or apostrophe. *)
Theorem xml_escape_round_trip (s : string) :
  xml_unescape (_xml_escape s) = s
  /\ (forall t, _xml_escape s = _xml_escape t -> s = t)
  /\ all_chars
       (fun d => negb (Ascii.eqb d "<" || Ascii.eqb d ">"
                       || Ascii.eqb d dquote || Ascii.eqb d apos))
       (_xml_escape s) = true.
Proof.
  assert (R : forall x, xml_unescape (_xml_escape x) = x).
  { intros x. rewrite xml_escape_is_per_character.
    induction x as [|c x IH]; [reflexivity|].
    cbn [escape_each]. now rewrite unescape_one, IH. }
  split; [apply R|]. split.
  - intros t H. rewrite <- (R s), <- (R t). now rewrite H.
  - rewrite xml_escape_is_per_character.
    induction s as [|c s IH]; [reflexivity|].
    cbn [escape_each]. now rewrite all_chars_app, escape_char_safe, IH.
Qed.

(** ** Dataset loader: numeric rows *)

Lemma data_field_not_ticker (f : string) :
  str_in f Config.DATA_FIELDS = true -> is_ticker_column f = false.
Proof.
  intros H. apply str_in_In in H. unfold Config.DATA_FIELDS in H.
  cbn [In] in H.
  repeat (destruct H as [<-|H]; [vm_compute; reflexivity|]).
  contradiction.
Qed.

Section NumericViewsFacts.

Variable float_of_str : string -> option float.
Variable int_max_str_digits : Z.
Variable py_str : py_value -> string.

Let step := numeric_step float_of_str int_max_str_digits py_str.
Let str_of := str_of_cell int_max_str_digits py_str.

(** [str(v)] fails on an [int] over the digit limit and on nothing
    else. *)
Lemma str_of_cell_raises (v : py_value) (e : py_error) :
  str_of v = Raise e
  <-> e = ValueError
      /\ exists n, v = PyInt n
                   /\ (0 < int_max_str_digits < decimal_digits n)%Z.
Proof.
  unfold str_of, str_of_cell.
  destruct v as [|b|n|x|t|];
    try (split; [discriminate | intros (_ & n' & [=] & _)]).
  destruct (Z.ltb_spec 0 int_max_str_digits) as [P|P];
    destruct (Z.ltb_spec int_max_str_digits (decimal_digits n)) as [L|L];
    cbn [andb]; split;
    try discriminate;
    try (intros (-> & n' & [= <-] & H); reflexivity || lia).
  intros [= <-]. split; [reflexivity|]. exists n. split; [reflexivity | lia].
Qed.

Lemma str_of_cell_returns (v : py_value) (t : string) :
  str_of v = Return t -> t = py_str v.
Proof.
  unfold str_of, str_of_cell. destruct v as [|b|n|x|s|];
    try (now intros [= <-]).
  destruct (_ && _); [discriminate | now intros [= <-]].
Qed.

Lemma fold_step_raise (r : raw_row) (e : py_error) :
  fold_left step r (Raise e) = Raise e.
Proof. induction r as [|[k v] r IH]; [reflexivity | exact IH]. Qed.

(** What a row built so far holds for a field, and its symbol, in
    terms of the last cells of the columns. *)
Lemma build_numeric_row_cells (r : raw_row) (nr : row) :
  build_numeric_row float_of_str int_max_str_digits py_str r = Return nr ->
  (forall f,
     row_get nr f
     = match last_cell (String.eqb f) r with
       | Some v =>
           if str_in f Config.DATA_FIELDS
           then match _to_float float_of_str v with
                | Return x => x
                | Raise _ => None
                end
           else None
       | None => None
       end)
  /\ row_symbol nr
     = match last_cell is_ticker_column r with
       | Some PyNone => None
       | Some v => Some (strip (py_str v))
       | None => None
       end.
Proof.
  unfold build_numeric_row, last_cell. fold step. revert nr.
  induction r as [|[k v] r IH] using rev_ind; intros nr.
  - intros [= <-]. split; reflexivity.
  - rewrite fold_left_app, rev_app_distr. cbn [fold_left rev app List.find fst].
    destruct (fold_left step r (Return (mkRow None []))) as [pr|e] eqn:E;
      [|discriminate].
    destruct (IH pr eq_refl) as [IHv IHs]. clear IH.
    unfold step at 1. cbn [numeric_step].
    destruct (is_ticker_column k) eqn:T.
    + intros Hnr.
      assert (Hrow : row_values nr = row_values pr
                     /\ row_symbol nr
                        = match v with
                          | PyNone => None
                          | _ => Some (strip (py_str v))
                          end).
      { fold str_of in Hnr.
        destruct v as [|b|n|x|t|];
          try (injection Hnr as <-; split; reflexivity);
          (destruct (str_of _) as [t0|e0] eqn:S; [|discriminate];
           apply str_of_cell_returns in S; subst t0;
           injection Hnr as <-; split; reflexivity). }
      destruct Hrow as [Hval Hsym]. split.
      * intros f. unfold row_get. rewrite Hval.
        destruct (String.eqb_spec f k) as [->|Hfk]; [|apply IHv].
        cbn [option_map snd].
        destruct (str_in k Config.DATA_FIELDS) eqn:D.
        -- rewrite (data_field_not_ticker k D) in T. discriminate.
        -- specialize (IHv k). unfold row_get in IHv. rewrite IHv, D.
           now destruct (List.find (fun kv => String.eqb k (fst kv)) (rev r)).
      * cbn [option_map snd]. rewrite Hsym. now destruct v.
    + destruct (str_in k Config.DATA_FIELDS) eqn:D.
      * destruct (_to_float float_of_str v) as [x|e] eqn:F; [|discriminate].
        intros [= <-]. split.
        -- intros f. unfold row_get. cbn [row_values].
           rewrite dict_get_set.
           destruct (String.eqb_spec f k) as [->|Hfk]; [|apply IHv].
           cbn [option_map snd]. now rewrite D, F.
        -- exact IHs.
      * intros [= <-]. split; [|exact IHs].
        intros f. destruct (String.eqb_spec f k) as [->|Hfk]; [|apply IHv].
        cbn [option_map snd]. rewrite D. rewrite (IHv k), D.
        now destruct (List.find (fun kv => String.eqb k (fst kv)) (rev r)).
Qed.

(** X22. What a numeric row holds under each key.  Under "symbol" it
    holds the text of the ticker cell, as X23 has it.  Under a data
    field it holds the coerced cell of the column of that exact name
    (the last one, should the name repeat), and nothing when there is
    no such column.  Under any other key it holds nothing: columns with
    other names, a data field's name in another case included, are
    ignored. *)
Theorem numeric_row_lookup (r : raw_row) (nr : row) (f : string) :
  build_numeric_row float_of_str int_max_str_digits py_str r = Return nr ->
  row_item nr f
  = if String.eqb f "symbol" then
      match last_cell is_ticker_column r with
      | Some PyNone => None
      | Some v => Some (RowText (strip (py_str v)))
      | None => None
      end
    else
      match last_cell (String.eqb f) r with
      | Some v =>
          if str_in f Config.DATA_FIELDS
          then match _to_float float_of_str v with
               | Return x => option_map RowNumber x
               | Raise _ => None
               end
          else None
      | None => None
      end.
Proof.
  intros H. destruct (build_numeric_row_cells r nr H) as [Hval Hsym].
  unfold row_item. destruct (String.eqb f "symbol").
  - rewrite Hsym.
    now destruct (last_cell is_ticker_column r) as [[]|].
  - rewrite (Hval f).
    destruct (last_cell (String.eqb f) r) as [v|]; [|reflexivity].
    destruct (str_in f Config.DATA_FIELDS); [|reflexivity].
    now destruct (_to_float float_of_str v).
Qed.

(** X23. The symbol of a numeric row is read from the last column
    whose header, stripped and lower-cased, is symbol, ticker, tick or
    tic: the text of its cell, stripped; it is missing when that cell is
    empty, even if an earlier ticker column held a symbol, and when the
    row has no such column. *)
Theorem numeric_row_symbol (r : raw_row) (nr : row) :
  build_numeric_row float_of_str int_max_str_digits py_str r = Return nr ->
  row_symbol nr
  = match last_cell is_ticker_column r with
    | Some PyNone => None
    | Some v => Some (strip (py_str v))
    | None => None
    end.
Proof. intros H. exact (proj2 (build_numeric_row_cells r nr H)). Qed.

(** The cells the loop cannot take: an [int] too large for a float
    under a data field, an [int] over the digit limit of [str] under a
    ticker column. *)
Lemma step_raises (nr : row) (k : string) (v : py_value) (e : py_error) :
  step (Return nr) (k, v) = Raise e
  <-> exists n, v = PyInt n
      /\ ((e = OverflowError /\ str_in k Config.DATA_FIELDS = true
           /\ float_of_int n = None)
          \/ (e = ValueError /\ is_ticker_column k = true
              /\ (0 < int_max_str_digits < decimal_digits n)%Z)).
Proof.
  unfold step. cbn [numeric_step].
  destruct (is_ticker_column k) eqn:T.
  - assert (Hs : match v with
                 | PyNone => Return (mkRow None (row_values nr))
                 | _ => match str_of v with
                        | Return t =>
                            Return (mkRow (Some (strip t)) (row_values nr))
                        | Raise e0 => Raise e0
                        end
                 end = Raise e <-> str_of v = Raise e).
    { destruct v; try (destruct (str_of _); split; congruence).
      split; discriminate. }
    fold str_of. rewrite Hs, str_of_cell_raises. split.
    + intros (-> & n & -> & H). exists n. split; [reflexivity|]. right. auto.
    + intros (n & -> & [(_ & D & _)|(-> & _ & H)]).
      * rewrite (data_field_not_ticker k D) in T. discriminate.
      * split; [reflexivity|]. eauto.
  - destruct (str_in k Config.DATA_FIELDS) eqn:D.
    + destruct (_to_float float_of_str v) as [x|e1] eqn:F.
      * split; [discriminate|].
        intros (n & -> & [(_ & _ & O)|(_ & [=] & _)]).
        cbn [_to_float] in F. rewrite O in F. discriminate.
      * apply to_float_raises in F. destruct F as (n & -> & O & ->). split.
        -- intros [= <-]. exists n. split; [reflexivity|]. left. auto.
        -- intros (n' & [= <-] & [(-> & _)|(_ & [=] & _)]). reflexivity.
    + split; [discriminate|].
      intros (n & _ & [(_ & [=] & _)|(_ & [=] & _)]).
Qed.

Lemma step_returns_or_raises (nr : row) (item : string * py_value) :
  (exists nr', step (Return nr) item = Return nr')
  \/ (exists e, step (Return nr) item = Raise e).
Proof. destruct (step (Return nr) item); eauto. Qed.

(** A row fails with the exception of its first cell that cannot be
    taken, and with no other. *)
Lemma fold_step_raises (r : raw_row) (nr : row) (e : py_error) :
  fold_left step r (Return nr) = Raise e ->
  exists k n, In (k, PyInt n) r
    /\ ((e = OverflowError /\ str_in k Config.DATA_FIELDS = true
         /\ float_of_int n = None)
        \/ (e = ValueError /\ is_ticker_column k = true
            /\ (0 < int_max_str_digits < decimal_digits n)%Z)).
Proof.
  revert nr. induction r as [|[k v] r IH]; intros nr; cbn [fold_left].
  - discriminate.
  - destruct (step (Return nr) (k, v)) as [nr'|e0] eqn:S.
    + intros H. destruct (IH nr' H) as (k' & n & Hin & Hc).
      exists k', n. cbn [In]. auto.
    + rewrite fold_step_raise. intros [= ->].
      apply step_raises in S. destruct S as (n & -> & Hc).
      exists k, n. cbn [In]. auto.
Qed.

Lemma fold_step_returns (r : raw_row) (nr nr' : row) :
  fold_left step r (Return nr) = Return nr' ->
  forall k n, In (k, PyInt n) r ->
    ~ (str_in k Config.DATA_FIELDS = true /\ float_of_int n = None)
    /\ ~ (is_ticker_column k = true
          /\ (0 < int_max_str_digits < decimal_digits n)%Z).
Proof.
  revert nr. induction r as [|[k v] r IH]; intros nr; cbn [fold_left].
  - intros _ k n [].
  - destruct (step (Return nr) (k, v)) as [nr1|e0] eqn:S.
    2:{ rewrite fold_step_raise. discriminate. }
    intros H k' n [[= -> ->]|Hin]; [|exact (IH nr1 H k' n Hin)].
    assert (N : forall e, step (Return nr) (k', PyInt n) <> Raise e)
      by (intros e; rewrite S; discriminate).
    split.
    + intros (D & O). apply (N OverflowError). apply step_raises.
      exists n. split; [reflexivity|]. left. auto.
    + intros (T & L). apply (N ValueError). apply step_raises.
      exists n. split; [reflexivity|]. right. auto.
Qed.

(** X24. Loading the rows fails only through an [int] cell: one too
    large for a float in a data field's column, which raises
    OverflowError, or one of more decimal digits than the limit of
    [str] in a ticker column, which raises ValueError.
    [build_numeric_views] raises exactly when some row has such a cell,
    the exception being that of such a cell of the dataset, and one such
    cell loses the whole dataset; otherwise it returns one numeric row
    per raw row. *)
Theorem build_numeric_views_outcome (rows : list raw_row) :
  let overflows r :=
    exists k n, In (k, PyInt n) r
                /\ str_in k Config.DATA_FIELDS = true
                /\ float_of_int n = None in
  let too_long r :=
    exists k n, In (k, PyInt n) r
                /\ is_ticker_column k = true
                /\ (0 < int_max_str_digits < decimal_digits n)%Z in
  let views :=
    build_numeric_views float_of_str int_max_str_digits py_str rows in
  (forall e,
     views = Raise e ->
     (e = OverflowError /\ exists r, In r rows /\ overflows r)
     \/ (e = ValueError /\ exists r, In r rows /\ too_long r))
  /\ ((exists e, views = Raise e)
      <-> exists r, In r rows /\ (overflows r \/ too_long r))
  /\ (forall l, views = Return l -> List.length l = List.length rows)
  /\ ((forall r, In r rows -> ~ overflows r /\ ~ too_long r)
      -> exists l, views = Return l).
Proof.
  intros overflows too_long views.
  assert (Hraise : forall rs e,
    build_numeric_views float_of_str int_max_str_digits py_str rs = Raise e ->
    (e = OverflowError /\ exists r, In r rs /\ overflows r)
    \/ (e = ValueError /\ exists r, In r rs /\ too_long r)).
  { induction rs as [|r rs IH]; intros e; cbn [build_numeric_views];
      [discriminate|].
    destruct (build_numeric_row float_of_str int_max_str_digits py_str r)
      as [nr|e0] eqn:E.
    - destruct (build_numeric_views float_of_str int_max_str_digits py_str rs)
        as [l0|e1]; [discriminate|].
      intros [= <-].
      destruct (IH e1 eq_refl) as [(-> & r' & Hin & H)|(-> & r' & Hin & H)];
        [left | right]; (split; [reflexivity|]); exists r'; cbn [In]; auto.
    - intros [= <-]. apply fold_step_raises in E.
      destruct E as (k & n & Hin & [(-> & D & O)|(-> & T & L)]);
        [left | right]; (split; [reflexivity|]); exists r; cbn [In];
        (split; [auto|]); exists k, n; auto. }
  assert (Hreturn : forall rs l,
    build_numeric_views float_of_str int_max_str_digits py_str rs = Return l ->
    List.length l = List.length rs
    /\ forall r, In r rs -> ~ overflows r /\ ~ too_long r).
  { induction rs as [|r rs IH]; intros l; cbn [build_numeric_views].
    - intros [= <-]. split; [reflexivity|]. intros r [].
    - destruct (build_numeric_row float_of_str int_max_str_digits py_str r)
        as [nr|e0] eqn:E; [|discriminate].
      destruct (build_numeric_views float_of_str int_max_str_digits py_str rs)
        as [l0|e1]; [|discriminate].
      intros [= <-]. destruct (IH l0 eq_refl) as [Hlen Hok].
      split; [cbn [List.length]; now rewrite Hlen|].
      intros r' [<-|Hin]; [|exact (Hok r' Hin)].
      pose proof (fold_step_returns r _ _ E) as Hr.
      split; intros (k & n & Hin & Hc); destruct (Hr k n Hin) as [H1 H2];
        [apply H1 | apply H2]; exact Hc. }
  split; [exact (Hraise rows)|]. split; [|split].
  - split.
    + intros [e He]. destruct (Hraise rows e He)
        as [(_ & r & Hin & H)|(_ & r & Hin & H)]; exists r; auto.
    + intros (r & Hin & Hbad). subst views.
      destruct (build_numeric_views float_of_str int_max_str_digits py_str
                  rows) as [l|e] eqn:V; [|eauto].
      destruct (proj2 (Hreturn rows l V) r Hin) as [H1 H2].
      destruct Hbad; contradiction.
  - intros l Hl. exact (proj1 (Hreturn rows l Hl)).
  - intros Hok. subst views.
    destruct (build_numeric_views float_of_str int_max_str_digits py_str rows)
      as [l|e] eqn:V; [eauto|].
    destruct (Hraise rows e V) as [(_ & r & Hin & H)|(_ & r & Hin & H)];
      destruct (Hok r Hin) as [H1 H2]; contradiction.
Qed.

End NumericViewsFacts.

Lemma numeric_row_lookup_witness :
  row_item
    (mkRow (Some "AAPL:US") [("peg", Some 2%float); ("fcf_yield", None)])
    "symbol"
  = Some (RowText "AAPL:US")
  /\ row_item
       (mkRow (Some "AAPL:US") [("peg", Some 2%float); ("fcf_yield", None)])
       "peg"
     = Some (RowNumber 2%float)
  /\ row_item
       (mkRow (Some "AAPL:US") [("peg", Some 2%float); ("fcf_yield", None)])
       "PEG"
     = None.
Proof.
  pose (r := [("Symbol", PyStr " AAPL:US "); ("peg", PyInt 2);
              ("PEG", PyInt 9); ("fcf_yield", PyStr "n/a")]).
  pose (nr := mkRow (Some "AAPL:US")
                [("peg", Some 2%float); ("fcf_yield", None)]).
  assert (H : build_numeric_row (fun _ => None) 4300%Z
                (fun v => match v with PyStr t => t | _ => "" end) r
              = Return nr) by (vm_compute; reflexivity).
  refine (conj _ (conj _ _)).
  - refine (eq_trans (numeric_row_lookup _ _ _ r nr "symbol" H) _).
    vm_compute; reflexivity.
  - refine (eq_trans (numeric_row_lookup _ _ _ r nr "peg" H) _).
    vm_compute; reflexivity.
  - refine (eq_trans (numeric_row_lookup _ _ _ r nr "PEG" H) _).
    vm_compute; reflexivity.
Defined.

Lemma numeric_row_symbol_witness :
  row_symbol (mkRow None [("peg", Some 2%float)]) = None.
Proof.
  refine (eq_trans
            (numeric_row_symbol (fun _ => None) 4300%Z
               (fun v => match v with PyStr t => t | _ => "" end)
               [("Symbol", PyStr "AAPL"); ("peg", PyInt 2);
                ("Ticker", PyNone)]
               (mkRow None [("peg", Some 2%float)]) _) _);
    vm_compute; reflexivity.
Defined.

Lemma build_numeric_views_outcome_witness :
  (exists e,
     build_numeric_views (fun _ => None) 4300%Z
       (fun v => match v with PyStr t => t | _ => "" end)
       [[("ticker", PyStr "AAPL"); ("peg", PyInt 2)];
        [("Ticker", PyInt (10 ^ 4300))]]
     = Raise e)
  /\ List.length [mkRow (Some "AAPL") [("peg", Some 2%float)]]
     = List.length [[("ticker", PyStr "AAPL"); ("peg", PyInt 2)]].
Proof.
  split.
  - apply (proj1 (proj2 (build_numeric_views_outcome (fun _ => None) 4300%Z
                           (fun v => match v with PyStr t => t | _ => "" end)
                           [[("ticker", PyStr "AAPL"); ("peg", PyInt 2)];
                            [("Ticker", PyInt (10 ^ 4300))]]))).
    exists [("Ticker", PyInt (10 ^ 4300))].
    split; [right; left; reflexivity|].
    right. exists "Ticker", (10 ^ 4300)%Z.
    split; [left; reflexivity|].
    split; [vm_compute; reflexivity|].
    split; vm_compute; reflexivity.
  - apply (proj1 (proj2 (proj2
             (build_numeric_views_outcome (fun _ => None) 4300%Z
                (fun v => match v with PyStr t => t | _ => "" end)
                [[("ticker", PyStr "AAPL"); ("peg", PyInt 2)]])))).
    vm_compute. reflexivity.
Defined.

Lemma xml_escape_round_trip_witness : "a<b&c" = "a<b&c".
Proof.
  apply (proj1 (proj2 (xml_escape_round_trip "a<b&c"))).
  vm_compute. reflexivity.
Defined.

(** ** Dataset loader: raw rows *)

Lemma raw_set_new (d : raw_row) (k : string) (v : py_value) :
  ~ In k (map fst d) -> raw_set d k v = (d ++ [(k, v)])%list.
Proof.
  induction d as [|[k' v'] d IH]; simpl; [reflexivity|].
  intros H. destruct (String.eqb_spec k k') as [->|_]; [tauto|].
  rewrite IH; tauto.
Qed.

Lemma record_loop_distinct (names : list string) (cells : list py_value) :
  forall idx record empty_count,
    NoDup (map fst record ++ map fst (named_cells names idx cells)) ->
    record_loop names idx cells record empty_count
    = ((record ++ named_cells names idx cells)%list,
       (empty_count
        + List.length
            (filter (fun kv => is_empty_cell (snd kv))
               (named_cells names idx cells)))%nat).
Proof.
  induction names as [|h names IH]; intros idx record cnt Hnd;
    cbn [record_loop named_cells].
  - now rewrite app_nil_r, Nat.add_0_r.
  - cbn [named_cells] in Hnd.
    destruct (is_empty h); [apply IH; exact Hnd|].
    cbn [map fst] in Hnd. cbv zeta.
    assert (Hh : ~ In h (map fst record)).
    { intros Hin. apply NoDup_remove_2 in Hnd. apply Hnd.
      apply in_or_app. now left. }
    rewrite (raw_set_new _ _ _ Hh), IH.
    + rewrite <- app_assoc. cbn [app filter snd].
      destruct (is_empty_cell (nth idx cells PyNone)); cbn [List.length];
        f_equal; lia.
    + rewrite map_app, <- app_assoc. cbn [map fst app].
      apply NoDup_remove_1 in Hnd as Hnd1.
      apply NoDup_remove_2 in Hnd as Hnd2.
      clear - Hnd Hnd1 Hnd2.
      revert Hnd. generalize (map fst (named_cells names (S idx) cells)).
      generalize (map fst record). intros a b Hnd.
      apply (Permutation_NoDup (l := h :: a ++ b)).
      * apply Permutation_middle.
      * apply (Permutation_NoDup (l := a ++ h :: b)); [|exact Hnd].
        symmetry. apply Permutation_middle.
Qed.

Lemma all_empty_count {A} (p : A -> bool) (l : list A) :
  (List.length l <=? List.length (filter p l))%nat = forallb p l.
Proof.
  induction l as [|x l IH]; [reflexivity|]. cbn [filter forallb List.length].
  pose proof (filter_length_le p l) as Hle.
  destruct (p x); cbn [List.length andb].
  - exact IH.
  - apply Nat.leb_gt. lia.
Qed.

Lemma named_cells_keys (names : list string) (cells : list py_value) :
  forall idx,
    map fst (named_cells names idx cells)
    = filter (fun h => negb (is_empty h)) names.
Proof.
  induction names as [|h names IH]; intros idx; [reflexivity|].
  cbn [named_cells filter]. destruct (is_empty h); cbn [negb map fst];
    [apply IH | f_equal; apply IH].
Qed.

Section RawRowsFacts.

Variable py_str : py_value -> string.

(** X25. With headers whose names are distinct, [read_xlsx_rows]
    keeps a worksheet row unless the sheet has a named column and every
    cell of the row under a named column is empty (None or a blank
    string; a cell past the end of the row counts as None).  A kept row
    gives the record of its cells under the named headers, in order. *)
Theorem read_xlsx_rows_keeps_rows_with_data
  (headers : list py_value) (rows : list (list py_value)) :
  headers <> [] ->
  NoDup (filter (fun h => negb (is_empty h)) (header_names py_str headers)) ->
  read_xlsx_rows py_str headers rows
  = map (fun cells => named_cells (header_names py_str headers) 0 cells)
      (filter
         (fun cells =>
            let record := named_cells (header_names py_str headers) 0 cells in
            negb (forallb (fun kv => is_empty_cell (snd kv)) record
                  && negb (List.length record =? 0)%nat))
         rows).
Proof.
  intros Hne Hnd. unfold read_xlsx_rows.
  destruct headers as [|h0 hs]; [congruence|].
  set (names := header_names py_str (h0 :: hs)) in *. cbv zeta.
  induction rows as [|cells rows IH]; [reflexivity|].
  cbn [flat_map filter]. rewrite IH. clear IH.
  rewrite (record_loop_distinct names cells 0 [] 0)
    by (cbn [map app]; now rewrite named_cells_keys).
  cbn [app Nat.add]. rewrite all_empty_count.
  destruct (forallb _ _ && negb _); reflexivity.
Qed.

End RawRowsFacts.

Lemma read_xlsx_rows_keeps_rows_with_data_witness :
  read_xlsx_rows (fun v => match v with PyStr t => t | _ => "" end)
    [PyStr "symbol"; PyNone; PyStr " peg "]
    [[PyStr "AAPL"; PyInt 7; PyFloat 1.5]; [PyNone; PyInt 7; PyStr "  "];
     [PyStr "MSFT"]]
  = [[("symbol", PyStr "AAPL"); ("peg", PyFloat 1.5)];
     [("symbol", PyStr "MSFT"); ("peg", PyNone)]].
Proof.
  refine (eq_trans
            (read_xlsx_rows_keeps_rows_with_data
               (fun v => match v with PyStr t => t | _ => "" end)
               [PyStr "symbol"; PyNone; PyStr " peg "]
               [[PyStr "AAPL"; PyInt 7; PyFloat 1.5];
                [PyNone; PyInt 7; PyStr "  "]; [PyStr "MSFT"]] _ _) _).
  - discriminate.
  - vm_compute. repeat constructor; cbn [In]; intuition discriminate.
  - vm_compute. reflexivity.
Defined.

(** ** Further properties of formatting and scoring *)

Lemma str_of_nat_head (n : Z) :
  exists c r, str_of_nat n = String c r /\ c <> "N"%char.
Proof.
  unfold str_of_nat, NilZero.string_of_uint.
  destruct (N.to_uint (Z.to_N n)); cbn [NilEmpty.string_of_uint];
    eexists; eexists; (split; [reflexivity | discriminate]).
Qed.

Lemma group_from_head (c : ascii) (r : string) :
  exists r', group_from (String c r) = String c r'.
Proof.
  cbn [group_from].
  match goal with |- context [if ?t then _ else _] => destruct t end;
    eexists; reflexivity.
Qed.

Lemma format_fixed_head (grouped : bool) (p : nat) (x : float) :
  exists c r, format_fixed grouped p x = String c r /\ c <> "N"%char.
Proof.
  unfold format_fixed.
  assert (B : forall (s : bool) (n : Z),
    exists c r,
      ((if s then "-" else "")
       ++ (if grouped
           then group_from (str_of_nat (n / 10 ^ Z.of_nat p))
           else str_of_nat (n / 10 ^ Z.of_nat p))
       ++ (if (p =? 0)%nat then ""
           else "." ++ zeros (p - String.length
                                    (str_of_nat (n mod 10 ^ Z.of_nat p)))
                ++ str_of_nat (n mod 10 ^ Z.of_nat p)))
      = String c r /\ c <> "N"%char).
  { intros s n. destruct s.
    - eexists; eexists. split; [reflexivity | discriminate].
    - destruct (str_of_nat_head (n / 10 ^ Z.of_nat p)) as (c & r & -> & Hc).
      destruct grouped.
      + destruct (group_from_head c r) as [r' ->].
        eexists; eexists. split; [reflexivity | exact Hc].
      + eexists; eexists. split; [reflexivity | exact Hc]. }
  destruct (Prim2SF x) as [s|s| |s m e].
  - apply B.
  - destruct s; eexists; eexists; (split; [reflexivity | discriminate]).
  - eexists; eexists; (split; [reflexivity | discriminate]).
  - apply B.
Qed.

(** X26. The page shows N/A for a metric exactly when its value is
    absent: [format_metric_value] returns "N/A" if and only if the value
    is None or NaN, for every field. *)
Theorem not_available_iff_missing (value : option float) (f : string) :
  format_metric_value value f = "N/A" <-> is_missing value = true.
Proof.
  split; [|apply format_metric_value_by_class].
  destruct value as [v|]; [|reflexivity]. cbn [is_missing].
  destruct (isnan v) eqn:E; [reflexivity|]. intros H. exfalso.
  rewrite (proj2 (format_metric_value_by_class (Some v) f) v eq_refl E) in H.
  revert H. unfold spec_render.
  destruct (spec_format_class f) as [|sign| | |];
    match goal with
    | |- context [format_fixed ?g ?p ?x] =>
        destruct (format_fixed_head g p x) as (c & r & -> & Hc)
    end; cbn [append]; intros [= ->]; congruence.
Qed.

Lemma count_of_app {A} (p : A -> bool) (l1 l2 : list A) :
  count_of p (l1 ++ l2) = (count_of p l1 + count_of p l2)%Z.
Proof. unfold count_of. rewrite filter_app, length_app. lia. Qed.

(** X27. Scores add up: the score of two lists of fields taken
    together is the sum, count by count, of their scores, so the order
    of the fields of a section does not matter to its counts and a
    section can be scored in parts. *)
Theorem section_score_is_additive (ids1 ids2 : list string) (sd md : dict) :
  let '(a1, t1) := calculate_section_score ids1 sd md in
  let '(a2, t2) := calculate_section_score ids2 sd md in
  calculate_section_score (ids1 ++ ids2) sd md = ((a1 + a2)%Z, (t1 + t2)%Z).
Proof.
  rewrite !calculate_section_score_counts. now rewrite !count_of_app.
Qed.

(** X28. The two polarities mirror each other, except between the
    bands of a negative median.  For a present value and a present
    median with [|median| >= 1e-12], seen once as a higher-is-better
    band field and once as a lower-is-better band field: when the value
    is both [>= upper] and [<= lower], which a negative median allows,
    both verdicts are "better"; otherwise one is "better" exactly when
    the other is "worse", and both are "equal" together. *)
Theorem polarity_mirror (f g : string) (v m : float) :
  threshold_indicator f = None -> threshold_indicator g = None ->
  str_in f Config.HIGHER_IS_BETTER = true ->
  str_in g Config.HIGHER_IS_BETTER = false ->
  str_in g Config.LOWER_IS_BETTER = true ->
  isnan v = false -> isnan m = false ->
  fge (abs m) 1e-12%float = true ->
  let upper := (m * (1 + 0.15))%float in
  let lower := (m * (1 - 0.15))%float in
  let high := css_class (get_comparison_indicator (Some v) (Some m) f) in
  let low := css_class (get_comparison_indicator (Some v) (Some m) g) in
  (fge v upper = true -> fle v lower = true ->
     high = "better" /\ low = "better")
  /\ (fge v upper && fle v lower = false ->
      (high = "better" <-> low = "worse")
      /\ (high = "worse" <-> low = "better")
      /\ (high = "equal" <-> low = "equal")).
Proof.
  intros Hf Hg Hfh Hgh Hgl Hv Hm Hbig upper lower high low.
  pose proof (band_cascade f v m Hf Hv Hm Hbig) as Ef.
  pose proof (band_cascade g v m Hg Hv Hm Hbig) as Eg.
  cbv zeta in Ef, Eg. fold upper in Ef, Eg. fold lower in Ef, Eg.
  rewrite Hfh in Ef. rewrite Hgh, Hgl in Eg.
  subst high low. rewrite Ef, Eg. clear Ef Eg. split.
  - intros -> ->. auto.
  - destruct (fge v upper), (fle v lower); cbn [andb];
      try discriminate; intros _;
      repeat split; intros; congruence || reflexivity.
Qed.

Lemma polarity_mirror_witness :
  css_class
    (get_comparison_indicator (Some (-10)%float) (Some (-10)%float)
       "fcf_yield") = "better"
  /\ css_class
       (get_comparison_indicator (Some (-10)%float) (Some (-10)%float) "peg")
     = "better".
Proof.
  apply (proj1 (polarity_mirror "fcf_yield" "peg" (-10)%float (-10)%float
                  eq_refl eq_refl eq_refl eq_refl eq_refl eq_refl eq_refl
                  eq_refl));
    reflexivity.
Defined.
